(** * brynet: AsyncConnector, the WebBinaryProxy example and SSLHelper

    A shallow embedding of

    - [src/brynet/net/Connector.cpp]  (ConnectorWorkInfo, AsyncConnector),
    - [examples/WebBinaryProxy.cpp]   (the per-session callbacks),
    - [src/brynet/net/SSLHelper.cpp]  (SSLHelper::initSSL / destroySSL).

    Every C++ method becomes a function from the object's state and the
    answers of the operating system to the new state and the list of
    effects (system calls, user callbacks) it performed, in program order. *)

From Stdlib Require Import ZArith List String Ascii Bool Lia Arith Sorted.
Import ListNotations.
Local Open Scope Z_scope.

(** ** Basic types *)

(** [sock] is the socket descriptor type; [SOCKET_ERROR] is -1. *)
Definition sock := Z.
Definition SOCKET_ERROR : sock := -1.

(** [std::chrono::steady_clock::time_point] and [std::chrono::nanoseconds]
    are signed tick counts. *)
Definition time_point := Z.
Definition nanoseconds := Z.

(** A [std::function] is either [nullptr] ([None]) or holds a target; the
    target is opaque user code, represented by its name. *)
Definition COMPLETED_CALLBACK := option nat.
Definition FAILED_CALLBACK := option nat.

(** ** std::map<sock, V> and std::set<sock>

    Both containers keep their elements in ascending key order, and the
    loops of Connector.cpp visit them in that order, so they are embedded
    as key-ordered lists. *)

Module StdSet.
Definition t := list sock.

Definition empty : t := [].

Fixpoint insert (k : sock) (s : t) : t :=
  match s with
  | [] => [k]
  | k' :: s' =>
      if k <? k' then k :: s
      else if k =? k' then s
      else k' :: insert k s'
  end.

Fixpoint erase (k : sock) (s : t) : t :=
  match s with
  | [] => []
  | k' :: s' => if k =? k' then s' else k' :: erase k s'
  end.

Fixpoint mem (k : sock) (s : t) : bool :=
  match s with
  | [] => false
  | k' :: s' => (k =? k') || mem k s'
  end.
End StdSet.

Module StdMap.
Section WithValue.
Context {V : Type}.

Definition t := list (sock * V).

Definition empty : t := [].

(** [m.find(k)]: [None] stands for [m.end()]. *)
Fixpoint find (k : sock) (m : t) : option V :=
  match m with
  | [] => None
  | (k', v) :: m' => if k =? k' then Some v else find k m'
  end.

(** [m[k] = v]. *)
Fixpoint insert (k : sock) (v : V) (m : t) : t :=
  match m with
  | [] => [(k, v)]
  | (k', v') :: m' =>
      if k <? k' then (k, v) :: m
      else if k =? k' then (k, v) :: m'
      else (k', v') :: insert k v m'
  end.

Fixpoint erase (k : sock) (m : t) : t :=
  match m with
  | [] => []
  | (k', v') :: m' => if k =? k' then m' else (k', v') :: erase k m'
  end.

Definition keys (m : t) : list sock := map fst m.
End WithValue.
Arguments t : clear implicits.
End StdMap.

(** ** Effects

    The observable actions of the connector worker, in the order the code
    performs them. *)
Inductive Event : Type :=
| EvSocketCreate (result : sock)            (* base::SocketCreate(AF_INET, SOCK_STREAM, 0) *)
| EvSocketNonblock (fd : sock)              (* base::SocketNonblock(fd) *)
| EvConnect (fd : sock) (sin_addr sin_port : Z)  (* connect(fd, &server_addr, ...) *)
| EvSocketClose (fd : sock)                 (* base::SocketClose(fd), also on TcpSocket drop *)
| EvFdsetAdd (fd : sock)                    (* ox_fdset_add(mFDSet, fd, WriteCheck) *)
| EvFdsetDel (fd : sock)                    (* ox_fdset_del(mFDSet, fd, WriteCheck) *)
| EvCallSuccess (cb : nat) (fd : sock)      (* successCB(TcpSocket::Create(fd, false)) *)
| EvCallFailed (cb : nat).                  (* failedCB() *)

Definition trace := list Event.

(** ** AsyncConnectAddr *)
Record AsyncConnectAddr : Type := mkAsyncConnectAddr {
  mIP : string;
  mPort : Z;
  mTimeout : nanoseconds;
  mSuccessCB : COMPLETED_CALLBACK;
  mFailedCB : FAILED_CALLBACK
}.

Definition getIP (a : AsyncConnectAddr) : string := mIP a.
Definition getPort (a : AsyncConnectAddr) : Z := mPort a.
Definition getSuccessCB (a : AsyncConnectAddr) : COMPLETED_CALLBACK := mSuccessCB a.
Definition getFailedCB (a : AsyncConnectAddr) : FAILED_CALLBACK := mFailedCB a.
Definition getTimeout (a : AsyncConnectAddr) : nanoseconds := mTimeout a.

(** ** ConnectorWorkInfo *)
Record ConnectingInfo : Type := mkConnectingInfo {
  startConnectTime : time_point;
  timeout : nanoseconds;
  successCB : COMPLETED_CALLBACK;
  failedCB : FAILED_CALLBACK
}.

(** Modelled from the spec: the readiness set [struct fdset_s] of fdset.h
    (section 4.1, "owns registration table keyed by fd; a mask of
    interests per fd").  Connector.cpp only ever uses the [WriteCheck]
    interest, so the table is the set of descriptors registered for it. *)
Record fdset_s : Type := mkFdset {
  write_interest : StdSet.t
}.

Definition ox_fdset_new : fdset_s := {| write_interest := StdSet.empty |}.
Definition ox_fdset_add (fd : sock) (s : fdset_s) : fdset_s :=
  {| write_interest := StdSet.insert fd (write_interest s) |}.
Definition ox_fdset_del (fd : sock) (s : fdset_s) : fdset_s :=
  {| write_interest := StdSet.erase fd (write_interest s) |}.

Record ConnectorWorkInfo : Type := mkWorkInfo {
  mConnectingInfos : StdMap.t ConnectingInfo;
  mConnectingFds : StdSet.t;
  mFDSet : fdset_s
}.

(** [ConnectorWorkInfo::ConnectorWorkInfo()] *)
Definition newConnectorWorkInfo : ConnectorWorkInfo :=
  {| mConnectingInfos := StdMap.empty;
     mConnectingFds := StdSet.empty;
     mFDSet := ox_fdset_new |}.

(** *** What the operating system answers *)

(** Answers to one [ox_fdset_poll] and to the [ox_fdset_check] and
    [getsockopt(SO_ERROR)] calls that follow it. *)
Record PollOS : Type := mkPollOS {
  poll_ret : Z;                       (* return value of ox_fdset_poll *)
  write_ready : sock -> bool;         (* ox_fdset_check(mFDSet, fd, WriteCheck) *)
  so_error : sock -> option Z         (* getsockopt: None when it returns -1,
                                         Some e when it stores e in [error] *)
}.

Definition ox_fdset_check (os : PollOS) (fd : sock) : bool := write_ready os fd.

(** Answers to the calls of one [processConnect]. *)
Record ConnectOS : Type := mkConnectOS {
  os_socket : sock;        (* result of base::SocketCreate *)
  os_stack : Z;            (* content of the uninitialised local [server_addr.sin_addr] *)
  os_connect : Z;          (* return value of connect *)
  os_errno : Z;            (* sErrno after connect *)
  os_now : time_point      (* steady_clock::now() *)
}.

Definition EINPROGRESS : Z := 115.
(** The non-Windows branch of the [#if]: [int check_error = EINPROGRESS]. *)
Definition check_error : Z := EINPROGRESS.

(** *** libc helpers used by processConnect *)

Definition digit_of (c : ascii) : option Z :=
  let n := Z.of_nat (nat_of_ascii c) in
  if (48 <=? n) && (n <=? 57) then Some (n - 48) else None.

Definition is_dot (c : ascii) : bool := Z.of_nat (nat_of_ascii c) =? 46.

(** The scanning loop of [inet_pton(AF_INET, src, dst)]: decimal octets
    without leading zeros, each at most 255, separated by single dots. *)
Fixpoint inet_pton4_loop (src : string) (saw_digit : bool) (octets : Z)
    (done : list Z) (cur : Z) : option (list Z) :=
  match src with
  | EmptyString => if octets <? 4 then None else Some (done ++ [cur])
  | String ch rest =>
      match digit_of ch with
      | Some d =>
          let new := cur * 10 + d in
          if saw_digit && (cur =? 0) then None
          else if 255 <? new then None
          else if saw_digit then inet_pton4_loop rest true octets done new
          else if 4 <? octets + 1 then None
          else inet_pton4_loop rest true (octets + 1) done new
      | None =>
          if is_dot ch && saw_digit then
            if octets =? 4 then None
            else inet_pton4_loop rest false octets (done ++ [cur]) 0
          else None
      end
  end.

(** [inet_pton(AF_INET, src, &dst)]: [Some a] when it returns 1 and stores
    the address [a] (written b0.b1.b2.b3, as one 32-bit number), [None]
    when it returns 0 and leaves [dst] untouched. *)
Definition inet_pton (src : string) : option Z :=
  match inet_pton4_loop src false 0 [] 0 with
  | Some [b0; b1; b2; b3] => Some (((b0 * 256 + b1) * 256 + b2) * 256 + b3)
  | _ => None
  end.

(** [htons] on a little-endian host: the low 16 bits, bytes swapped. *)
Definition htons (p : Z) : Z :=
  Z.lor (Z.shiftl (Z.land p 255) 8) (Z.land (Z.shiftr p 8) 255).

(** [if (cb != nullptr) cb(TcpSocket::Create(fd, false));] *)
Definition call_success (cb : COMPLETED_CALLBACK) (fd : sock) : trace :=
  match cb with
  | Some f => [EvCallSuccess f fd]
  | None => []
  end.

(** [if (cb != nullptr) cb();] *)
Definition call_failed (cb : FAILED_CALLBACK) : trace :=
  match cb with
  | Some f => [EvCallFailed f]
  | None => []
  end.

(** *** ConnectorWorkInfo::processConnect *)
Definition processConnect (os : ConnectOS) (addr : AsyncConnectAddr)
    (w : ConnectorWorkInfo) : ConnectorWorkInfo * trace :=
  let clientfd := os_socket os in
  if clientfd =? SOCKET_ERROR then
    (* goto FAILED *)
    (w, [EvSocketCreate clientfd] ++ call_failed (getFailedCB addr))
  else
    (* inet_pton's return value is not looked at: when it stores nothing,
       sin_addr keeps whatever the stack held. *)
    let sin_addr :=
      match inet_pton (getIP addr) with
      | Some a => a
      | None => os_stack os
      end in
    let sin_port := htons (getPort addr) in
    let pre := [EvSocketCreate clientfd; EvSocketNonblock clientfd;
                EvConnect clientfd sin_addr sin_port] in
    if os_connect os =? 0 then
      (* goto SUCCESS *)
      (w, pre ++ call_success (getSuccessCB addr) clientfd)
    else if negb (check_error =? os_errno os) then
      (* SocketClose(clientfd); goto FAILED *)
      (w, pre ++ [EvSocketClose clientfd] ++ call_failed (getFailedCB addr))
    else
      let ci := {| startConnectTime := os_now os;
                   timeout := getTimeout addr;
                   successCB := getSuccessCB addr;
                   failedCB := getFailedCB addr |} in
      ({| mConnectingInfos := StdMap.insert clientfd ci (mConnectingInfos w);
          mConnectingFds := StdSet.insert clientfd (mConnectingFds w);
          mFDSet := ox_fdset_add clientfd (mFDSet w) |},
       pre ++ [EvFdsetAdd clientfd]).

(** *** ConnectorWorkInfo::isConnectSuccess *)
Definition isConnectSuccess (os : PollOS) (clientfd : sock) : bool :=
  if negb (ox_fdset_check os clientfd) then false
  else match so_error os clientfd with
       | None => false
       | Some error => error =? 0
       end.

(** *** ConnectorWorkInfo::checkConnectStatus *)

(** First loop: [for (auto& v : mConnectingFds)]. *)
Fixpoint collect_fds (os : PollOS) (fds : list sock)
    (total_fds success_fds : StdSet.t) : StdSet.t * StdSet.t :=
  match fds with
  | [] => (total_fds, success_fds)
  | v :: rest =>
      if ox_fdset_check os v then
        let total_fds' := StdSet.insert v total_fds in
        if isConnectSuccess os v
        then collect_fds os rest total_fds' (StdSet.insert v success_fds)
        else collect_fds os rest total_fds' success_fds
      else collect_fds os rest total_fds success_fds
  end.

(** Modelled from the spec: the destructor of [TcpSocket] (Socket.h is not
    part of the sources).  Section 3, "Socket handle.  Owns an OS socket;
    closed exactly once on drop": dropping the handle made by
    [TcpSocket::Create(fd, false)] closes [fd]. *)
Definition drop_TcpSocket (fd : sock) : trace := [EvSocketClose fd].

(** Second loop: [for (auto fd : total_fds)].  The [TcpSocket] made from
    [fd] is moved into the success callback when that is called;
    otherwise it is dropped at the end of the loop body. *)
Fixpoint handle_fds (success_fds : StdSet.t) (total_fds : list sock)
    (w : ConnectorWorkInfo) : ConnectorWorkInfo * trace :=
  match total_fds with
  | [] => (w, [])
  | fd :: rest =>
      let fdset' := ox_fdset_del fd (mFDSet w) in
      let fds' := StdSet.erase fd (mConnectingFds w) in
      match StdMap.find fd (mConnectingInfos w) with
      | None =>
          (* continue *)
          let '(w', t) :=
            handle_fds success_fds rest
              {| mConnectingInfos := mConnectingInfos w;
                 mConnectingFds := fds';
                 mFDSet := fdset' |} in
          (w', EvFdsetDel fd :: t)
      | Some ci =>
          let body :=
            if StdSet.mem fd success_fds then
              match successCB ci with
              | Some cb => [EvCallSuccess cb fd]
              | None => drop_TcpSocket fd
              end
            else call_failed (failedCB ci) ++ drop_TcpSocket fd in
          let '(w', t) :=
            handle_fds success_fds rest
              {| mConnectingInfos := StdMap.erase fd (mConnectingInfos w);
                 mConnectingFds := fds';
                 mFDSet := fdset' |} in
          (w', EvFdsetDel fd :: body ++ t)
      end
  end.

Definition checkConnectStatus (os : PollOS) (w : ConnectorWorkInfo)
    : ConnectorWorkInfo * trace :=
  if poll_ret os <=? 0 then (w, [])
  else
    let '(total_fds, success_fds) :=
      collect_fds os (mConnectingFds w) StdSet.empty StdSet.empty in
    handle_fds success_fds total_fds w.

(** *** ConnectorWorkInfo::checkTimeout

    [now it] is the reading of [steady_clock::now()] taken when the loop
    visits the entry with key [it]. *)
Fixpoint checkTimeout_loop (now : sock -> time_point)
    (its : StdMap.t ConnectingInfo) (fds : StdSet.t) (fdset : fdset_s)
    : StdMap.t ConnectingInfo * StdSet.t * fdset_s * trace :=
  match its with
  | [] => ([], fds, fdset, [])
  | (fd, ci) :: rest =>
      if now fd - startConnectTime ci <? timeout ci then
        (* ++it; continue *)
        let '(m', fds', fdset', t) := checkTimeout_loop now rest fds fdset in
        ((fd, ci) :: m', fds', fdset', t)
      else
        let cb := failedCB ci in
        let '(m', fds', fdset', t) :=
          checkTimeout_loop now rest (StdSet.erase fd fds) (ox_fdset_del fd fdset) in
        (m', fds', fdset',
         [EvFdsetDel fd; EvSocketClose fd] ++ call_failed cb ++ t)
  end.

Definition checkTimeout (now : sock -> time_point) (w : ConnectorWorkInfo)
    : ConnectorWorkInfo * trace :=
  let '(m', fds', fdset', t) :=
    checkTimeout_loop now (mConnectingInfos w) (mConnectingFds w) (mFDSet w) in
  ({| mConnectingInfos := m'; mConnectingFds := fds'; mFDSet := fdset' |}, t).

(** *** ConnectorWorkInfo::causeAllFailed *)
Fixpoint causeAllFailed_loop (its : StdMap.t ConnectingInfo)
    (fds : StdSet.t) (fdset : fdset_s)
    : StdMap.t ConnectingInfo * StdSet.t * fdset_s * trace :=
  match its with
  | [] => ([], fds, fdset, [])
  | (fd, ci) :: rest =>
      let cb := failedCB ci in
      let '(m', fds', fdset', t) :=
        causeAllFailed_loop rest (StdSet.erase fd fds) (ox_fdset_del fd fdset) in
      (m', fds', fdset',
       [EvFdsetDel fd; EvSocketClose fd] ++ call_failed cb ++ t)
  end.

Definition causeAllFailed (w : ConnectorWorkInfo) : ConnectorWorkInfo * trace :=
  let '(m', fds', fdset', t) :=
    causeAllFailed_loop (mConnectingInfos w) (mConnectingFds w) (mFDSet w) in
  ({| mConnectingInfos := m'; mConnectingFds := fds'; mFDSet := fdset' |}, t).

(** ** The worker thread and its event loop *)

(** The two closures that Connector.cpp hands to
    [EventLoop::pushAsyncProc]. *)
Inductive AsyncProc : Type :=
| ProcConnect (address : AsyncConnectAddr)
    (* [workInfo, address]() { workInfo->processConnect(address); } *)
| ProcStop.
    (* [this]() { *mIsRun = false; } *)

(** Modelled from the spec: [EventLoop] (EventLoop.h is not part of the
    sources).  Section 4.3: [post] appends to a queue and "preserves
    enqueue-order"; each iteration of the loop drains "the async-proc
    queue exactly once (snapshot-and-run)".  The connector's loop has no
    sockets of its own, so the queue is all of its state. *)
Definition EventLoop := list AsyncProc.

Definition pushAsyncProc (p : AsyncProc) (l : EventLoop) : EventLoop := l ++ [p].

(** The objects captured by the worker lambda
    [[eventLoop, workerInfo, isRun]]. *)
Record Worker : Type := mkWorker {
  eventLoop : EventLoop;
  workerInfo : ConnectorWorkInfo;
  isRun : bool
}.

(** What the operating system answers during one iteration of the worker:
    [it_connect i] to the i-th [processConnect] run by the event loop,
    [it_poll] to [checkConnectStatus], [it_now] to [checkTimeout]. *)
Record IterOS : Type := mkIterOS {
  it_connect : nat -> ConnectOS;
  it_poll : PollOS;
  it_now : sock -> time_point
}.

(** [eventLoop->loop(10)]: runs the queued closures in order. *)
Fixpoint runAsyncProcs (os : nat -> ConnectOS) (i : nat) (procs : list AsyncProc)
    (run : bool) (w : ConnectorWorkInfo) : bool * ConnectorWorkInfo * trace :=
  match procs with
  | [] => (run, w, [])
  | ProcStop :: rest => runAsyncProcs os i rest false w
  | ProcConnect a :: rest =>
      let '(w1, t1) := processConnect (os i) a w in
      let '(run', w2, t2) := runAsyncProcs os (S i) rest run w1 in
      (run', w2, t1 ++ t2)
  end.

(** [runOnceCheckConnect(eventLoop, workerInfo)] *)
Definition runOnceCheckConnect (os : IterOS) (wk : Worker) : Worker * trace :=
  let '(run, w1, t1) :=
    runAsyncProcs (it_connect os) 0 (eventLoop wk) (isRun wk) (workerInfo wk) in
  let '(w2, t2) := checkConnectStatus (it_poll os) w1 in
  let '(w3, t3) := checkTimeout (it_now os) w2 in
  ({| eventLoop := []; workerInfo := w3; isRun := run |}, t1 ++ t2 ++ t3).

(** The loop of the worker lambda,
    [while ( *isRun ) { runOnceCheckConnect(eventLoop, workerInfo); }].

    Each element of [iters] describes one iteration: the closures other
    threads have pushed since the previous one, and the answers of the
    operating system.  [None]: the loop is still running when the
    described iterations are used up. *)
Fixpoint workerLoop (iters : list (list AsyncProc * IterOS)) (wk : Worker)
    : option (Worker * trace) :=
  if isRun wk then
    match iters with
    | [] => None
    | (pushed, os) :: rest =>
        let '(wk1, t1) :=
          runOnceCheckConnect os
            {| eventLoop := eventLoop wk ++ pushed;
               workerInfo := workerInfo wk;
               isRun := isRun wk |} in
        match workerLoop rest wk1 with
        | Some (wk2, t2) => Some (wk2, t1 ++ t2)
        | None => None
        end
    end
  else Some (wk, []).

(** The body of the worker thread: the loop, then
    [workerInfo->causeAllFailed()]. *)
Definition workerThread (iters : list (list AsyncProc * IterOS)) (wk : Worker)
    : option (Worker * trace) :=
  match workerLoop iters wk with
  | None => None
  | Some (wk1, t1) =>
      let '(w2, t2) := causeAllFailed (workerInfo wk1) in
      Some ({| eventLoop := eventLoop wk1; workerInfo := w2; isRun := isRun wk1 |},
            t1 ++ t2)
  end.

(** ** AsyncConnector *)

(** How a member function ends. *)
Inductive outcome (A : Type) : Type :=
| Returned (a : A)          (* normal return *)
| Thrown (what : string)    (* throw std::runtime_error(what) *)
| NullDeref                 (* dereference of a null shared_ptr: undefined behaviour *)
| NoReturn.                 (* blocked in [join] *)
Arguments Returned {A} a.
Arguments Thrown {A} what.
Arguments NullDeref {A}.
Arguments NoReturn {A}.

Inductive std_thread : Type := Joinable.

(** The four [shared_ptr] members.  The worker lambda captures copies of
    [mEventLoop], [mWorkInfo] and [mIsRun] when the thread is made, and
    every later write to these members happens after the thread was
    joined; so while [mThread] is set, the objects the worker uses are
    the ones the members point to, and one copy of each stands for
    both. *)
Record AsyncConnector : Type := mkAsyncConnector {
  mIsRun : option bool;
  mWorkInfo : option ConnectorWorkInfo;
  mEventLoop : option EventLoop;
  mThread : option std_thread
}.

(** [AsyncConnector::AsyncConnector()] *)
Definition newAsyncConnector : AsyncConnector :=
  {| mIsRun := Some false; mWorkInfo := None; mEventLoop := None; mThread := None |}.

(** [AsyncConnector::startWorkerThread] *)
Definition startWorkerThread (c : AsyncConnector) : outcome AsyncConnector :=
  match mThread c with
  | Some _ => Returned c
  | None =>
      Returned {| mIsRun := Some true;
                  mWorkInfo := Some newConnectorWorkInfo;
                  mEventLoop := Some [];
                  mThread := Some Joinable |}
  end.

Definition is_nullptr {A : Type} (f : option A) : bool :=
  match f with
  | None => true
  | Some _ => false
  end.

(** [AsyncConnector::asyncConnect] *)
Definition asyncConnect (ip : string) (port : Z) (timeout : nanoseconds)
    (successCB : COMPLETED_CALLBACK) (failedCB : FAILED_CALLBACK)
    (c : AsyncConnector) : outcome AsyncConnector :=
  if is_nullptr successCB || is_nullptr failedCB then
    Thrown "all callback is nullptr"
  else
    match mIsRun c with
    | None => NullDeref
    | Some false => Thrown "work thread already stop"
    | Some true =>
        let address := mkAsyncConnectAddr ip port timeout successCB failedCB in
        match mEventLoop c with
        | None => NullDeref
        | Some loop =>
            Returned {| mIsRun := mIsRun c;
                        mWorkInfo := mWorkInfo c;
                        mEventLoop := Some (pushAsyncProc (ProcConnect address) loop);
                        mThread := mThread c |}
        end
    end.

(** [AsyncConnector::stopWorkerThread], called from a thread other than
    the worker.  [mThread->join()] waits until the worker thread has run
    to its end; [iters] are the answers of the operating system to the
    iterations the worker still makes, and [NoReturn] says that they do
    not bring the worker to its end.  The caller holds [mThreadGuard]
    throughout, so nothing else is pushed while it waits.  A state with
    [mThread] set and one of the other members null does not arise (see
    [AsyncConnector]); the stop closure would dereference the null
    [mIsRun] there. *)
Definition stopWorkerThread (iters : list IterOS) (c : AsyncConnector)
    : outcome (AsyncConnector * trace) :=
  match mThread c with
  | None => Returned (c, [])
  | Some Joinable =>
      match mEventLoop c, mIsRun c, mWorkInfo c with
      | Some loop, Some run, Some w =>
          match workerThread (map (fun os => ([], os)) iters)
                  {| eventLoop := pushAsyncProc ProcStop loop;
                     workerInfo := w;
                     isRun := run |} with
          | None => NoReturn
          | Some (_, t) =>
              Returned ({| mIsRun := None; mWorkInfo := None;
                           mEventLoop := None; mThread := None |}, t)
          end
      | _, _, _ => NullDeref
      end
  end.

(** A worker iteration seen from the connector: what the running thread
    does between two calls of the member functions. *)
Definition workerIteration (os : IterOS) (c : AsyncConnector)
    : AsyncConnector * trace :=
  match mThread c, mEventLoop c, mIsRun c, mWorkInfo c with
  | Some _, Some loop, Some true, Some w =>
      let '(wk, t) :=
        runOnceCheckConnect os
          {| eventLoop := loop; workerInfo := w; isRun := true |} in
      ({| mIsRun := Some (isRun wk);
          mWorkInfo := Some (workerInfo wk);
          mEventLoop := Some (eventLoop wk);
          mThread := mThread c |}, t)
  | _, _, _, _ => (c, [])
  end.

(** ** examples/WebBinaryProxy.cpp: the callbacks of one proxied session *)
Module WebBinaryProxy.

(** A [TcpConnection::Ptr], by the identity of the connection. *)
Definition TcpConnection := nat.

Inductive ProxyEvent : Type :=
| EvSend (to : TcpConnection) (data : string)     (* to->send(data, size) *)
| EvPostDisConnect (c : TcpConnection)            (* c->postDisConnect() *)
| EvSetDataCallback (c : TcpConnection)
| EvSetDisConnectCallback (c : TcpConnection)
| EvAsyncConnect.                                 (* asyncConnector->asyncConnect(...) *)

(** Modelled from the spec: the user-data slot behind [setUD], [getUD] and
    [cast<int64_t>] (TcpConnection.h is not part of the sources).
    Section 4.8: "a per-connection opaque handle: 64-bit integer"; the
    example only ever stores the integers 1 and -1 in it. *)
Definition BrynetAny := Z.

(** What the closures of one front-end session share: the session's
    user-data slot, the nullable back-end reference
    [*shareBackendSession] and the vector [*cachePacket]. *)
Record Session : Type := mkSession {
  session : TcpConnection;
  ud : BrynetAny;
  shareBackendSession : option TcpConnection;
  cachePacket : list string
}.

(** The outer [enterCallback], run when the front-end connection is
    added. *)
Definition frontendEnter (conn : TcpConnection) : Session * list ProxyEvent :=
  ({| session := conn; ud := 1; shareBackendSession := None; cachePacket := [] |},
   [EvAsyncConnect; EvSetDataCallback conn; EvSetDisConnectCallback conn]).

(** The data callback of the front-end session; the returned count,
    [size], is the whole buffer and is left out. *)
Definition frontendData (buffer : string) (s : Session) : Session * list ProxyEvent :=
  match shareBackendSession s with
  | None =>
      ({| session := session s; ud := ud s;
          shareBackendSession := shareBackendSession s;
          cachePacket := cachePacket s ++ [buffer] |}, [])
  | Some backendSession => (s, [EvSend backendSession buffer])
  end.

(** The disconnect callback of the front-end session. *)
Definition frontendDisConnect (s : Session) : Session * list ProxyEvent :=
  ({| session := session s; ud := -1;
      shareBackendSession := shareBackendSession s;
      cachePacket := cachePacket s |},
   match shareBackendSession s with
   | Some backendSession => [EvPostDisConnect backendSession]
   | None => []
   end).

(** The innermost [enterCallback], run when the back-end connection is
    added: the completion of the back-end connect. *)
Definition backendEnter (backendSession : TcpConnection) (s : Session)
    : Session * list ProxyEvent :=
  if ud s =? -1 then (s, [EvPostDisConnect backendSession])
  else
    ({| session := session s; ud := ud s;
        shareBackendSession := Some backendSession;
        cachePacket := [] |},
     map (EvSend backendSession) (cachePacket s)
       ++ [EvSetDisConnectCallback backendSession; EvSetDataCallback backendSession]).

(** The disconnect callback of the back-end session. *)
Definition backendDisConnect (s : Session) : Session * list ProxyEvent :=
  ({| session := session s; ud := ud s;
      shareBackendSession := None;
      cachePacket := cachePacket s |},
   if negb (ud s =? -1) then [EvPostDisConnect (session s)] else []).

(** The data callback of the back-end session. *)
Definition backendData (buffer : string) (s : Session) : Session * list ProxyEvent :=
  (s, [EvSend (session s) buffer]).

(** The front-end data callback run on each of [packets] in turn. *)
Fixpoint frontendDataAll (packets : list string) (s : Session)
    : Session * list ProxyEvent :=
  match packets with
  | [] => (s, [])
  | p :: rest =>
      let '(s1, t1) := frontendData p s in
      let '(s2, t2) := frontendDataAll rest s1 in
      (s2, t1 ++ t2)
  end.

(** The packets sent to connection [c], in order. *)
Fixpoint sentTo (c : TcpConnection) (t : list ProxyEvent) : list string :=
  match t with
  | [] => []
  | EvSend to data :: rest =>
      if Nat.eqb to c then data :: sentTo c rest else sentTo c rest
  | _ :: rest => sentTo c rest
  end.

End WebBinaryProxy.

(** ** src/brynet/net/SSLHelper.cpp (the USE_OPENSSL part) *)
Module SSL.

(** An [SSL_CTX*] that is not null, by the identity of the context. *)
Definition SSL_CTX := nat.

(** What OpenSSL answers to the calls of one [initSSL]. *)
Record OpenSSL : Type := mkOpenSSL {
  SSL_CTX_new : option SSL_CTX;                 (* None: NULL *)
  SSL_CTX_use_certificate_chain_file : Z;
  SSL_CTX_use_PrivateKey_file : Z;
  SSL_CTX_check_private_key : Z
}.

Inductive SSLEvent : Type :=
| EvInitCryptoThreadSafeSupport
| EvSetClientCAList (ctx : SSL_CTX) (file : string)
| EvSetVerifyDepth (ctx : SSL_CTX) (depth : Z)
| EvUseCertificateChainFile (ctx : SSL_CTX) (file : string)
| EvUsePrivateKeyFile (ctx : SSL_CTX) (file : string)
| EvCheckPrivateKey (ctx : SSL_CTX)
| EvFree (ctx : SSL_CTX).

Record SSLHelper : Type := mkSSLHelper {
  mOpenSSLCTX : option SSL_CTX
}.

(** [SSLHelper::SSLHelper()] *)
Definition newSSLHelper : SSLHelper := {| mOpenSSLCTX := None |}.

Definition getOpenSSLCTX (h : SSLHelper) : option SSL_CTX := mOpenSSLCTX h.

Definition empty (s : string) : bool :=
  match s with
  | EmptyString => true
  | String _ _ => false
  end.

(** [std::call_once(initCryptoThreadSafeSupportOnceFlag, ...)]: the
    flag is process-wide state. *)
Definition call_once (flag : bool) : bool * list SSLEvent :=
  if flag then (true, []) else (true, [EvInitCryptoThreadSafeSupport]).

Record InitResult : Type := mkInitResult {
  ret : bool;
  helper : SSLHelper;
  onceFlag : bool;
  effects : list SSLEvent
}.

(** [SSLHelper::initSSL].  When [SSL_CTX_new] returns NULL the code
    passes the null context on to [SSL_CTX_set_client_CA_list], which
    dereferences it. *)
Definition initSSL (os : OpenSSL) (certificate privatekey : string)
    (flag : bool) (h : SSLHelper) : outcome InitResult :=
  let '(flag', t0) := call_once flag in
  match mOpenSSLCTX h with
  | Some _ => Returned (mkInitResult false h flag' t0)
  | None =>
      if empty certificate || empty privatekey then
        Returned (mkInitResult false h flag' t0)
      else
        match SSL_CTX_new os with
        | None => NullDeref
        | Some ctx =>
            let t1 := t0 ++ [EvSetClientCAList ctx certificate;
                             EvSetVerifyDepth ctx 10;
                             EvUseCertificateChainFile ctx certificate] in
            if SSL_CTX_use_certificate_chain_file os <=? 0 then
              Returned (mkInitResult false (mkSSLHelper None) flag' (t1 ++ [EvFree ctx]))
            else
              let t2 := t1 ++ [EvUsePrivateKeyFile ctx privatekey] in
              if SSL_CTX_use_PrivateKey_file os <=? 0 then
                Returned (mkInitResult false (mkSSLHelper None) flag' (t2 ++ [EvFree ctx]))
              else
                let t3 := t2 ++ [EvCheckPrivateKey ctx] in
                if SSL_CTX_check_private_key os =? 0 then
                  Returned (mkInitResult false (mkSSLHelper None) flag' (t3 ++ [EvFree ctx]))
                else
                  Returned (mkInitResult true (mkSSLHelper (Some ctx)) flag' t3)
        end
  end.

(** [SSLHelper::destroySSL] *)
Definition destroySSL (h : SSLHelper) : SSLHelper * list SSLEvent :=
  match mOpenSSLCTX h with
  | Some ctx => (mkSSLHelper None, [EvFree ctx])
  | None => (h, [])
  end.

End SSL.

(** ** Notions used in the statements *)

(** Strictly ascending keys: the representation invariant of [std::set]
    and [std::map]. *)
Definition ascending (l : list sock) : Prop := StronglySorted Z.lt l.

(** The three tables of a [ConnectorWorkInfo] hold the same descriptors. *)
Definition wf (w : ConnectorWorkInfo) : Prop :=
  ascending (StdMap.keys (mConnectingInfos w))
  /\ mConnectingFds w = StdMap.keys (mConnectingInfos w)
  /\ write_interest (mFDSet w) = StdMap.keys (mConnectingInfos w).

(** [deadline]: the instant at which an attempt expires. *)
Definition deadline (ci : ConnectingInfo) : time_point :=
  startConnectTime ci + timeout ci.

(** The test of [checkTimeout], negated: the entry is dropped. *)
Definition expired (now : sock -> time_point) (e : sock * ConnectingInfo) : bool :=
  negb (now (fst e) - startConnectTime (snd e) <? timeout (snd e)).

(** What [checkTimeout] and [causeAllFailed] do with an entry they drop. *)
Definition timeout_block (e : sock * ConnectingInfo) : trace :=
  [EvFdsetDel (fst e); EvSocketClose (fst e)] ++ call_failed (failedCB (snd e)).

(** What [checkConnectStatus] does with an entry whose descriptor is
    reported ready for writing. *)
Definition ready_block (os : PollOS) (e : sock * ConnectingInfo) : trace :=
  EvFdsetDel (fst e) ::
    (if isConnectSuccess os (fst e) then
       match successCB (snd e) with
       | Some cb => [EvCallSuccess cb (fst e)]
       | None => drop_TcpSocket (fst e)
       end
     else call_failed (failedCB (snd e)) ++ drop_TcpSocket (fst e)).

(** An event is the invocation of a user callback. *)
Definition is_callback (e : Event) : bool :=
  match e with
  | EvCallSuccess _ _ | EvCallFailed _ => true
  | _ => false
  end.

Definition cb_eqb (a b : option nat) : bool :=
  match a, b with
  | Some x, Some y => Nat.eqb x y
  | None, None => true
  | _, _ => false
  end.

(** The event invokes one of the two callbacks of request [r]. *)
Definition calls (r : AsyncConnectAddr) (e : Event) : bool :=
  match e with
  | EvCallSuccess cb _ => cb_eqb (Some cb) (getSuccessCB r)
  | EvCallFailed cb => cb_eqb (Some cb) (getFailedCB r)
  | _ => false
  end.

(** How often the callbacks of request [r] are invoked in [t]. *)
Definition fired (r : AsyncConnectAddr) (t : trace) : nat :=
  List.length (filter (calls r) t).

(** The pending entry holds one of the callbacks of request [r]. *)
Definition holds (r : AsyncConnectAddr) (e : sock * ConnectingInfo) : bool :=
  cb_eqb (successCB (snd e)) (getSuccessCB r)
  || cb_eqb (failedCB (snd e)) (getFailedCB r).

Definition pending (r : AsyncConnectAddr) (w : ConnectorWorkInfo) : nat :=
  List.length (filter (holds r) (mConnectingInfos w)).

(** Request [d] shares a callback with request [r]. *)
Definition overlap (r d : AsyncConnectAddr) : bool :=
  cb_eqb (getSuccessCB d) (getSuccessCB r)
  || cb_eqb (getFailedCB d) (getFailedCB r).

(** Both callbacks were given. *)
Definition valid (r : AsyncConnectAddr) : Prop :=
  getSuccessCB r <> None /\ getFailedCB r <> None.

(** The descriptors the worker holds open after [t], starting from [S]:
    those it created and has neither closed nor handed to a success
    callback. *)
Definition held_step (S : list sock) (e : Event) : list sock :=
  match e with
  | EvSocketCreate fd => if fd =? SOCKET_ERROR then S else fd :: S
  | EvSocketClose fd => remove Z.eq_dec fd S
  | EvCallSuccess _ fd => remove Z.eq_dec fd S
  | _ => S
  end.

Fixpoint held (S : list sock) (t : trace) : list sock :=
  match t with
  | [] => S
  | e :: t' => held (held_step S e) t'
  end.

(** The operating system never hands out a descriptor that is still
    open: every [SocketCreate] in [t] fails or returns a descriptor the
    worker does not hold at that moment. *)
Fixpoint fresh_descriptors (S : list sock) (t : trace) : bool :=
  match t with
  | [] => true
  | e :: t' =>
      match e with
      | EvSocketCreate fd => (fd =? SOCKET_ERROR) || negb (existsb (Z.eqb fd) S)
      | _ => true
      end && fresh_descriptors (held_step S e) t'
  end.

(** The requests among a list of queued closures. *)
Fixpoint requests (procs : list AsyncProc) : list AsyncConnectAddr :=
  match procs with
  | [] => []
  | ProcConnect a :: rest => a :: requests rest
  | ProcStop :: rest => requests rest
  end.

Fixpoint has_stop (procs : list AsyncProc) : bool :=
  match procs with
  | [] => false
  | ProcStop :: _ => true
  | ProcConnect _ :: rest => has_stop rest
  end.

(** The requests that [workerLoop] passes to [processConnect] when it
    starts with queue [q] and flag [run]. *)
Fixpoint processed (q : list AsyncProc) (run : bool)
    (iters : list (list AsyncProc * IterOS)) : list AsyncConnectAddr :=
  if run then
    match iters with
    | [] => []
    | (pushed, _) :: rest =>
        requests (q ++ pushed)
          ++ processed [] (negb (has_stop (q ++ pushed))) rest
    end
  else [].

(** A freshly started worker. *)
Definition newWorker : Worker :=
  {| eventLoop := []; workerInfo := newConnectorWorkInfo; isRun := true |}.

(** The worker state whose three tables hold exactly the entries [m]. *)
Definition with_entries (m : StdMap.t ConnectingInfo) : ConnectorWorkInfo :=
  {| mConnectingInfos := m;
     mConnectingFds := StdMap.keys m;
     mFDSet := {| write_interest := StdMap.keys m |} |}.

(** The entry has time left at the scan. *)
Definition live (now : sock -> time_point) (e : sock * ConnectingInfo) : bool :=
  negb (expired now e).

(** The entry's descriptor is reported ready for writing. *)
Definition ready (os : PollOS) (e : sock * ConnectingInfo) : bool :=
  ox_fdset_check os (fst e).

(** The event is a call of [base::SocketCreate]: the first step of a
    [processConnect]. *)
Definition is_create (e : Event) : bool :=
  match e with
  | EvSocketCreate _ => true
  | _ => false
  end.

(** [psi] counts events and [phi] counts pending entries in step: calling
    either callback of the entry is counted by [psi] exactly when the
    entry is counted by [phi], and an entry that lacks a callback is not
    counted. *)
Definition balanced (psi : Event -> bool) (phi : sock * ConnectingInfo -> bool)
    (e : sock * ConnectingInfo) : Prop :=
  match successCB (snd e) with
  | Some cb => psi (EvCallSuccess cb (fst e)) = phi e
  | None => phi e = false
  end
  /\ match failedCB (snd e) with
     | Some cb => psi (EvCallFailed cb) = phi e
     | None => phi e = false
     end.

(** Every request of [D] that shares a callback with [r] has the same two
    callbacks as [r]. *)
Definition compat (r : AsyncConnectAddr) (D : list AsyncConnectAddr) : Prop :=
  forall d, In d D -> overlap r d = true ->
    getSuccessCB d = getSuccessCB r /\ getFailedCB d = getFailedCB r.

(** The event hands descriptor [k] back: the worker closes it or gives
    the socket to a success callback. *)
Definition releases (k : sock) (e : Event) : bool :=
  match e with
  | EvSocketClose fd => fd =? k
  | EvCallSuccess _ fd => fd =? k
  | _ => false
  end.

(** The invariant of the worker: after the requests [D] have been
    processed with trace [t], the pending descriptors are held open, every
    pending entry stems from a request of [D], and for every request the
    calls made so far plus the entries still pending add up to the number
    of its occurrences in [D]. *)
Definition Inv (D : list AsyncConnectAddr) (t : trace) (w : ConnectorWorkInfo) : Prop :=
  wf w
  /\ (forall fd, In fd (StdMap.keys (mConnectingInfos w)) -> In fd (held [] t))
  /\ (forall e, In e (mConnectingInfos w) ->
        exists d, In d D
                  /\ successCB (snd e) = getSuccessCB d
                  /\ failedCB (snd e) = getFailedCB d)
  /\ (forall r, valid r -> compat r D ->
        (fired r t + pending r w)%nat = List.length (filter (overlap r) D)).

(** ** Sample inputs *)

(** A request for 127.0.0.1:8080 with a one-second timeout. *)
Definition sample_request : AsyncConnectAddr :=
  mkAsyncConnectAddr "127.0.0.1" 8080 1000000000 (Some 1%nat) (Some 2%nat).

(** A request whose address is a host name. *)
Definition hostname_request : AsyncConnectAddr :=
  mkAsyncConnectAddr "example.com" 80 1000000000 (Some 1%nat) (Some 2%nat).

(** A request with a timeout of 0 ns. *)
Definition zero_timeout_request : AsyncConnectAddr :=
  mkAsyncConnectAddr "127.0.0.1" 8080 0 (Some 1%nat) (Some 2%nat).

(** The socket is descriptor 5, connect answers EINPROGRESS at time 100;
    the stack held 10.0.0.1 where [server_addr.sin_addr] lives. *)
Definition os_in_progress : ConnectOS :=
  {| os_socket := 5; os_stack := 167772161; os_connect := -1;
     os_errno := EINPROGRESS; os_now := 100 |}.

(** As [os_in_progress], but connect returns 0 at once. *)
Definition os_connected : ConnectOS :=
  {| os_socket := 5; os_stack := 167772161; os_connect := 0;
     os_errno := 0; os_now := 100 |}.

(** Nothing is ready. *)
Definition poll_nothing : PollOS :=
  {| poll_ret := 0; write_ready := fun _ => false; so_error := fun _ => Some 0 |}.

(** Descriptor 5 is ready for writing and its SO_ERROR reads 0. *)
Definition poll_5_connected : PollOS :=
  {| poll_ret := 1; write_ready := fun fd => fd =? 5; so_error := fun _ => Some 0 |}.

(** An iteration in which every connect goes in progress on descriptor 5
    and the next poll, at time 200, finds nothing ready. *)
Definition iter_quiet : IterOS :=
  {| it_connect := fun _ => os_in_progress;
     it_poll := poll_nothing;
     it_now := fun _ => 200 |}.

(** An iteration in which every connect goes in progress on descriptor 5
    and the poll that follows reports descriptor 5 connected. *)
Definition iter_5_connected : IterOS :=
  {| it_connect := fun _ => os_in_progress;
     it_poll := poll_5_connected;
     it_now := fun _ => 200 |}.

(** A connector after [startWorkerThread]. *)
Definition started_connector : AsyncConnector :=
  {| mIsRun := Some true;
     mWorkInfo := Some newConnectorWorkInfo;
     mEventLoop := Some [];
     mThread := Some Joinable |}.

(** A connector after [startWorkerThread] and [stopWorkerThread]. *)
Definition stopped_connector : AsyncConnector :=
  {| mIsRun := None; mWorkInfo := None; mEventLoop := None; mThread := None |}.

(** The worker state after [zero_timeout_request] went in progress on
    descriptor 5 at time 100. *)
Definition pending_zero_timeout : ConnectorWorkInfo :=
  fst (processConnect os_in_progress zero_timeout_request newConnectorWorkInfo).

(** The worker state after [sample_request] went in progress on
    descriptor 5 at time 100. *)
Definition pending_sample : ConnectorWorkInfo :=
  fst (processConnect os_in_progress sample_request newConnectorWorkInfo).

(** A second request, with callbacks of its own. *)
Definition other_request : AsyncConnectAddr :=
  mkAsyncConnectAddr "10.0.0.2" 9 5 (Some 3%nat) (Some 4%nat).

(** The socket is descriptor 6 and connect is refused (errno 111). *)
Definition os_refused : ConnectOS :=
  {| os_socket := 6; os_stack := 0; os_connect := -1; os_errno := 111;
     os_now := 100 |}.

(** An iteration in which the first connect goes in progress on
    descriptor 5, the second is refused, and nothing is ready. *)
Definition iter_two : IterOS :=
  {| it_connect := fun i => match i with O => os_in_progress | _ => os_refused end;
     it_poll := poll_nothing;
     it_now := fun _ => 200 |}.

(** A run of the worker: two requests arrive before the first iteration,
    the stop closure before the second. *)
Definition sample_run : list (list AsyncProc * IterOS) :=
  [([ProcConnect sample_request; ProcConnect other_request], iter_two);
   ([ProcStop], iter_quiet)].

(** A started connector on which [sample_request] has been queued by
    [asyncConnect]. *)
Definition connector_with_request : AsyncConnector :=
  {| mIsRun := Some true;
     mWorkInfo := Some newConnectorWorkInfo;
     mEventLoop := Some [ProcConnect sample_request];
     mThread := Some Joinable |}.

(** The same connector after one quiet iteration of its worker: the
    request is pending on descriptor 5. *)
Definition connector_with_pending : AsyncConnector :=
  fst (workerIteration iter_quiet connector_with_request).

(** ** The rest of Connector.cpp *)

(** [AsyncConnector::Create]: [make_shared] of a default-constructed
    connector. *)
Definition Create : AsyncConnector := newAsyncConnector.

(** [AsyncConnector::~AsyncConnector]: [stopWorkerThread()]. *)
Definition destroyAsyncConnector (iters : list IterOS) (c : AsyncConnector)
    : outcome (AsyncConnector * trace) :=
  stopWorkerThread iters c.

(** [asyncConnect] called for each request of a list in turn; the first
    call that does not return ends the sequence. *)
Fixpoint asyncConnectAll (reqs : list AsyncConnectAddr) (c : AsyncConnector)
    : outcome AsyncConnector :=
  match reqs with
  | [] => Returned c
  | r :: rest =>
      match asyncConnect (getIP r) (getPort r) (getTimeout r)
              (getSuccessCB r) (getFailedCB r) c with
      | Returned c' => asyncConnectAll rest c'
      | Thrown what => Thrown what
      | NullDeref => NullDeref
      | NoReturn => NoReturn
      end
  end.

(** The loop of the worker lambda observed from outside: the state and
    the trace once the described iterations have been made, whether the
    loop has exited by then or is still running.  It is [workerLoop]
    without the verdict. *)
Fixpoint workerProgress (iters : list (list AsyncProc * IterOS)) (wk : Worker)
    : Worker * trace :=
  if isRun wk then
    match iters with
    | [] => (wk, [])
    | (pushed, os) :: rest =>
        let '(wk1, t1) :=
          runOnceCheckConnect os
            {| eventLoop := eventLoop wk ++ pushed;
               workerInfo := workerInfo wk;
               isRun := isRun wk |} in
        let '(wk2, t2) := workerProgress rest wk1 in
        (wk2, t1 ++ t2)
    end
  else (wk, []).

(** The descriptors closed in a trace, in order. *)
Fixpoint closed_fds (t : trace) : list sock :=
  match t with
  | [] => []
  | EvSocketClose fd :: rest => fd :: closed_fds rest
  | _ :: rest => closed_fds rest
  end.

(** The event concerns descriptor [k]. *)
Definition about (k : sock) (e : Event) : bool :=
  match e with
  | EvSocketCreate fd | EvSocketNonblock fd | EvConnect fd _ _
  | EvSocketClose fd | EvFdsetAdd fd | EvFdsetDel fd | EvCallSuccess _ fd => fd =? k
  | EvCallFailed _ => false
  end.

(** The closures queued in the iterations of a run. *)
Definition queued (q : list AsyncProc) (iters : list (list AsyncProc * IterOS))
    : list AsyncProc :=
  q ++ List.concat (map fst iters).

(** ** The rest of SSLHelper.cpp *)
Module SSLLife.

(** [SSLHelper::~SSLHelper]: [destroySSL()]. *)
Definition destroyHelper (h : SSL.SSLHelper) : SSL.SSLHelper * list SSL.SSLEvent :=
  SSL.destroySSL h.

(** [SSLHelper::Create]: [make_shared] of a default-constructed helper. *)
Definition Create : SSL.SSLHelper := SSL.newSSLHelper.

(** A call on a helper: [initSSL] with what OpenSSL answers to it, or
    [destroySSL]. *)
Inductive Op : Type :=
| OpInit (os : SSL.OpenSSL) (certificate privatekey : string)
| OpDestroy.

Definition is_init (op : Op) : bool :=
  match op with
  | OpInit _ _ _ => true
  | OpDestroy => false
  end.

(** The calls of [ops] made one after the other on the helper [h], with
    the process-wide once flag [flag]; the result is the flag, the helper
    and the effects of all the calls.  A call that does not return ends
    the sequence. *)
Fixpoint run (ops : list Op) (flag : bool) (h : SSL.SSLHelper)
    : outcome (bool * SSL.SSLHelper * list SSL.SSLEvent) :=
  match ops with
  | [] => Returned (flag, h, [])
  | OpInit os certificate privatekey :: rest =>
      match SSL.initSSL os certificate privatekey flag h with
      | Returned r =>
          match run rest (SSL.onceFlag r) (SSL.helper r) with
          | Returned (flag', h', t) => Returned (flag', h', SSL.effects r ++ t)
          | Thrown what => Thrown what
          | NullDeref => NullDeref
          | NoReturn => NoReturn
          end
      | Thrown what => Thrown what
      | NullDeref => NullDeref
      | NoReturn => NoReturn
      end
  | OpDestroy :: rest =>
      let '(h1, t1) := SSL.destroySSL h in
      match run rest flag h1 with
      | Returned (flag', h', t) => Returned (flag', h', t1 ++ t)
      | Thrown what => Thrown what
      | NullDeref => NullDeref
      | NoReturn => NoReturn
      end
  end.

(** The contexts made in a trace, in order: each context that
    [SSL_CTX_new] returns is at once passed to
    [SSL_CTX_set_client_CA_list], and nothing else is. *)
Fixpoint made (t : list SSL.SSLEvent) : list SSL.SSL_CTX :=
  match t with
  | [] => []
  | SSL.EvSetClientCAList ctx _ :: rest => ctx :: made rest
  | _ :: rest => made rest
  end.

(** The contexts freed in a trace, in order. *)
Fixpoint freed (t : list SSL.SSLEvent) : list SSL.SSL_CTX :=
  match t with
  | [] => []
  | SSL.EvFree ctx :: rest => ctx :: freed rest
  | _ :: rest => freed rest
  end.

(** The context a helper holds, as a list of at most one. *)
Definition holding (h : SSL.SSLHelper) : list SSL.SSL_CTX :=
  match SSL.mOpenSSLCTX h with
  | Some ctx => [ctx]
  | None => []
  end.

(** How often the thread-safety support of OpenSSL is set up in a trace. *)
Fixpoint setups (t : list SSL.SSLEvent) : nat :=
  match t with
  | [] => O
  | SSL.EvInitCryptoThreadSafeSupport :: rest => S (setups rest)
  | _ :: rest => setups rest
  end.

(** OpenSSL answers that let [initSSL] succeed with context 7. *)
Definition openssl_ok : SSL.OpenSSL :=
  {| SSL.SSL_CTX_new := Some 7%nat;
     SSL.SSL_CTX_use_certificate_chain_file := 1;
     SSL.SSL_CTX_use_PrivateKey_file := 1;
     SSL.SSL_CTX_check_private_key := 1 |}.

(** OpenSSL answers with context 8 and a private key that does not
    match. *)
Definition openssl_bad_key : SSL.OpenSSL :=
  {| SSL.SSL_CTX_new := Some 8%nat;
     SSL.SSL_CTX_use_certificate_chain_file := 1;
     SSL.SSL_CTX_use_PrivateKey_file := 1;
     SSL.SSL_CTX_check_private_key := 0 |}.

End SSLLife.

(** ** The locking callbacks of SSLHelper.cpp *)
Module CryptoLocks.

(** [CRYPTO_LOCK] and [CRYPTO_UNLOCK] of OpenSSL's crypto.h. *)
Definition CRYPTO_LOCK : Z := 1.
Definition CRYPTO_UNLOCK : Z := 2.

(** A [std::mutex]: locked or not. *)
Definition mutex := bool.

(** [static std::unordered_map<int, std::shared_ptr<std::mutex>>
    cryptoLocks]: a table from the lock number to a pointer, [None] for
    a null pointer.  The table is only ever indexed, never traversed, so
    the order of its entries does not show. *)
Definition table := StdMap.t (option mutex).

(** How a call of the locking callback ends. *)
Inductive result : Type :=
| Done (locks : table)      (* it returns *)
| NullPointer               (* [->lock()] or [->unlock()] on a null pointer *)
| Blocked                   (* [lock()] on a mutex that is locked *)
| NotLocked.                (* [unlock()] on a mutex that is not locked: undefined *)

(** [cryptoLocks[type]]: a missing entry is created with a null
    pointer. *)
Definition index (type : Z) (locks : table) : option mutex :=
  match StdMap.find type locks with
  | Some p => p
  | None => None
  end.

(** [cryptoLockingCallback(mode, type, file, line)] *)
Definition cryptoLockingCallback (mode type : Z) (locks : table) : result :=
  if negb (Z.land mode CRYPTO_LOCK =? 0) then
    match index type locks with
    | None => NullPointer
    | Some true => Blocked
    | Some false => Done (StdMap.insert type (Some true) locks)
    end
  else if negb (Z.land mode CRYPTO_UNLOCK =? 0) then
    match index type locks with
    | None => NullPointer
    | Some true => Done (StdMap.insert type (Some false) locks)
    | Some false => NotLocked
    end
  else Done locks.

(** The loop of [InitCryptoThreadSafeSupport],
    [for (int i = 0; i < CRYPTO_num_locks(); i++)
       cryptoLocks[i] = std::make_shared<std::mutex>();],
    with [count] iterations left. *)
Fixpoint init_loop (count : nat) (i : Z) (locks : table) : table :=
  match count with
  | O => locks
  | S count' => init_loop count' (i + 1) (StdMap.insert i (Some false) locks)
  end.

(** [InitCryptoThreadSafeSupport], for [CRYPTO_num_locks() = num_locks]. *)
Definition InitCryptoThreadSafeSupport (num_locks : Z) (locks : table) : table :=
  init_loop (Z.to_nat num_locks) 0 locks.

End CryptoLocks.

(** ** The closures of one proxied session, run in turn *)
Module ProxyRun.

(** One call made by the TCP service into the closures that
    examples/WebBinaryProxy.cpp registers for a front-end session. *)
Inductive Callback : Type :=
| FrontData (buffer : string)                         (* front-end data callback *)
| FrontDisConnect                                     (* front-end disconnect callback *)
| BackEnter (backendSession : WebBinaryProxy.TcpConnection)  (* connect completion *)
| BackData (buffer : string)                          (* back-end data callback *)
| BackDisConnect.                                     (* back-end disconnect callback *)

(** The closure that a call runs, on the state the closures share. *)
Definition dispatch (cb : Callback) (s : WebBinaryProxy.Session)
    : WebBinaryProxy.Session * list WebBinaryProxy.ProxyEvent :=
  match cb with
  | FrontData buffer => WebBinaryProxy.frontendData buffer s
  | FrontDisConnect => WebBinaryProxy.frontendDisConnect s
  | BackEnter backendSession => WebBinaryProxy.backendEnter backendSession s
  | BackData buffer => WebBinaryProxy.backendData buffer s
  | BackDisConnect => WebBinaryProxy.backendDisConnect s
  end.

(** The calls of [cbs] one after the other. *)
Fixpoint runCallbacks (cbs : list Callback) (s : WebBinaryProxy.Session)
    : WebBinaryProxy.Session * list WebBinaryProxy.ProxyEvent :=
  match cbs with
  | [] => (s, [])
  | cb :: rest =>
      let '(s1, t1) := dispatch cb s in
      let '(s2, t2) := runCallbacks rest s1 in
      (s2, t1 ++ t2)
  end.

(** The buffers that the front end delivered, in order. *)
Fixpoint frontPackets (cbs : list Callback) : list string :=
  match cbs with
  | [] => []
  | FrontData buffer :: rest => buffer :: frontPackets rest
  | _ :: rest => frontPackets rest
  end.

(** The buffers that the back end delivered, in order. *)
Fixpoint backPackets (cbs : list Callback) : list string :=
  match cbs with
  | [] => []
  | BackData buffer :: rest => buffer :: backPackets rest
  | _ :: rest => backPackets rest
  end.

(** The packets sent to a connection other than [c], in order. *)
Fixpoint sentPast (c : WebBinaryProxy.TcpConnection)
    (t : list WebBinaryProxy.ProxyEvent) : list string :=
  match t with
  | [] => []
  | WebBinaryProxy.EvSend to data :: rest =>
      if Nat.eqb to c then sentPast c rest else data :: sentPast c rest
  | _ :: rest => sentPast c rest
  end.

(** The connections on which [postDisConnect] is called, in order. *)
Fixpoint disconnected (t : list WebBinaryProxy.ProxyEvent)
    : list WebBinaryProxy.TcpConnection :=
  match t with
  | [] => []
  | WebBinaryProxy.EvPostDisConnect c :: rest => c :: disconnected rest
  | _ :: rest => disconnected rest
  end.

(** Whether a callback is registered in [t]. *)
Definition registers (e : WebBinaryProxy.ProxyEvent) : bool :=
  match e with
  | WebBinaryProxy.EvSetDataCallback _ => true
  | WebBinaryProxy.EvSetDisConnectCallback _ => true
  | _ => false
  end.

(** The back-end connections are other connections than [c]. *)
Definition backends_differ (c : WebBinaryProxy.TcpConnection) (cb : Callback) : bool :=
  match cb with
  | BackEnter b => negb (Nat.eqb b c)
  | _ => true
  end.

(** The back-end connections that complete in [cbs], in order. *)
Fixpoint entered (cbs : list Callback) : list WebBinaryProxy.TcpConnection :=
  match cbs with
  | [] => []
  | BackEnter b :: rest => b :: entered rest
  | _ :: rest => entered rest
  end.

Definition is_FrontDisConnect (cb : Callback) : bool :=
  match cb with
  | FrontDisConnect => true
  | _ => false
  end.

End ProxyRun.

(** What holds of the shared state between any two calls: the session
    is the front-end connection; a published back end is another
    connection, and nothing is cached while one is published. *)
Definition proxy_inv (conn : WebBinaryProxy.TcpConnection)
    (s : WebBinaryProxy.Session) : Prop :=
  WebBinaryProxy.session s = conn
  /\ forall b, WebBinaryProxy.shareBackendSession s = Some b ->
               WebBinaryProxy.cachePacket s = [] /\ Nat.eqb b conn = false.

(** No pending attempt of [w] other than the one on descriptor [fd] has
    the closure [f] as its failure callback, so that a call of [f] is a
    call for that attempt. *)
Definition own_failure (w : ConnectorWorkInfo) (fd : sock) (f : nat) : Prop :=
  forall fd' ci',
    In (fd', ci') (mConnectingInfos w) -> failedCB ci' = Some f -> fd' = fd.

(** The callback that [checkConnectStatus] calls for an entry whose
    descriptor is reported ready for writing. *)
Definition ready_callback (os : PollOS) (e : sock * ConnectingInfo) : trace :=
  if isConnectSuccess os (fst e) then call_success (successCB (snd e)) (fst e)
  else call_failed (failedCB (snd e)).

(** * Properties *)

(** ** SSLHelper::initSSL *)

Lemma initSSL_initialised : forall os certificate privatekey flag h ctx,
  SSL.mOpenSSLCTX h = Some ctx ->
  SSL.initSSL os certificate privatekey flag h
  = Returned (SSL.mkInitResult false h true (snd (SSL.call_once flag))).
Proof.
  intros os certificate privatekey flag h ctx Hctx.
  unfold SSL.initSSL. rewrite Hctx.
  destruct flag; reflexivity.
Qed.

Lemma initSSL_empty_path : forall os certificate privatekey flag h,
  SSL.mOpenSSLCTX h = None ->
  SSL.empty certificate || SSL.empty privatekey = true ->
  SSL.initSSL os certificate privatekey flag h
  = Returned (SSL.mkInitResult false h true (snd (SSL.call_once flag))).
Proof.
  intros os certificate privatekey flag h Hctx Hempty.
  unfold SSL.initSSL. rewrite Hctx, Hempty.
  destruct flag; reflexivity.
Qed.

(** C10. [SSLHelper::initSSL] is all-or-nothing on [mOpenSSLCTX].  Whenever
    it returns: (1) on a helper that already has a context it returns
    false, the helper is unchanged and nothing is freed; (2) with no
    context and an empty certificate or private-key path it returns
    false and the context stays null, no OpenSSL context having been
    made; (3) otherwise it returns true exactly when the certificate
    chain loads, the private key loads and the key check passes, and
    then the context is the new non-null one and was not freed, while on
    each of the three failures the new context is freed, the member is
    reset to null and the result is false; so (4) a false return leaves
    the context as it was before the call and a true return leaves a
    non-null context on which all three steps succeeded.  The only call
    that does not return is the one in which [SSL_CTX_new] itself
    yields NULL. *)
Theorem C10_initSSL_all_or_nothing :
  forall (os : SSL.OpenSSL) (certificate privatekey : string) (flag : bool)
         (h : SSL.SSLHelper),
    let all_ok :=
      (0 <? SSL.SSL_CTX_use_certificate_chain_file os)
      && (0 <? SSL.SSL_CTX_use_PrivateKey_file os)
      && negb (SSL.SSL_CTX_check_private_key os =? 0) in
    match SSL.initSSL os certificate privatekey flag h with
    | Returned r =>
        match SSL.mOpenSSLCTX h with
        | Some old =>
            (* (1) *)
            SSL.ret r = false /\ SSL.helper r = h
            /\ (forall c, ~ In (SSL.EvFree c) (SSL.effects r))
        | None =>
            if SSL.empty certificate || SSL.empty privatekey then
              (* (2) *)
              SSL.ret r = false /\ SSL.helper r = h
              /\ SSL.effects r = snd (SSL.call_once flag)
            else
              (* (3) *)
              exists ctx,
                SSL.SSL_CTX_new os = Some ctx
                /\ SSL.ret r = all_ok
                /\ SSL.mOpenSSLCTX (SSL.helper r)
                   = (if all_ok then Some ctx else None)
                /\ List.length (filter (fun e => match e with
                                                 | SSL.EvFree c => Nat.eqb c ctx
                                                 | _ => false
                                                 end) (SSL.effects r))
                   = (if all_ok then 0%nat else 1%nat)
        end
        (* (4) *)
        /\ (if SSL.ret r
            then SSL.mOpenSSLCTX h = None
                 /\ SSL.mOpenSSLCTX (SSL.helper r) <> None
                 /\ SSL.mOpenSSLCTX (SSL.helper r) = SSL.SSL_CTX_new os
                 /\ all_ok = true
            else SSL.helper r = h)
    | NullDeref =>
        SSL.mOpenSSLCTX h = None
        /\ SSL.empty certificate || SSL.empty privatekey = false
        /\ SSL.SSL_CTX_new os = None
    | Thrown _ | NoReturn => False
    end.
Proof.
  intros os certificate privatekey flag h all_ok. subst all_ok.
  destruct h as [[old|]].
  - erewrite initSSL_initialised by reflexivity.
    cbn [SSL.ret SSL.helper SSL.effects SSL.mOpenSSLCTX].
    repeat split; try reflexivity.
    intros c. destruct flag; cbn; intuition discriminate.
  - destruct (SSL.empty certificate || SSL.empty privatekey) eqn:Hempty.
    + rewrite initSSL_empty_path by (reflexivity || assumption).
      cbn [SSL.ret SSL.helper SSL.effects SSL.mOpenSSLCTX].
      repeat split; reflexivity.
    + unfold SSL.initSSL. cbn [SSL.mOpenSSLCTX]. rewrite Hempty.
      destruct (SSL.call_once flag) as [flag' t0] eqn:Honce.
      assert (Hfree : forall ctx, filter (fun e => match e with
                                                  | SSL.EvFree c => Nat.eqb c ctx
                                                  | _ => false
                                                  end) t0 = []).
      { intros ctx. unfold SSL.call_once in Honce.
        destruct flag; inversion Honce; reflexivity. }
      destruct (SSL.SSL_CTX_new os) as [ctx|] eqn:Hnew; [|repeat split; reflexivity].
      destruct (SSL.SSL_CTX_use_certificate_chain_file os <=? 0) eqn:H1;
        [ apply Z.leb_le in H1;
          replace (0 <? SSL.SSL_CTX_use_certificate_chain_file os) with false
            by (symmetry; apply Z.ltb_ge; lia)
        | apply Z.leb_gt in H1;
          replace (0 <? SSL.SSL_CTX_use_certificate_chain_file os) with true
            by (symmetry; apply Z.ltb_lt; lia);
          destruct (SSL.SSL_CTX_use_PrivateKey_file os <=? 0) eqn:H2;
          [ apply Z.leb_le in H2;
            replace (0 <? SSL.SSL_CTX_use_PrivateKey_file os) with false
              by (symmetry; apply Z.ltb_ge; lia)
          | apply Z.leb_gt in H2;
            replace (0 <? SSL.SSL_CTX_use_PrivateKey_file os) with true
              by (symmetry; apply Z.ltb_lt; lia);
            destruct (SSL.SSL_CTX_check_private_key os =? 0) eqn:H3 ] ];
        cbn [SSL.ret SSL.helper SSL.effects SSL.mOpenSSLCTX andb negb];
        (split;
         [ exists ctx; repeat split;
           rewrite !filter_app, Hfree; cbn; rewrite ?Nat.eqb_refl; reflexivity
         | repeat split; congruence ]).
Qed.

(** ** WebBinaryProxy: the completion of the back-end connect *)

Lemma frontendDataAll_absent : forall packets s,
  WebBinaryProxy.shareBackendSession s = None ->
  WebBinaryProxy.frontendDataAll packets s
  = ({| WebBinaryProxy.session := WebBinaryProxy.session s;
        WebBinaryProxy.ud := WebBinaryProxy.ud s;
        WebBinaryProxy.shareBackendSession := None;
        WebBinaryProxy.cachePacket := WebBinaryProxy.cachePacket s ++ packets |}, []).
Proof.
  induction packets as [|p rest IH]; intros s Hnone.
  - cbn. rewrite app_nil_r. destruct s; cbn in *; subst; reflexivity.
  - cbn [WebBinaryProxy.frontendDataAll]. unfold WebBinaryProxy.frontendData.
    rewrite Hnone, IH by reflexivity. cbn. now rewrite <- app_assoc.
Qed.

Lemma frontendDataAll_present : forall packets s b,
  WebBinaryProxy.shareBackendSession s = Some b ->
  WebBinaryProxy.frontendDataAll packets s
  = (s, map (WebBinaryProxy.EvSend b) packets).
Proof.
  induction packets as [|p rest IH]; intros s b Hsome.
  - reflexivity.
  - cbn [WebBinaryProxy.frontendDataAll]. unfold WebBinaryProxy.frontendData.
    rewrite Hsome, (IH s b Hsome). reflexivity.
Qed.

Lemma sentTo_app : forall c t1 t2,
  WebBinaryProxy.sentTo c (t1 ++ t2)
  = WebBinaryProxy.sentTo c t1 ++ WebBinaryProxy.sentTo c t2.
Proof.
  induction t1 as [|e t1 IH]; intros t2; [reflexivity|].
  destruct e; cbn; rewrite ?IH; try reflexivity.
  destruct (Nat.eqb to c); cbn; now rewrite ?IH.
Qed.

Lemma sentTo_sends : forall c packets,
  WebBinaryProxy.sentTo c (map (WebBinaryProxy.EvSend c) packets) = packets.
Proof.
  induction packets as [|p rest IH]; [reflexivity|].
  cbn. rewrite Nat.eqb_refl, IH. reflexivity.
Qed.

(** C9. The completion of the back-end connect ([backendEnter]), on any
    state of the session: when the front end's user-data slot holds -1 it
    only post-disconnects the back-end session, sends none of the cached
    packets and publishes nothing; otherwise it publishes the back-end
    reference, sends exactly the cached packets, in their order, and
    leaves the cache empty.  For a session followed from its start:
    the packets that arrive while the back end is absent are cached in
    arrival order and not sent; after the completion, the packets sent to
    the back end are the early ones followed by the later ones, each
    once; and if the front end disconnected first, the completion sends
    nothing. *)
Theorem C9_backend_completion :
  forall (conn backendSession : WebBinaryProxy.TcpConnection)
         (s : WebBinaryProxy.Session) (early late : list string),
    (* one call, any state *)
    (if WebBinaryProxy.ud s =? -1 then
       WebBinaryProxy.backendEnter backendSession s
       = (s, [WebBinaryProxy.EvPostDisConnect backendSession])
     else
       WebBinaryProxy.shareBackendSession
         (fst (WebBinaryProxy.backendEnter backendSession s)) = Some backendSession
       /\ WebBinaryProxy.cachePacket
            (fst (WebBinaryProxy.backendEnter backendSession s)) = []
       /\ snd (WebBinaryProxy.backendEnter backendSession s)
          = map (WebBinaryProxy.EvSend backendSession) (WebBinaryProxy.cachePacket s)
            ++ [WebBinaryProxy.EvSetDisConnectCallback backendSession;
                WebBinaryProxy.EvSetDataCallback backendSession])
    (* a session from its start *)
    /\ (let s0 := fst (WebBinaryProxy.frontendEnter conn) in
        let '(s1, t1) := WebBinaryProxy.frontendDataAll early s0 in
        let '(s2, t2) := WebBinaryProxy.backendEnter backendSession s1 in
        let '(s3, t3) := WebBinaryProxy.frontendDataAll late s2 in
        WebBinaryProxy.cachePacket s1 = early
        /\ t1 = []
        /\ WebBinaryProxy.sentTo backendSession t2 = early
        /\ WebBinaryProxy.cachePacket s2 = []
        /\ WebBinaryProxy.sentTo backendSession (t1 ++ t2 ++ t3) = early ++ late
        /\ WebBinaryProxy.cachePacket s3 = [])
    (* the front end went away before the back end was connected *)
    /\ (let s0 := fst (WebBinaryProxy.frontendEnter conn) in
        let s1 := fst (WebBinaryProxy.frontendDataAll early s0) in
        let s2 := fst (WebBinaryProxy.frontendDisConnect s1) in
        WebBinaryProxy.ud s2 = -1
        /\ WebBinaryProxy.backendEnter backendSession s2
           = (s2, [WebBinaryProxy.EvPostDisConnect backendSession])).
Proof.
  intros conn backendSession s early late. split; [|split].
  - unfold WebBinaryProxy.backendEnter.
    destruct (WebBinaryProxy.ud s =? -1); cbn; auto.
  - cbn zeta.
    rewrite frontendDataAll_absent by reflexivity. cbn.
    rewrite (frontendDataAll_present late _ backendSession) by reflexivity.
    repeat split.
    + rewrite sentTo_app, sentTo_sends. cbn. apply app_nil_r.
    + rewrite !sentTo_app, !sentTo_sends. cbn. now rewrite app_nil_r.
  - cbn zeta.
    rewrite frontendDataAll_absent by reflexivity. cbn. split; reflexivity.
Qed.

(** ** The containers *)

Lemma set_mem_In : forall k s, StdSet.mem k s = true <-> In k s.
Proof.
  induction s as [|k' s IH]; cbn.
  - split; [discriminate | tauto].
  - rewrite orb_true_iff, IH, Z.eqb_eq. intuition.
Qed.

Lemma set_insert_In : forall k k' s,
  In k' (StdSet.insert k s) <-> k' = k \/ In k' s.
Proof.
  induction s as [|x s IH]; cbn.
  - intuition.
  - destruct (k <? x); [cbn; intuition|].
    destruct (k =? x) eqn:E.
    + apply Z.eqb_eq in E. subst. cbn. intuition.
    + cbn. rewrite IH. intuition.
Qed.

Lemma set_mem_insert : forall k s, StdSet.mem k (StdSet.insert k s) = true.
Proof. intros. apply set_mem_In, set_insert_In. now left. Qed.

Lemma map_find_insert_same : forall (V : Type) k (v : V) m,
  StdMap.find k (StdMap.insert k v m) = Some v.
Proof.
  induction m as [|[k' v'] m IH]; cbn.
  - now rewrite Z.eqb_refl.
  - destruct (k <? k'); [cbn; now rewrite Z.eqb_refl|].
    destruct (k =? k') eqn:E; cbn; [now rewrite Z.eqb_refl|].
    now rewrite E.
Qed.

Lemma map_keys_insert : forall (V : Type) k (v : V) m,
  StdMap.keys (StdMap.insert k v m) = StdSet.insert k (StdMap.keys m).
Proof.
  induction m as [|[k' v'] m IH]; cbn; [reflexivity|].
  destruct (k <? k'); [reflexivity|].
  destruct (k =? k') eqn:E; cbn.
  - apply Z.eqb_eq in E. now subst.
  - unfold StdMap.keys in IH. now rewrite IH.
Qed.

Lemma map_insert_In : forall (V : Type) k (v : V) m e,
  In e (StdMap.insert k v m) -> e = (k, v) \/ In e m.
Proof.
  induction m as [|[k' v'] m IH]; cbn; intros e H.
  - intuition.
  - destruct (k <? k'); [cbn in H; intuition|].
    destruct (k =? k'); cbn in H; [intuition|].
    destruct H as [H|H]; [auto|]. apply IH in H. intuition.
Qed.

Lemma ascending_cons : forall k l,
  ascending (k :: l) <-> ascending l /\ Forall (Z.lt k) l.
Proof.
  intros k l. unfold ascending. split.
  - intros H. inversion H; subst. auto.
  - intros [H1 H2]. now constructor.
Qed.

Lemma ascending_insert : forall k s, ascending s -> ascending (StdSet.insert k s).
Proof.
  induction s as [|x s IH]; cbn; intros H.
  - repeat constructor.
  - apply ascending_cons in H. destruct H as [Hs Hx].
    destruct (k <? x) eqn:E1.
    + apply Z.ltb_lt in E1. apply ascending_cons. split.
      * now apply ascending_cons.
      * constructor; [assumption|].
        eapply Forall_impl; [|exact Hx]. cbn. intros; lia.
    + destruct (k =? x) eqn:E2.
      * now apply ascending_cons.
      * apply Z.ltb_ge in E1. apply Z.eqb_neq in E2.
        apply ascending_cons. split; [auto|].
        apply Forall_forall. intros y Hy. apply set_insert_In in Hy.
        destruct Hy as [->|Hy]; [lia|].
        rewrite Forall_forall in Hx. auto.
Qed.

Lemma ascending_NoDup : forall l, ascending l -> NoDup l.
Proof.
  induction l as [|k l IH]; intros H; [constructor|].
  apply ascending_cons in H. destruct H as [Hl Hk].
  constructor; [|auto].
  intros Hin. rewrite Forall_forall in Hk. specialize (Hk _ Hin). lia.
Qed.

Lemma ascending_app : forall l1 l2,
  ascending (l1 ++ l2) ->
  ascending l1 /\ ascending l2 /\ (forall x y, In x l1 -> In y l2 -> x < y).
Proof.
  induction l1 as [|k l1 IH]; cbn; intros l2 H.
  - repeat split; [constructor | assumption | contradiction].
  - apply ascending_cons in H. destruct H as [H Hk].
    destruct (IH _ H) as (H1 & H2 & H3).
    apply Forall_app in Hk. destruct Hk as [Hk1 Hk2].
    repeat split; [now apply ascending_cons | assumption |].
    intros x y [->|Hx] Hy; [|auto].
    rewrite Forall_forall in Hk2. auto.
Qed.

Lemma set_insert_last : forall v s,
  ascending (s ++ [v]) -> StdSet.insert v s = s ++ [v].
Proof.
  induction s as [|x s IH]; cbn; intros H; [reflexivity|].
  apply ascending_cons in H. destruct H as [Hs Hx].
  apply Forall_app in Hx. destruct Hx as [_ Hx]. inversion Hx; subst.
  replace (v <? x) with false by (symmetry; apply Z.ltb_ge; lia).
  replace (v =? x) with false by (symmetry; apply Z.eqb_neq; lia).
  now rewrite IH.
Qed.

Lemma set_erase_app : forall k pre l,
  ~ In k pre -> StdSet.erase k (pre ++ k :: l) = pre ++ l.
Proof.
  induction pre as [|x pre IH]; cbn; intros l Hn.
  - now rewrite Z.eqb_refl.
  - replace (k =? x) with false by (symmetry; apply Z.eqb_neq; intuition).
    rewrite IH; intuition.
Qed.

Lemma map_find_app : forall (V : Type) k (v : V) pre rest,
  ~ In k (StdMap.keys pre) ->
  StdMap.find k (pre ++ (k, v) :: rest) = Some v.
Proof.
  induction pre as [|[x vx] pre IH]; cbn; intros rest Hn.
  - now rewrite Z.eqb_refl.
  - replace (k =? x) with false by (symmetry; apply Z.eqb_neq; intuition).
    apply IH; intuition.
Qed.

Lemma map_erase_app : forall (V : Type) k (v : V) pre rest,
  ~ In k (StdMap.keys pre) ->
  StdMap.erase k (pre ++ (k, v) :: rest) = pre ++ rest.
Proof.
  induction pre as [|[x vx] pre IH]; cbn; intros rest Hn.
  - now rewrite Z.eqb_refl.
  - replace (k =? x) with false by (symmetry; apply Z.eqb_neq; intuition).
    rewrite IH; intuition.
Qed.

Lemma map_find_In : forall (V : Type) k (v : V) m,
  StdMap.find k m = Some v -> In (k, v) m.
Proof.
  induction m as [|[x vx] m IH]; cbn; [discriminate|].
  destruct (k =? x) eqn:E; intros H.
  - apply Z.eqb_eq in E. inversion H. subst. now left.
  - right. auto.
Qed.

Lemma map_In_find : forall (V : Type) k (v : V) m,
  NoDup (StdMap.keys m) -> In (k, v) m -> StdMap.find k m = Some v.
Proof.
  induction m as [|[x vx] m IH]; cbn; [contradiction|].
  intros Hnd [H|H].
  - inversion H. subst. now rewrite Z.eqb_refl.
  - inversion Hnd; subst.
    destruct (k =? x) eqn:E; [|auto].
    apply Z.eqb_eq in E. subst x. exfalso. apply H2.
    change k with (fst (k, v)). now apply in_map.
Qed.

Lemma map_find_None : forall (V : Type) k (m : StdMap.t V),
  StdMap.find k m = None <-> ~ In k (StdMap.keys m).
Proof.
  induction m as [|[x vx] m IH]; cbn; [intuition|].
  destruct (k =? x) eqn:E.
  - apply Z.eqb_eq in E. subst. split; [discriminate | intuition].
  - apply Z.eqb_neq in E. rewrite IH. intuition.
Qed.

Lemma ascending_app_intro : forall l1 l2,
  ascending l1 -> ascending l2 ->
  (forall x y, In x l1 -> In y l2 -> x < y) ->
  ascending (l1 ++ l2).
Proof.
  induction l1 as [|k l1 IH]; cbn; intros l2 H1 H2 H; [assumption|].
  apply ascending_cons in H1. destruct H1 as [H1 Hk].
  apply ascending_cons. split.
  - apply IH; auto.
  - apply Forall_app. split; [assumption|].
    apply Forall_forall. intros y Hy. apply H; auto.
Qed.

Lemma ascending_drop_mid : forall l1 x l2,
  ascending (l1 ++ x :: l2) -> ascending (l1 ++ l2).
Proof.
  intros l1 x l2 H. apply ascending_app in H. destruct H as (H1 & H2 & H3).
  apply ascending_cons in H2. destruct H2 as [H2 _].
  apply ascending_app_intro; auto.
  intros a b Ha Hb. apply H3; [assumption | now right].
Qed.

Lemma ascending_snoc : forall l1 x l2,
  ascending (l1 ++ x :: l2) -> ascending (l1 ++ [x]).
Proof.
  intros l1 x l2 H. apply ascending_app in H. destruct H as (H1 & H2 & H3).
  apply ascending_app_intro; auto.
  - repeat constructor.
  - intros a b Ha [<-|[]]. apply H3; [assumption | now left].
Qed.

Lemma map_keys_app : forall (V : Type) (m1 m2 : StdMap.t V),
  StdMap.keys (m1 ++ m2) = StdMap.keys m1 ++ StdMap.keys m2.
Proof. intros. apply map_app. Qed.

Lemma map_keys_filter_In : forall (V : Type) (f : sock * V -> bool) (m : StdMap.t V) k,
  In k (StdMap.keys (filter f m)) -> In k (StdMap.keys m).
Proof.
  intros V f m k H. apply in_map_iff in H. destruct H as (e & <- & He).
  apply filter_In in He. now apply in_map.
Qed.

Lemma ascending_keys_filter : forall (V : Type) (f : sock * V -> bool) (m : StdMap.t V),
  ascending (StdMap.keys m) -> ascending (StdMap.keys (filter f m)).
Proof.
  induction m as [|[k v] m IH]; cbn; intros H; [assumption|].
  apply ascending_cons in H. destruct H as [Hm Hk].
  destruct (f (k, v)); [|auto]. cbn.
  apply ascending_cons. split; [auto|].
  apply Forall_forall. intros y Hy. apply map_keys_filter_In in Hy.
  rewrite Forall_forall in Hk. auto.
Qed.

Lemma wf_new : wf newConnectorWorkInfo.
Proof. unfold wf. cbn. repeat split. constructor. Qed.

(** ** The three loops over the pending entries, as filters *)

Lemma checkTimeout_loop_spec : forall now its pre,
  NoDup (pre ++ StdMap.keys its) ->
  checkTimeout_loop now its (pre ++ StdMap.keys its)
    {| write_interest := pre ++ StdMap.keys its |}
  = (filter (live now) its,
     pre ++ StdMap.keys (filter (live now) its),
     {| write_interest := pre ++ StdMap.keys (filter (live now) its) |},
     flat_map (fun e => if expired now e then timeout_block e else []) its).
Proof.
  induction its as [|[fd ci] rest IH]; intros pre Hnd; [reflexivity|].
  assert (Hl : live now (fd, ci) = (now fd - startConnectTime ci <? timeout ci))
    by (unfold live, expired; cbn; apply negb_involutive).
  assert (He : expired now (fd, ci)
               = negb (now fd - startConnectTime ci <? timeout ci))
    by reflexivity.
  cbn [checkTimeout_loop filter flat_map]. rewrite Hl, He.
  cbn [StdMap.keys map fst] in *.
  change (map fst rest) with (StdMap.keys rest) in *.
  destruct (now fd - startConnectTime ci <? timeout ci) eqn:E; cbn [negb].
  - replace (pre ++ fd :: StdMap.keys rest)
      with ((pre ++ [fd]) ++ StdMap.keys rest) in *
      by (rewrite <- app_assoc; reflexivity).
    rewrite IH by assumption. cbn.
    rewrite <- !app_assoc. reflexivity.
  - assert (Hfd : ~ In fd pre).
    { intros Hin. apply NoDup_remove_2 in Hnd. apply Hnd.
      apply in_or_app. now left. }
    unfold ox_fdset_del. cbn [write_interest].
    rewrite set_erase_app by assumption.
    apply NoDup_remove_1 in Hnd.
    rewrite IH by assumption. reflexivity.
Qed.

Lemma checkTimeout_spec : forall now w,
  wf w ->
  checkTimeout now w
  = (with_entries (filter (live now) (mConnectingInfos w)),
     flat_map (fun e => if expired now e then timeout_block e else [])
       (mConnectingInfos w)).
Proof.
  intros now [m fds [wi]] Hwf. unfold wf in Hwf.
  cbn [mConnectingInfos mConnectingFds mFDSet write_interest] in Hwf.
  destruct Hwf as (Hasc & -> & ->).
  unfold checkTimeout, with_entries. cbn [mConnectingInfos mConnectingFds mFDSet].
  pose proof (checkTimeout_loop_spec now m []) as H. cbn [app] in H.
  rewrite H by now apply ascending_NoDup. reflexivity.
Qed.

Lemma causeAllFailed_loop_spec : forall its pre,
  NoDup (pre ++ StdMap.keys its) ->
  causeAllFailed_loop its (pre ++ StdMap.keys its)
    {| write_interest := pre ++ StdMap.keys its |}
  = ([], pre, {| write_interest := pre |}, flat_map timeout_block its).
Proof.
  induction its as [|[fd ci] rest IH]; intros pre Hnd.
  - cbn. now rewrite app_nil_r.
  - cbn [causeAllFailed_loop flat_map].
    cbn [StdMap.keys map fst] in *.
    change (map fst rest) with (StdMap.keys rest) in *.
    assert (Hfd : ~ In fd pre).
    { intros Hin. apply NoDup_remove_2 in Hnd. apply Hnd.
      apply in_or_app. now left. }
    unfold ox_fdset_del. cbn [write_interest].
    rewrite set_erase_app by assumption.
    apply NoDup_remove_1 in Hnd.
    rewrite IH by assumption. reflexivity.
Qed.

Lemma causeAllFailed_spec : forall w,
  wf w ->
  causeAllFailed w
  = (newConnectorWorkInfo, flat_map timeout_block (mConnectingInfos w)).
Proof.
  intros [m fds [wi]] Hwf. unfold wf in Hwf.
  cbn [mConnectingInfos mConnectingFds mFDSet write_interest] in Hwf.
  destruct Hwf as (Hasc & -> & ->).
  unfold causeAllFailed. cbn [mConnectingInfos mConnectingFds mFDSet].
  pose proof (causeAllFailed_loop_spec m []) as H. cbn [app] in H.
  rewrite H by now apply ascending_NoDup. reflexivity.
Qed.

Lemma collect_fds_spec : forall os fds total_fds success_fds,
  ascending (total_fds ++ fds) ->
  ascending (success_fds ++ fds) ->
  collect_fds os fds total_fds success_fds
  = (total_fds ++ filter (ox_fdset_check os) fds,
     success_fds ++ filter (isConnectSuccess os) fds).
Proof.
  induction fds as [|v rest IH]; intros tot suc Ht Hs.
  - cbn. now rewrite !app_nil_r.
  - cbn [collect_fds filter].
    destruct (ox_fdset_check os v) eqn:Ev.
    + rewrite (set_insert_last v tot) by (eapply ascending_snoc; eauto).
      assert (Ht' : ascending ((tot ++ [v]) ++ rest))
        by (rewrite <- app_assoc; exact Ht).
      destruct (isConnectSuccess os v) eqn:Es.
      * rewrite (set_insert_last v suc) by (eapply ascending_snoc; eauto).
        rewrite IH; [now rewrite <- !app_assoc | assumption |].
        rewrite <- app_assoc. exact Hs.
      * rewrite IH; [now rewrite <- !app_assoc | assumption |].
        eapply ascending_drop_mid; eauto.
    + replace (isConnectSuccess os v) with false.
      * apply IH; eapply ascending_drop_mid; eauto.
      * unfold isConnectSuccess. now rewrite Ev.
Qed.

Lemma handle_fds_spec : forall os success_fds suffix kept,
  NoDup (StdMap.keys (kept ++ suffix)) ->
  (forall e, In e suffix ->
     StdSet.mem (fst e) success_fds = isConnectSuccess os (fst e)) ->
  handle_fds success_fds (filter (ox_fdset_check os) (StdMap.keys suffix))
    (with_entries (kept ++ suffix))
  = (with_entries (kept ++ filter (fun e => negb (ready os e)) suffix),
     flat_map (fun e => if ready os e then ready_block os e else []) suffix).
Proof.
  unfold with_entries.
  induction suffix as [|[fd ci] rest IH]; intros kept Hnd Hsuc.
  - reflexivity.
  - assert (Hr : ready os (fd, ci) = ox_fdset_check os fd) by reflexivity.
    cbn [StdMap.keys map fst filter flat_map]. rewrite Hr.
    change (map fst rest) with (StdMap.keys rest).
    destruct (ox_fdset_check os fd) eqn:Ev; cbn [negb].
    + assert (Hfd : ~ In fd (StdMap.keys kept)).
      { rewrite map_keys_app in Hnd. cbn in Hnd.
        apply NoDup_remove_2 in Hnd. intros Hin. apply Hnd.
        apply in_or_app. now left. }
      assert (Hnd' : NoDup (StdMap.keys (kept ++ rest))).
      { rewrite map_keys_app in *. cbn in Hnd. now apply NoDup_remove_1 in Hnd. }
      cbn [handle_fds mConnectingInfos mConnectingFds mFDSet].
      unfold ox_fdset_del. cbn [write_interest].
      rewrite map_find_app by assumption.
      rewrite map_erase_app by assumption.
      rewrite map_keys_app. cbn [StdMap.keys map fst].
      rewrite set_erase_app by assumption.
      change (map fst rest) with (StdMap.keys rest).
      rewrite <- map_keys_app.
      rewrite IH; [| assumption | intros e He; apply Hsuc; now right].
      unfold ready_block. cbn [fst snd].
      pose proof (Hsuc (fd, ci) (or_introl eq_refl)) as Hm. cbn [fst] in Hm.
      rewrite Hm. reflexivity.
    + replace (kept ++ (fd, ci) :: rest) with ((kept ++ [(fd, ci)]) ++ rest) in *
        by (rewrite <- app_assoc; reflexivity).
      rewrite IH; [| assumption | intros e He; apply Hsuc; now right].
      rewrite <- !app_assoc. reflexivity.
Qed.

Lemma checkConnectStatus_spec : forall os w,
  wf w ->
  0 < poll_ret os ->
  checkConnectStatus os w
  = (with_entries (filter (fun e => negb (ready os e)) (mConnectingInfos w)),
     flat_map (fun e => if ready os e then ready_block os e else [])
       (mConnectingInfos w)).
Proof.
  intros os [m fds [wi]] Hwf Hpoll. unfold wf in Hwf.
  cbn [mConnectingInfos mConnectingFds mFDSet write_interest] in Hwf.
  destruct Hwf as (Hasc & -> & ->).
  unfold checkConnectStatus. cbn [mConnectingInfos mConnectingFds mFDSet].
  replace (poll_ret os <=? 0) with false by (symmetry; apply Z.leb_gt; lia).
  rewrite collect_fds_spec by (cbn; assumption). cbn [app StdSet.empty].
  apply (handle_fds_spec os _ m []).
  - cbn. now apply ascending_NoDup.
  - intros e He.
    destruct (isConnectSuccess os (fst e)) eqn:Es.
    + apply set_mem_In, filter_In. split; [|assumption]. now apply in_map.
    + destruct (StdSet.mem (fst e) (filter (isConnectSuccess os) (StdMap.keys m))) eqn:Em;
        [|reflexivity].
      apply set_mem_In, filter_In in Em. destruct Em as [_ Em]. congruence.
Qed.

Lemma checkConnectStatus_idle : forall os w,
  poll_ret os <= 0 -> checkConnectStatus os w = (w, []).
Proof.
  intros os w H. unfold checkConnectStatus.
  now replace (poll_ret os <=? 0) with true by (symmetry; apply Z.leb_le; lia).
Qed.

(** ** Well-formedness is preserved *)

Lemma wf_filter : forall (f : sock * ConnectingInfo -> bool) m,
  ascending (StdMap.keys m) -> wf (with_entries (filter f m)).
Proof.
  intros f m H. unfold wf, with_entries. cbn. repeat split.
  now apply ascending_keys_filter.
Qed.

Lemma wf_processConnect : forall os addr w,
  wf w -> wf (fst (processConnect os addr w)).
Proof.
  intros os addr w Hwf. unfold processConnect.
  destruct (os_socket os =? SOCKET_ERROR); [assumption|].
  destruct (os_connect os =? 0); [assumption|].
  destruct (negb (check_error =? os_errno os)); [assumption|].
  destruct Hwf as (Hasc & Hfds & Hint).
  unfold wf. cbn [fst mConnectingInfos mConnectingFds mFDSet ox_fdset_add write_interest].
  rewrite map_keys_insert, Hfds, Hint. repeat split.
  now apply ascending_insert.
Qed.

Lemma wf_checkConnectStatus : forall os w,
  wf w -> wf (fst (checkConnectStatus os w)).
Proof.
  intros os w Hwf. destruct (Z_le_gt_dec (poll_ret os) 0) as [H|H].
  - now rewrite checkConnectStatus_idle.
  - rewrite checkConnectStatus_spec by (assumption || lia).
    apply wf_filter. apply Hwf.
Qed.

Lemma wf_checkTimeout : forall now w, wf w -> wf (fst (checkTimeout now w)).
Proof.
  intros now w Hwf. rewrite checkTimeout_spec by assumption.
  apply wf_filter. apply Hwf.
Qed.

(** ** processConnect *)

(** C2. [processConnect], for a request with both callbacks: the socket is
    created first, and when that fails only [on_failure] is called; else
    the socket is made non-blocking and [connect] is called on the
    address the literal parses to; when it returns 0, [on_success] is
    called with the new socket and nothing is recorded; when it reports
    EINPROGRESS, the attempt is recorded under the descriptor with the
    current time and the timeout (deadline = now + timeout) and both
    callbacks, the descriptor is registered for Write interest, and no
    callback is called; on any other connect error the socket is closed
    and then [on_failure] is called. *)
Theorem C2_processConnect_steps :
  forall (os : ConnectOS) (addr : AsyncConnectAddr) (w : ConnectorWorkInfo)
         (s f : nat),
    getSuccessCB addr = Some s ->
    getFailedCB addr = Some f ->
    let fd := os_socket os in
    exists sin_addr,
      (forall a, inet_pton (getIP addr) = Some a -> sin_addr = a)
      /\ let attempt := [EvSocketCreate fd; EvSocketNonblock fd;
                         EvConnect fd sin_addr (htons (getPort addr))] in
         (fd = SOCKET_ERROR ->
            processConnect os addr w = (w, [EvSocketCreate fd; EvCallFailed f]))
         /\ (fd <> SOCKET_ERROR -> os_connect os = 0 ->
               processConnect os addr w = (w, attempt ++ [EvCallSuccess s fd]))
         /\ (fd <> SOCKET_ERROR -> os_connect os <> 0 -> os_errno os = EINPROGRESS ->
               let ci := {| startConnectTime := os_now os;
                            timeout := getTimeout addr;
                            successCB := Some s;
                            failedCB := Some f |} in
               let w' := fst (processConnect os addr w) in
               processConnect os addr w
               = ({| mConnectingInfos := StdMap.insert fd ci (mConnectingInfos w);
                     mConnectingFds := StdSet.insert fd (mConnectingFds w);
                     mFDSet := ox_fdset_add fd (mFDSet w) |},
                  attempt ++ [EvFdsetAdd fd])
               /\ StdMap.find fd (mConnectingInfos w') = Some ci
               /\ deadline ci = os_now os + getTimeout addr
               /\ StdSet.mem fd (mConnectingFds w') = true
               /\ StdSet.mem fd (write_interest (mFDSet w')) = true
               /\ filter is_callback (snd (processConnect os addr w)) = [])
         /\ (fd <> SOCKET_ERROR -> os_connect os <> 0 -> os_errno os <> EINPROGRESS ->
               processConnect os addr w
               = (w, attempt ++ [EvSocketClose fd; EvCallFailed f])).
Proof.
  intros os addr w s f Hs Hf fd.
  exists (match inet_pton (getIP addr) with Some a => a | None => os_stack os end).
  split; [intros a Ha; now rewrite Ha|].
  cbn zeta. unfold processConnect. fold fd. rewrite Hs, Hf.
  repeat split.
  - intros ->. reflexivity.
  - intros Hfd Hc.
    replace (fd =? SOCKET_ERROR) with false by (symmetry; now apply Z.eqb_neq).
    rewrite Hc. reflexivity.
  - replace (fd =? SOCKET_ERROR) with false by (symmetry; now apply Z.eqb_neq).
    replace (os_connect os =? 0) with false by (symmetry; now apply Z.eqb_neq).
    rewrite H1. reflexivity.
  - replace (fd =? SOCKET_ERROR) with false by (symmetry; now apply Z.eqb_neq).
    replace (os_connect os =? 0) with false by (symmetry; now apply Z.eqb_neq).
    rewrite H1. cbn. apply map_find_insert_same.
  - replace (fd =? SOCKET_ERROR) with false by (symmetry; now apply Z.eqb_neq).
    replace (os_connect os =? 0) with false by (symmetry; now apply Z.eqb_neq).
    rewrite H1. cbn. apply set_mem_insert.
  - replace (fd =? SOCKET_ERROR) with false by (symmetry; now apply Z.eqb_neq).
    replace (os_connect os =? 0) with false by (symmetry; now apply Z.eqb_neq).
    rewrite H1. cbn. apply set_mem_insert.
  - replace (fd =? SOCKET_ERROR) with false by (symmetry; now apply Z.eqb_neq).
    replace (os_connect os =? 0) with false by (symmetry; now apply Z.eqb_neq).
    rewrite H1. reflexivity.
  - intros Hfd Hc He.
    replace (fd =? SOCKET_ERROR) with false by (symmetry; now apply Z.eqb_neq).
    replace (os_connect os =? 0) with false by (symmetry; now apply Z.eqb_neq).
    replace (check_error =? os_errno os) with false
      by (symmetry; apply Z.eqb_neq; unfold check_error; congruence).
    reflexivity.
Qed.

(** The in-progress case of C2 on [sample_request]: nothing is called, the
    attempt is recorded under descriptor 5 with deadline 100 + 10^9. *)
Lemma C2_processConnect_steps_witness :
  processConnect os_in_progress sample_request newConnectorWorkInfo
  = ({| mConnectingInfos :=
          [(5, {| startConnectTime := 100; timeout := 1000000000;
                  successCB := Some 1%nat; failedCB := Some 2%nat |})];
        mConnectingFds := [5];
        mFDSet := {| write_interest := [5] |} |},
     [EvSocketCreate 5; EvSocketNonblock 5; EvConnect 5 2130706433 (htons 8080);
      EvFdsetAdd 5]).
Proof.
  destruct (C2_processConnect_steps os_in_progress sample_request
              newConnectorWorkInfo 1 2 eq_refl eq_refl)
    as (sin_addr & Haddr & _ & _ & Hprogress & _).
  rewrite (Haddr 2130706433 eq_refl) in Hprogress.
  destruct Hprogress as (Heq & _).
  - cbn. discriminate.
  - cbn. discriminate.
  - reflexivity.
  - exact Heq.
Defined.

(** C7 (what the code does).  For the literal "example.com", which
    [inet_pton] rejects, [processConnect] still calls [connect], on the
    address that happened to be on the stack; when that connect goes in
    progress the attempt is registered as pending and [on_failure] is not
    called, and when it returns 0 [on_success] is called. *)
Lemma C7_invalid_literal_is_connected :
  inet_pton (getIP hostname_request) = None
  /\ processConnect os_in_progress hostname_request newConnectorWorkInfo
     = ({| mConnectingInfos :=
             [(5, {| startConnectTime := 100; timeout := 1000000000;
                     successCB := Some 1%nat; failedCB := Some 2%nat |})];
           mConnectingFds := [5];
           mFDSet := {| write_interest := [5] |} |},
        [EvSocketCreate 5; EvSocketNonblock 5; EvConnect 5 167772161 (htons 80);
         EvFdsetAdd 5])
  /\ processConnect os_connected hostname_request newConnectorWorkInfo
     = (newConnectorWorkInfo,
        [EvSocketCreate 5; EvSocketNonblock 5; EvConnect 5 167772161 (htons 80);
         EvCallSuccess 1 5]).
Proof. repeat split. Qed.

(** ** AsyncConnector *)

(** C6 (what the code does).  On a connector that was never started,
    [asyncConnect] throws "work thread already stop"; with a null
    callback it throws whatever the state; on a started connector it
    enqueues the request and returns.  After [startWorkerThread] and
    [stopWorkerThread], [mIsRun] is null and [asyncConnect] dereferences
    it instead of throwing. *)
Lemma C6_asyncConnect_after_stop :
  startWorkerThread newAsyncConnector = Returned started_connector
  /\ stopWorkerThread [iter_quiet] started_connector
     = Returned (stopped_connector, [])
  /\ mIsRun stopped_connector = None
  /\ asyncConnect "127.0.0.1" 8080 1000000000 (Some 1%nat) (Some 2%nat)
       stopped_connector = NullDeref
  /\ asyncConnect "127.0.0.1" 8080 1000000000 (Some 1%nat) (Some 2%nat)
       newAsyncConnector = Thrown "work thread already stop"
  /\ asyncConnect "127.0.0.1" 8080 1000000000 None (Some 2%nat)
       stopped_connector = Thrown "all callback is nullptr"
  /\ asyncConnect "127.0.0.1" 8080 1000000000 (Some 1%nat) (Some 2%nat)
       started_connector
     = Returned connector_with_request.
Proof. repeat split. Qed.

(** C8, as the claim has it, fails: on the connector that
    [startWorkerThread] has just started, a second [startWorkerThread]
    returns normally; nothing is thrown. *)
Lemma C8_second_start_counterexample :
  startWorkerThread newAsyncConnector = Returned started_connector
  /\ mThread started_connector <> None
  /\ ~ (exists what, startWorkerThread started_connector = Thrown what).
Proof.
  repeat split.
  - discriminate.
  - intros [what H]. discriminate.
Qed.

(** C8, amended.  [startWorkerThread] on a connector that is already
    started returns normally and leaves the connector, and with it the
    running worker's state, unchanged. *)
Theorem C8_second_start_ignored :
  forall c : AsyncConnector,
    mThread c <> None -> startWorkerThread c = Returned c.
Proof.
  intros c H. unfold startWorkerThread.
  destruct (mThread c); [reflexivity | contradiction].
Qed.

Lemma C8_second_start_ignored_witness :
  startWorkerThread started_connector = Returned started_connector.
Proof.
  apply (C8_second_start_ignored started_connector). cbn. discriminate.
Defined.

(** ** The timeout scan *)

Lemma In_call_failed : forall e cb, In e (call_failed cb) -> is_callback e = true.
Proof. intros e [f|] H; cbn in H; [destruct H as [<-|[]]; reflexivity | contradiction]. Qed.

Lemma timeout_blocks_close : forall (p : sock * ConnectingInfo -> bool) m fd,
  In (EvSocketClose fd) (flat_map (fun e => if p e then timeout_block e else []) m)
  <-> exists ci, In (fd, ci) m /\ p (fd, ci) = true.
Proof.
  intros p m fd. rewrite in_flat_map. split.
  - intros ([k ci] & Hin & H). destruct (p (k, ci)) eqn:Ep; [|contradiction].
    unfold timeout_block in H. cbn in H.
    destruct H as [H|[H|H]]; try discriminate.
    + inversion H. subst. eauto.
    + apply In_call_failed in H. discriminate.
  - intros (ci & Hin & Hp). exists (fd, ci). split; [assumption|].
    rewrite Hp. cbn. auto.
Qed.

Lemma timeout_blocks_del : forall (p : sock * ConnectingInfo -> bool) m fd,
  In (EvFdsetDel fd) (flat_map (fun e => if p e then timeout_block e else []) m)
  <-> exists ci, In (fd, ci) m /\ p (fd, ci) = true.
Proof.
  intros p m fd. rewrite in_flat_map. split.
  - intros ([k ci] & Hin & H). destruct (p (k, ci)) eqn:Ep; [|contradiction].
    unfold timeout_block in H. cbn in H.
    destruct H as [H|[H|H]]; try discriminate.
    + inversion H. subst. eauto.
    + apply In_call_failed in H. discriminate.
  - intros (ci & Hin & Hp). exists (fd, ci). split; [assumption|].
    rewrite Hp. cbn. auto.
Qed.

Lemma map_entry_unique : forall (V : Type) (m : StdMap.t V) k v v',
  NoDup (StdMap.keys m) -> In (k, v) m -> In (k, v') m -> v = v'.
Proof.
  intros V m k v v' Hnd H1 H2.
  apply (map_In_find _ _ _ _ Hnd) in H1. apply (map_In_find _ _ _ _ Hnd) in H2.
  congruence.
Qed.

Lemma map_split_entry : forall (V : Type) (m : StdMap.t V) k v,
  NoDup (StdMap.keys m) -> In (k, v) m ->
  exists pre post, m = pre ++ (k, v) :: post
                   /\ ~ In k (StdMap.keys pre) /\ ~ In k (StdMap.keys post).
Proof.
  intros V m k v Hnd Hin. apply in_split in Hin. destruct Hin as (pre & post & ->).
  exists pre, post. rewrite map_keys_app in Hnd. cbn in Hnd.
  split; [reflexivity|]. split.
  - intros H. apply NoDup_remove_2 in Hnd. apply Hnd. apply in_or_app. now left.
  - intros H. apply NoDup_remove_2 in Hnd. apply Hnd. apply in_or_app. now right.
Qed.

Lemma find_filter_dropped : forall (f : sock * ConnectingInfo -> bool) m fd ci,
  NoDup (StdMap.keys m) -> In (fd, ci) m -> f (fd, ci) = false ->
  ~ In fd (StdMap.keys (filter f m)).
Proof.
  intros f m fd ci Hnd Hin Hf H. apply in_map_iff in H.
  destruct H as ([k ci'] & Hk & H). cbn in Hk. subst k.
  apply filter_In in H. destruct H as [H Hf'].
  assert (ci' = ci) by (eapply map_entry_unique; eauto). subst. congruence.
Qed.

Lemma find_filter_kept : forall (f : sock * ConnectingInfo -> bool) m fd ci,
  ascending (StdMap.keys m) -> In (fd, ci) m -> f (fd, ci) = true ->
  StdMap.find fd (filter f m) = Some ci.
Proof.
  intros f m fd ci Hasc Hin Hf. apply map_In_find.
  - apply ascending_NoDup. now apply ascending_keys_filter.
  - apply filter_In. auto.
Qed.

Lemma set_mem_false : forall k s, StdSet.mem k s = false <-> ~ In k s.
Proof.
  intros k s. rewrite <- set_mem_In. destruct (StdSet.mem k s); intuition congruence.
Qed.

Lemma about_call_failed : forall k cb e, In e (call_failed cb) -> about k e = false.
Proof. intros k [f|] e H; cbn in H; [destruct H as [<-|[]]; reflexivity | contradiction]. Qed.

Lemma about_timeout_block : forall k x e,
  In e (timeout_block x) -> about k e = true -> fst x = k.
Proof.
  intros k [fd ci] e H Ha. unfold timeout_block in H. cbn in H.
  destruct H as [<-|[<-|H]]; cbn in Ha.
  - now apply Z.eqb_eq in Ha.
  - now apply Z.eqb_eq in Ha.
  - rewrite (about_call_failed k _ _ H) in Ha. discriminate.
Qed.

Lemma about_ready_block : forall os k x e,
  In e (ready_block os x) -> about k e = true -> fst x = k.
Proof.
  intros os k [fd ci] e H Ha. unfold ready_block, drop_TcpSocket in H.
  cbn [fst snd] in H.
  destruct H as [<-|H]; [cbn in Ha; now apply Z.eqb_eq in Ha|].
  destruct (isConnectSuccess os fd).
  - destruct (successCB ci); destruct H as [<-|[]]; cbn in Ha; now apply Z.eqb_eq in Ha.
  - apply in_app_or in H. destruct H as [H|[<-|[]]].
    + rewrite (about_call_failed k _ _ H) in Ha. discriminate.
    + cbn in Ha. now apply Z.eqb_eq in Ha.
Qed.

Lemma timeout_blocks_failed : forall (p : sock * ConnectingInfo -> bool) m f,
  In (EvCallFailed f) (flat_map (fun e => if p e then timeout_block e else []) m)
  <-> exists fd ci, In (fd, ci) m /\ p (fd, ci) = true /\ failedCB ci = Some f.
Proof.
  intros p m f. rewrite in_flat_map. split.
  - intros ([k ci] & Hin & H). destruct (p (k, ci)) eqn:Ep; [|contradiction].
    unfold timeout_block in H. cbn in H.
    destruct H as [H|[H|H]]; try discriminate.
    exists k, ci. repeat split; auto.
    destruct (failedCB ci) as [g|]; cbn in H; [|contradiction].
    destruct H as [H|[]]. now inversion H.
  - intros (fd & ci & Hin & Hp & Hf). exists (fd, ci). split; [assumption|].
    rewrite Hp. unfold timeout_block. cbn. rewrite Hf. cbn. auto.
Qed.

Lemma timeout_blocks_callbacks : forall (p : sock * ConnectingInfo -> bool) m,
  filter is_callback (flat_map (fun e => if p e then timeout_block e else []) m)
  = flat_map (fun e => if p e then call_failed (failedCB (snd e)) else []) m.
Proof.
  intros p. induction m as [|e m IH]; [reflexivity|].
  cbn [flat_map]. rewrite filter_app, IH. f_equal.
  destruct (p e); [|reflexivity].
  unfold timeout_block. now destruct (failedCB (snd e)).
Qed.

Lemma ready_blocks_about : forall os m fd e,
  about fd e = true ->
  In e (flat_map (fun x => if ready os x then ready_block os x else []) m) ->
  exists ci, In (fd, ci) m /\ ready os (fd, ci) = true.
Proof.
  intros os m fd e Ha H. apply in_flat_map in H. destruct H as ([k ci] & Hin & H).
  destruct (ready os (k, ci)) eqn:Er; [|contradiction].
  pose proof (about_ready_block os fd (k, ci) e H Ha) as Hk. cbn in Hk. subst k.
  eauto.
Qed.

Lemma ready_blocks_failed : forall os m f,
  In (EvCallFailed f) (flat_map (fun e => if ready os e then ready_block os e else []) m)
  <-> exists fd ci, In (fd, ci) m /\ ready os (fd, ci) = true
                    /\ isConnectSuccess os fd = false /\ failedCB ci = Some f.
Proof.
  intros os m f. rewrite in_flat_map. split.
  - intros ([k ci] & Hin & H). destruct (ready os (k, ci)) eqn:Er; [|contradiction].
    unfold ready_block, drop_TcpSocket in H. cbn [fst snd] in H.
    destruct H as [H|H]; [discriminate|].
    destruct (isConnectSuccess os k) eqn:Es.
    + destruct (successCB ci); destruct H as [H|[]]; discriminate.
    + apply in_app_or in H. destruct H as [H|[H|[]]]; [|discriminate].
      exists k, ci. repeat split; auto.
      destruct (failedCB ci) as [g|]; cbn in H; [|contradiction].
      destruct H as [H|[]]. now inversion H.
  - intros (fd & ci & Hin & Hr & Hs & Hf). exists (fd, ci). split; [assumption|].
    rewrite Hr. unfold ready_block. cbn [fst snd]. rewrite Hs, Hf. cbn. auto.
Qed.

Lemma ready_blocks_success : forall os m s fd,
  In (EvCallSuccess s fd)
     (flat_map (fun e => if ready os e then ready_block os e else []) m)
  <-> exists ci, In (fd, ci) m /\ ready os (fd, ci) = true
                 /\ isConnectSuccess os fd = true /\ successCB ci = Some s.
Proof.
  intros os m s fd. rewrite in_flat_map. split.
  - intros ([k ci] & Hin & H). destruct (ready os (k, ci)) eqn:Er; [|contradiction].
    unfold ready_block, drop_TcpSocket in H. cbn [fst snd] in H.
    destruct H as [H|H]; [discriminate|].
    destruct (isConnectSuccess os k) eqn:Es.
    + destruct (successCB ci) as [g|] eqn:Ec; destruct H as [H|[]]; [|discriminate].
      inversion H. subst. exists ci. auto.
    + apply in_app_or in H. destruct H as [H|[H|[]]]; [|discriminate].
      destruct (failedCB ci); cbn in H; [|contradiction].
      destruct H as [H|[]]. discriminate.
  - intros (ci & Hin & Hr & Hs & Hc). exists (fd, ci). split; [assumption|].
    rewrite Hr. unfold ready_block. cbn [fst snd]. rewrite Hs, Hc. cbn. auto.
Qed.

Lemma ready_blocks_callbacks : forall os m,
  filter is_callback (flat_map (fun e => if ready os e then ready_block os e else []) m)
  = flat_map (fun e => if ready os e then ready_callback os e else []) m.
Proof.
  intros os. induction m as [|e m IH]; [reflexivity|].
  cbn [flat_map]. rewrite filter_app, IH. f_equal.
  destruct (ready os e); [|reflexivity].
  unfold ready_block, ready_callback, drop_TcpSocket.
  destruct (isConnectSuccess os (fst e)).
  - now destruct (successCB (snd e)).
  - now destruct (failedCB (snd e)).
Qed.

Lemma timeout_blocks_no_success : forall (p : sock * ConnectingInfo -> bool) m s fd,
  ~ In (EvCallSuccess s fd) (flat_map (fun e => if p e then timeout_block e else []) m).
Proof.
  intros p m s fd H. apply in_flat_map in H. destruct H as ([k ci] & _ & H).
  destruct (p (k, ci)); [|contradiction].
  unfold timeout_block in H. cbn in H.
  destruct H as [H|[H|H]]; try discriminate.
  destruct (failedCB ci); cbn in H; [|contradiction].
  destruct H as [H|[]]. discriminate.
Qed.

(** What a scan does with one pending entry, expired or not. *)
Lemma checkTimeout_entry : forall now w fd ci,
  wf w ->
  StdMap.find fd (mConnectingInfos w) = Some ci ->
  let w' := fst (checkTimeout now w) in
  let t := snd (checkTimeout now w) in
  (In (EvSocketClose fd) t <-> timeout ci <= now fd - startConnectTime ci)
  /\ (timeout ci <= now fd - startConnectTime ci ->
        (exists t1 t2,
            t = t1 ++ timeout_block (fd, ci) ++ t2
            /\ ~ In (EvFdsetDel fd) (t1 ++ t2)
            /\ ~ In (EvSocketClose fd) (t1 ++ t2)
            /\ (forall f, failedCB ci = Some f -> own_failure w fd f ->
                          ~ In (EvCallFailed f) (t1 ++ t2)))
        /\ StdMap.find fd (mConnectingInfos w') = None
        /\ StdSet.mem fd (mConnectingFds w') = false
        /\ StdSet.mem fd (write_interest (mFDSet w')) = false)
  /\ (now fd - startConnectTime ci < timeout ci ->
        StdMap.find fd (mConnectingInfos w') = Some ci
        /\ StdSet.mem fd (mConnectingFds w') = true
        /\ StdSet.mem fd (write_interest (mFDSet w')) = true
        /\ ~ In (EvFdsetDel fd) t
        /\ ~ In (EvSocketClose fd) t
        /\ (forall f, failedCB ci = Some f -> own_failure w fd f ->
                      ~ In (EvCallFailed f) t))
  /\ (forall f, failedCB ci = Some f -> own_failure w fd f ->
                (In (EvCallFailed f) t <-> timeout ci <= now fd - startConnectTime ci))
  /\ filter is_callback t
     = flat_map (fun e => if expired now e then call_failed (failedCB (snd e)) else [])
         (mConnectingInfos w).
Proof.
  intros now w fd ci Hwf Hfind. cbn zeta.
  rewrite checkTimeout_spec by assumption.
  cbn [fst snd with_entries mConnectingInfos mConnectingFds mFDSet write_interest].
  destruct Hwf as (Hasc & _ & _).
  pose proof (ascending_NoDup _ Hasc) as Hnd.
  pose proof (map_find_In _ _ _ _ Hfind) as Hin.
  assert (Hexp : expired now (fd, ci) = true
                 <-> timeout ci <= now fd - startConnectTime ci).
  { unfold expired. cbn. rewrite negb_true_iff, Z.ltb_ge. reflexivity. }
  assert (Hcl : forall m',
             (forall ci', In (fd, ci') m' -> In (fd, ci') (mConnectingInfos w)) ->
             (exists ci', In (fd, ci') m' /\ expired now (fd, ci') = true)
             -> expired now (fd, ci) = true).
  { intros m' Hsub (ci' & Hin' & He).
    assert (ci' = ci) by (eapply map_entry_unique; eauto). now subst. }
  assert (Hfail : forall f, failedCB ci = Some f -> own_failure w fd f ->
             (In (EvCallFailed f)
                 (flat_map (fun e => if expired now e then timeout_block e else [])
                    (mConnectingInfos w))
              <-> expired now (fd, ci) = true)).
  { intros f Hf Hown. rewrite timeout_blocks_failed. split.
    - intros (fd' & ci' & Hin' & He & Hf').
      assert (fd' = fd) by (eapply Hown; eauto). subst fd'.
      assert (ci' = ci) by (eapply map_entry_unique; eauto). now subst.
    - intros He. eauto. }
  split; [|split; [|split; [|split]]].
  - rewrite timeout_blocks_close, <- Hexp. split.
    + apply Hcl. auto.
    + intros He. eauto.
  - intros Hle. apply Hexp in Hle. repeat split.
    + destruct (map_split_entry _ _ _ _ Hnd Hin) as (pre & post & Hm & Hpre & Hpost).
      rewrite Hm, flat_map_app. cbn [flat_map]. rewrite Hle.
      eexists _, _. split; [reflexivity|].
      assert (Hno : forall part ci', In part [pre; post] -> ~ In (fd, ci') part).
      { intros part ci' [<-|[<-|[]]] H.
        - apply Hpre. change fd with (fst (fd, ci')). now apply in_map.
        - apply Hpost. change fd with (fst (fd, ci')). now apply in_map. }
      split; [|split]; [intros H; apply in_app_or in H ..|].
      * destruct H as [H|H]; apply timeout_blocks_del in H;
          destruct H as (ci' & H & _); eapply Hno; eauto; cbn; auto.
      * destruct H as [H|H]; apply timeout_blocks_close in H;
          destruct H as (ci' & H & _); eapply Hno; eauto; cbn; auto.
      * intros f Hf Hown H. unfold own_failure in Hown. rewrite Hm in Hown.
        apply in_app_or in H.
        destruct H as [H|H]; apply timeout_blocks_failed in H;
          destruct H as (fd' & ci' & H & _ & Hf').
        -- assert (fd' = fd)
             by (apply (Hown fd' ci'); [apply in_or_app; now left | exact Hf']).
           subst fd'. eapply Hno; eauto; cbn; auto.
        -- assert (fd' = fd)
             by (apply (Hown fd' ci'); [apply in_or_app; right; now right | exact Hf']).
           subst fd'. eapply Hno; eauto; cbn; auto.
    + apply map_find_None. eapply find_filter_dropped; eauto.
      unfold live. now rewrite Hle.
    + apply set_mem_false. eapply find_filter_dropped; eauto.
      unfold live. now rewrite Hle.
    + apply set_mem_false. eapply find_filter_dropped; eauto.
      unfold live. now rewrite Hle.
  - intros Hlt.
    assert (Hlive : live now (fd, ci) = true).
    { unfold live, expired. cbn. rewrite negb_involutive.
      apply Z.ltb_lt. lia. }
    assert (Hnot : ~ expired now (fd, ci) = true).
    { unfold live in Hlive. apply negb_true_iff in Hlive. congruence. }
    pose proof (find_filter_kept _ _ _ _ Hasc Hin Hlive) as Hkept.
    assert (Hkey : In fd (StdMap.keys (filter (live now) (mConnectingInfos w)))).
    { change fd with (fst (fd, ci)). apply in_map. apply filter_In. auto. }
    split; [exact Hkept|]. split; [now apply set_mem_In|].
    split; [now apply set_mem_In|]. split; [|split].
    + rewrite timeout_blocks_del. intros H. apply Hnot. eapply Hcl; eauto.
    + rewrite timeout_blocks_close. intros H. apply Hnot. eapply Hcl; eauto.
    + intros f Hf Hown H. apply Hnot. now apply (Hfail f Hf Hown).
  - intros f Hf Hown. rewrite <- Hexp. now apply Hfail.
  - apply timeout_blocks_callbacks.
Qed.

(** C3, as the claim has it, fails in its last sentence.  A request with a
    timeout of 0 ns goes in progress on descriptor 5; the poll of the same
    iteration reports descriptor 5 writable with SO_ERROR 0, so
    [checkConnectStatus] calls [on_success]; the timeout scan that follows
    finds nothing.  The request neither completed inside [processConnect]
    nor was failed by the first timeout scan. *)
Lemma C3_zero_timeout_counterexample :
  getTimeout zero_timeout_request = 0
  /\ (let '(w1, t1) :=
         processConnect os_in_progress zero_timeout_request newConnectorWorkInfo in
       let '(w2, t2) := checkConnectStatus poll_5_connected w1 in
       let '(w3, t3) := checkTimeout (fun _ => 200) w2 in
       filter is_callback t1 = []
       /\ t2 = [EvFdsetDel 5; EvCallSuccess 1 5]
       /\ t3 = []
       /\ ~ (filter is_callback t1 <> [] \/ In (EvCallFailed 2) t3))
  /\ snd (runOnceCheckConnect iter_5_connected
            {| eventLoop := [ProcConnect zero_timeout_request];
               workerInfo := newConnectorWorkInfo;
               isRun := true |})
     = [EvSocketCreate 5; EvSocketNonblock 5; EvConnect 5 2130706433 (htons 8080);
        EvFdsetAdd 5; EvFdsetDel 5; EvCallSuccess 1 5].
Proof.
  split; [reflexivity|]. split; [|reflexivity].
  cbn. repeat split. intros [H|H]; [now apply H | exact H].
Qed.

(** C3, amended.  In a timeout scan, a pending attempt has its descriptor
    deregistered, its socket closed and then its [on_failure] called if
    and only if the time elapsed since the connect started is at least
    its timeout, each of the three once; an attempt with time left stays
    pending, unchanged, no event of the scan concerns it and its
    [on_failure] is not called.  The callbacks that a scan calls are the
    failure callbacks of the attempts whose time is up, one for each in
    ascending order of the descriptors, and no others.  (A call of a
    failure closure is attributed to an attempt when no other pending
    attempt carries the same closure.)  For a timeout of 0 ns, a request
    either completes inside [processConnect], or it is recorded, and then
    any timeout scan that still finds it pending (write-readiness has not
    completed it before) fails it; the first scan after it was
    registered in particular. *)
Theorem C3_timeout_scan_amended :
  (forall (now : sock -> time_point) (w : ConnectorWorkInfo) (fd : sock)
          (ci : ConnectingInfo),
      wf w ->
      StdMap.find fd (mConnectingInfos w) = Some ci ->
      let w' := fst (checkTimeout now w) in
      let t := snd (checkTimeout now w) in
      (In (EvSocketClose fd) t <-> timeout ci <= now fd - startConnectTime ci)
      /\ (timeout ci <= now fd - startConnectTime ci ->
            (exists t1 t2,
                t = t1 ++ [EvFdsetDel fd; EvSocketClose fd]
                       ++ call_failed (failedCB ci) ++ t2
                /\ ~ In (EvFdsetDel fd) (t1 ++ t2)
                /\ ~ In (EvSocketClose fd) (t1 ++ t2)
                /\ (forall f, failedCB ci = Some f -> own_failure w fd f ->
                              ~ In (EvCallFailed f) (t1 ++ t2)))
            /\ StdMap.find fd (mConnectingInfos w') = None
            /\ StdSet.mem fd (mConnectingFds w') = false
            /\ StdSet.mem fd (write_interest (mFDSet w')) = false)
      /\ (now fd - startConnectTime ci < timeout ci ->
            StdMap.find fd (mConnectingInfos w') = Some ci
            /\ StdSet.mem fd (mConnectingFds w') = true
            /\ StdSet.mem fd (write_interest (mFDSet w')) = true
            /\ ~ In (EvFdsetDel fd) t
            /\ ~ In (EvSocketClose fd) t
            /\ (forall f, failedCB ci = Some f -> own_failure w fd f ->
                          ~ In (EvCallFailed f) t))
      /\ (forall f, failedCB ci = Some f -> own_failure w fd f ->
            (In (EvCallFailed f) t <-> timeout ci <= now fd - startConnectTime ci))
      /\ filter is_callback t
         = flat_map (fun e => if timeout (snd e) <=? now (fst e) - startConnectTime (snd e)
                              then call_failed (failedCB (snd e)) else [])
             (mConnectingInfos w))
  /\ (forall (os : ConnectOS) (addr : AsyncConnectAddr) (w0 : ConnectorWorkInfo)
             (s f : nat),
         getSuccessCB addr = Some s ->
         getFailedCB addr = Some f ->
         getTimeout addr = 0 ->
         let fd := os_socket os in
         let ci0 := {| startConnectTime := os_now os; timeout := 0;
                       successCB := Some s; failedCB := Some f |} in
         let w1 := fst (processConnect os addr w0) in
         let t1 := snd (processConnect os addr w0) in
         (w1 = w0 /\ (In (EvCallSuccess s fd) t1 \/ In (EvCallFailed f) t1))
         \/ (filter is_callback t1 = []
             /\ StdMap.find fd (mConnectingInfos w1) = Some ci0
             /\ forall (now : sock -> time_point) (w : ConnectorWorkInfo),
                  wf w ->
                  StdMap.find fd (mConnectingInfos w) = Some ci0 ->
                  os_now os <= now fd ->
                  StdMap.find fd (mConnectingInfos (fst (checkTimeout now w))) = None
                  /\ exists t2 t3,
                       snd (checkTimeout now w)
                       = t2 ++ [EvFdsetDel fd; EvSocketClose fd; EvCallFailed f] ++ t3)).
Proof.
  split.
  - intros now w fd ci Hwf Hfind.
    destruct (checkTimeout_entry now w fd ci Hwf Hfind) as (HA & HB & HC & HD & HE).
    repeat (split; [assumption|]).
    rewrite HE. apply flat_map_ext. intros e. unfold expired.
    now rewrite Z.leb_antisym.
  - intros os addr w0 s f Hs Hf Ht fd ci0 w1 t1. subst w1 t1.
    unfold processConnect. fold fd. rewrite Hs, Hf, Ht.
    destruct (fd =? SOCKET_ERROR).
    { left. cbn. auto. }
    destruct (os_connect os =? 0).
    { left. cbn. auto 10. }
    destruct (negb (check_error =? os_errno os)).
    { left. cbn. auto 10. }
    right. cbn [fst snd mConnectingInfos]. repeat split.
    + apply map_find_insert_same.
    + destruct (checkTimeout_entry now w fd ci0 H H0) as (_ & Hexp & _).
      apply Hexp. cbn. lia.
    + destruct (checkTimeout_entry now w fd ci0 H H0) as (_ & Hexp & _).
      destruct Hexp as ((t2 & t3 & Heq & _) & _); [cbn; lia|].
      exists t2, t3. exact Heq.
Qed.

(** C3 on the recorded [zero_timeout_request]: a scan at time 200 closes
    descriptor 5, the entry is gone afterwards, and the one callback of
    the scan is the request's [on_failure]. *)
Lemma C3_timeout_scan_amended_witness :
  In (EvSocketClose 5) (snd (checkTimeout (fun _ => 200) pending_zero_timeout))
  /\ StdMap.find 5
       (mConnectingInfos (fst (checkTimeout (fun _ => 200) pending_zero_timeout)))
     = None
  /\ filter is_callback (snd (checkTimeout (fun _ => 200) pending_zero_timeout))
     = [EvCallFailed 2].
Proof.
  destruct C3_timeout_scan_amended as [HA HB].
  assert (Hwf : wf pending_zero_timeout)
    by (apply wf_processConnect, wf_new).
  split; [|split;
           [|exact (proj2 (proj2 (proj2 (proj2
               (HA (fun _ => 200) pending_zero_timeout 5
                   {| startConnectTime := 100; timeout := 0;
                      successCB := Some 1%nat; failedCB := Some 2%nat |}
                   Hwf eq_refl)))))]].
  - apply (HA (fun _ => 200) pending_zero_timeout 5
              {| startConnectTime := 100; timeout := 0;
                 successCB := Some 1%nat; failedCB := Some 2%nat |} Hwf eq_refl).
    cbn. lia.
  - destruct (HB os_in_progress zero_timeout_request newConnectorWorkInfo 1%nat 2%nat
                eq_refl eq_refl eq_refl) as [[_ [H|H]]|(_ & _ & H)].
    + cbn in H. repeat destruct H as [H|H]; try discriminate; contradiction.
    + cbn in H. repeat destruct H as [H|H]; try discriminate; contradiction.
    + apply (H (fun _ => 200) pending_zero_timeout Hwf eq_refl). cbn. lia.
Defined.

(** ** Readiness before the deadline scan *)

Lemma ready_blocks_del : forall os m fd,
  In (EvFdsetDel fd) (flat_map (fun e => if ready os e then ready_block os e else []) m)
  <-> exists ci, In (fd, ci) m /\ ready os (fd, ci) = true.
Proof.
  intros os m fd. rewrite in_flat_map. split.
  - intros ([k ci] & Hin & H). destruct (ready os (k, ci)) eqn:Ep; [|contradiction].
    unfold ready_block, drop_TcpSocket in H. cbn [fst snd] in H.
    destruct H as [H|H].
    + inversion H. subst. eauto.
    + exfalso. destruct (isConnectSuccess os k).
      * destruct (successCB ci); cbn in H; intuition discriminate.
      * apply in_app_or in H. destruct H as [H|H].
        -- apply In_call_failed in H. discriminate.
        -- cbn in H. intuition discriminate.
  - intros (ci & Hin & Hp). exists (fd, ci). split; [assumption|].
    rewrite Hp. cbn. auto.
Qed.

Lemma runOnceCheckConnect_unfold : forall os wk run w1 t1,
  runAsyncProcs (it_connect os) 0 (eventLoop wk) (isRun wk) (workerInfo wk)
  = (run, w1, t1) ->
  runOnceCheckConnect os wk
  = ({| eventLoop := [];
        workerInfo := fst (checkTimeout (it_now os)
                             (fst (checkConnectStatus (it_poll os) w1)));
        isRun := run |},
     t1 ++ snd (checkConnectStatus (it_poll os) w1)
        ++ snd (checkTimeout (it_now os)
                  (fst (checkConnectStatus (it_poll os) w1)))).
Proof.
  intros os wk run w1 t1 H. unfold runOnceCheckConnect. rewrite H.
  destruct (checkConnectStatus (it_poll os) w1) as [w2 t2]. cbn [fst snd].
  destruct (checkTimeout (it_now os) w2) as [w3 t3]. reflexivity.
Qed.

Lemma isConnectSuccess_ready : forall os fd,
  ox_fdset_check os fd = true ->
  (isConnectSuccess os fd = true <-> so_error os fd = Some 0).
Proof.
  intros os fd H. unfold isConnectSuccess. rewrite H. cbn [negb].
  destruct (so_error os fd) as [e|]; split; intros H'; try discriminate.
  - apply Z.eqb_eq in H'. now subst.
  - now inversion H'.
Qed.

(** C4. In an iteration of the worker, [checkConnectStatus] runs before
    [checkTimeout].  So when, after the event loop has run, a pending
    descriptor is reported ready for writing by the poll and is also past
    its deadline, the iteration's trace is that of the event loop, then
    that of the readiness pass, then that of the scan; the readiness pass
    deregisters the descriptor and calls [on_success] with the socket
    when SO_ERROR reads 0, and calls [on_failure] and closes the socket
    exactly when SO_ERROR is not 0 or [getsockopt] fails; the scan that
    follows has no event for this descriptor, and the entry is gone when
    the iteration ends.  Over the whole of the readiness pass and the
    scan, a success callback is called with this descriptor exactly when
    it is the attempt's own and SO_ERROR reads 0, and the attempt's
    [on_failure] is called exactly when SO_ERROR does not read 0, by the
    readiness pass and never by the scan, and not a second time.  The
    callbacks of the readiness pass are one for each ready attempt, and
    those of the scan one failure callback for each attempt that the
    readiness pass left and whose time is up, and no others.  (A call
    of a failure closure is attributed to an attempt when no other
    pending attempt carries the same closure.) *)
Theorem C4_readiness_wins :
  forall (os : IterOS) (wk : Worker) (run : bool) (w1 : ConnectorWorkInfo)
         (t1 : trace) (fd : sock) (ci : ConnectingInfo),
    runAsyncProcs (it_connect os) 0 (eventLoop wk) (isRun wk) (workerInfo wk)
    = (run, w1, t1) ->
    wf w1 ->
    StdMap.find fd (mConnectingInfos w1) = Some ci ->
    0 < poll_ret (it_poll os) ->
    ox_fdset_check (it_poll os) fd = true ->
    timeout ci <= it_now os fd - startConnectTime ci ->
    let t2 := snd (checkConnectStatus (it_poll os) w1) in
    let w2 := fst (checkConnectStatus (it_poll os) w1) in
    let t3 := snd (checkTimeout (it_now os) w2) in
    snd (runOnceCheckConnect os wk) = t1 ++ t2 ++ t3
    /\ (exists a b,
          t2 = a ++ EvFdsetDel fd ::
                 (if match so_error (it_poll os) fd with
                     | Some e => e =? 0
                     | None => false
                     end
                  then match successCB ci with
                       | Some cb => [EvCallSuccess cb fd]
                       | None => [EvSocketClose fd]
                       end
                  else call_failed (failedCB ci) ++ [EvSocketClose fd]) ++ b
          /\ ~ In (EvFdsetDel fd) (a ++ b)
          /\ ~ In (EvSocketClose fd) (a ++ b)
          /\ (forall s, ~ In (EvCallSuccess s fd) (a ++ b))
          /\ (forall f, failedCB ci = Some f -> own_failure w1 fd f ->
                        ~ In (EvCallFailed f) (a ++ b)))
    /\ ~ In (EvFdsetDel fd) t3
    /\ ~ In (EvSocketClose fd) t3
    /\ StdMap.find fd (mConnectingInfos (workerInfo (fst (runOnceCheckConnect os wk))))
       = None
    /\ (forall s, In (EvCallSuccess s fd) (t2 ++ t3)
                  <-> successCB ci = Some s /\ so_error (it_poll os) fd = Some 0)
    /\ (forall f, failedCB ci = Some f -> own_failure w1 fd f ->
          (In (EvCallFailed f) (t2 ++ t3) <-> so_error (it_poll os) fd <> Some 0)
          /\ ~ In (EvCallFailed f) t3)
    /\ filter is_callback t2
       = flat_map (fun e => if ox_fdset_check (it_poll os) (fst e)
                            then ready_callback (it_poll os) e else [])
           (mConnectingInfos w1)
    /\ filter is_callback t3
       = flat_map (fun e => if timeout (snd e)
                                 <=? it_now os (fst e) - startConnectTime (snd e)
                            then call_failed (failedCB (snd e)) else [])
           (mConnectingInfos w2)
    /\ StdMap.find fd (mConnectingInfos w2) = None.
Proof.
  intros os wk run w1 t1 fd ci Hloop Hwf Hfind Hpoll Hready Hpast t2 w2 t3.
  subst t2 w2 t3.
  rewrite (runOnceCheckConnect_unfold _ _ _ _ _ Hloop).
  cbn [fst snd workerInfo].
  rewrite checkConnectStatus_spec by assumption. cbn [fst snd].
  pose proof Hwf as (Hasc & _ & _).
  pose proof (ascending_NoDup _ Hasc) as Hnd.
  pose proof (map_find_In _ _ _ _ Hfind) as Hin.
  set (m2 := filter (fun e => negb (ready (it_poll os) e)) (mConnectingInfos w1)).
  assert (Hgone : ~ In fd (StdMap.keys m2)).
  { eapply find_filter_dropped; eauto. unfold ready. cbn. now rewrite Hready. }
  assert (Hwf2 : wf (with_entries m2)) by now apply wf_filter.
  rewrite checkTimeout_spec by assumption.
  cbn [fst snd with_entries mConnectingInfos].
  assert (Hno : forall ci', ~ In (fd, ci') (filter (live (it_now os)) m2)).
  { intros ci' H. apply filter_In in H. destruct H as [H _]. apply Hgone.
    change fd with (fst (fd, ci')). now apply in_map. }
  assert (Hr : ready (it_poll os) (fd, ci) = true) by exact Hready.
  pose proof (isConnectSuccess_ready (it_poll os) fd Hready) as Hsucc.
  assert (Hnot3 : forall f, failedCB ci = Some f -> own_failure w1 fd f ->
            ~ In (EvCallFailed f)
                (flat_map (fun e => if expired (it_now os) e then timeout_block e else [])
                   m2)).
  { intros f Hf Hown H. apply timeout_blocks_failed in H.
    destruct H as (fd' & ci' & H & _ & Hf').
    assert (H1 : In (fd', ci') (mConnectingInfos w1))
      by (unfold m2 in H; apply filter_In in H; tauto).
    assert (fd' = fd) by (eapply Hown; eauto). subst fd'.
    apply Hgone. change fd with (fst (fd, ci')). now apply in_map. }
  assert (Hfind2 : StdMap.find fd m2 = None) by now apply map_find_None.
  repeat match goal with |- _ /\ _ => split end.
  - reflexivity.
  - destruct (map_split_entry _ _ _ _ Hnd Hin) as (pre & post & Hm & Hpre & Hpost).
    assert (Hblock : ready_block (it_poll os) (fd, ci)
                     = EvFdsetDel fd ::
                         (if match so_error (it_poll os) fd with
                             | Some e => e =? 0
                             | None => false
                             end
                          then match successCB ci with
                               | Some cb => [EvCallSuccess cb fd]
                               | None => [EvSocketClose fd]
                               end
                          else call_failed (failedCB ci) ++ [EvSocketClose fd])).
    { unfold ready_block, isConnectSuccess, drop_TcpSocket. cbn [fst snd].
      now rewrite Hready. }
    rewrite Hm, flat_map_app. cbn [flat_map]. rewrite Hr, Hblock.
    eexists _, _. split; [reflexivity|].
    assert (Hparts : forall e, about fd e = true ->
              ~ In e (flat_map (fun x => if ready (it_poll os) x
                                         then ready_block (it_poll os) x else []) pre
                      ++ flat_map (fun x => if ready (it_poll os) x
                                            then ready_block (it_poll os) x else []) post)).
    { intros e Ha H. apply in_app_or in H.
      destruct H as [H|H]; apply (ready_blocks_about _ _ fd e Ha) in H;
        destruct H as (ci' & H & _).
      - apply Hpre. change fd with (fst (fd, ci')). now apply in_map.
      - apply Hpost. change fd with (fst (fd, ci')). now apply in_map. }
    repeat match goal with |- _ /\ _ => split end.
    + apply Hparts. cbn. apply Z.eqb_refl.
    + apply Hparts. cbn. apply Z.eqb_refl.
    + intros s. apply Hparts. cbn. apply Z.eqb_refl.
    + intros f Hf Hown H. unfold own_failure in Hown. rewrite Hm in Hown.
      apply in_app_or in H.
      destruct H as [H|H]; apply ready_blocks_failed in H;
        destruct H as (fd' & ci' & H & _ & _ & Hf').
      * assert (fd' = fd)
          by (apply (Hown fd' ci'); [apply in_or_app; now left | exact Hf']).
        subst fd'. apply Hpre. change fd with (fst (fd, ci')). now apply in_map.
      * assert (fd' = fd)
          by (apply (Hown fd' ci'); [apply in_or_app; right; now right | exact Hf']).
        subst fd'. apply Hpost. change fd with (fst (fd, ci')). now apply in_map.
  - rewrite timeout_blocks_del. intros (ci' & H & _).
    apply Hgone. change fd with (fst (fd, ci')). now apply in_map.
  - rewrite timeout_blocks_close. intros (ci' & H & _).
    apply Hgone. change fd with (fst (fd, ci')). now apply in_map.
  - apply map_find_None. intros H. apply map_keys_filter_In in H. auto.
  - intros s. rewrite in_app_iff, ready_blocks_success. split.
    + intros [(ci' & H & _ & Hs & Hc)|H].
      * assert (ci' = ci) by (eapply map_entry_unique; eauto). subst ci'.
        split; [exact Hc | now apply Hsucc].
      * exfalso. exact (timeout_blocks_no_success _ _ _ _ H).
    + intros [Hc Hs]. left. exists ci. repeat split; auto. now apply Hsucc.
  - intros f Hf Hown. split; [|now apply Hnot3].
    rewrite in_app_iff, ready_blocks_failed. split.
    + intros [(fd' & ci' & H & _ & Hs & Hf')|H].
      * assert (fd' = fd) by (eapply Hown; eauto). subst fd'.
        intros Hz. apply Hsucc in Hz. congruence.
      * exfalso. exact (Hnot3 f Hf Hown H).
    + intros Hz. left. exists fd, ci. repeat split; auto.
      destruct (isConnectSuccess (it_poll os) fd) eqn:Es; [|reflexivity].
      exfalso. apply Hz. now apply Hsucc.
  - apply ready_blocks_callbacks.
  - rewrite timeout_blocks_callbacks. apply flat_map_ext. intros e. unfold expired.
    now rewrite Z.leb_antisym.
  - exact Hfind2.
Qed.

(** C4 on [pending_zero_timeout]: descriptor 5 is connected and past its
    deadline at time 200; the iteration calls [on_success], and the
    request's [on_failure] is not called, by the readiness pass or by
    the scan. *)
Lemma C4_readiness_wins_witness :
  snd (runOnceCheckConnect iter_5_connected
         {| eventLoop := []; workerInfo := pending_zero_timeout; isRun := true |})
  = [] ++ snd (checkConnectStatus poll_5_connected pending_zero_timeout)
       ++ snd (checkTimeout (fun _ => 200)
                 (fst (checkConnectStatus poll_5_connected pending_zero_timeout)))
  /\ In (EvCallSuccess 1 5)
        (snd (checkConnectStatus poll_5_connected pending_zero_timeout)
         ++ snd (checkTimeout (fun _ => 200)
                   (fst (checkConnectStatus poll_5_connected pending_zero_timeout))))
  /\ ~ In (EvCallFailed 2)
        (snd (checkConnectStatus poll_5_connected pending_zero_timeout)
         ++ snd (checkTimeout (fun _ => 200)
                   (fst (checkConnectStatus poll_5_connected pending_zero_timeout)))).
Proof.
  assert (Hwf : wf pending_zero_timeout)
    by (apply wf_processConnect, wf_new).
  assert (Hpoll : 0 < poll_ret (it_poll iter_5_connected)) by (cbn; lia).
  assert (Hpast : timeout {| startConnectTime := 100; timeout := 0;
                             successCB := Some 1%nat; failedCB := Some 2%nat |}
                  <= it_now iter_5_connected 5
                     - startConnectTime {| startConnectTime := 100; timeout := 0;
                                           successCB := Some 1%nat;
                                           failedCB := Some 2%nat |})
    by (cbn; lia).
  destruct (C4_readiness_wins iter_5_connected
              {| eventLoop := []; workerInfo := pending_zero_timeout;
                 isRun := true |}
              true pending_zero_timeout [] 5
              {| startConnectTime := 100; timeout := 0;
                 successCB := Some 1%nat; failedCB := Some 2%nat |}
              eq_refl Hwf eq_refl Hpoll eq_refl Hpast)
    as (Htrace & _ & _ & _ & _ & Hsuccess & Hfailure & _).
  split; [exact Htrace|]. split.
  - apply Hsuccess. split; reflexivity.
  - intros H.
    assert (Hown : own_failure pending_zero_timeout 5 2).
    { intros fd' ci' [Heq|[]] _. now inversion Heq. }
    apply (proj1 (Hfailure 2%nat eq_refl Hown)) in H. now apply H.
Defined.

(** The four ways [processConnect] can go. *)
Lemma processConnect_cases : forall os addr w,
  let fd := os_socket os in
  (fd = SOCKET_ERROR
   /\ processConnect os addr w
      = (w, [EvSocketCreate fd] ++ call_failed (getFailedCB addr)))
  \/ (fd <> SOCKET_ERROR /\ exists a p,
        let pre := [EvSocketCreate fd; EvSocketNonblock fd; EvConnect fd a p] in
        processConnect os addr w
        = (w, pre ++ call_success (getSuccessCB addr) fd)
        \/ processConnect os addr w
           = (w, pre ++ [EvSocketClose fd] ++ call_failed (getFailedCB addr))
        \/ processConnect os addr w
           = ({| mConnectingInfos :=
                   StdMap.insert fd
                     {| startConnectTime := os_now os;
                        timeout := getTimeout addr;
                        successCB := getSuccessCB addr;
                        failedCB := getFailedCB addr |} (mConnectingInfos w);
                 mConnectingFds := StdSet.insert fd (mConnectingFds w);
                 mFDSet := ox_fdset_add fd (mFDSet w) |},
              pre ++ [EvFdsetAdd fd])).
Proof.
  intros os addr w fd. unfold processConnect. fold fd.
  destruct (fd =? SOCKET_ERROR) eqn:E.
  - left. apply Z.eqb_eq in E. auto.
  - right. apply Z.eqb_neq in E. split; [assumption|].
    eexists _, _. cbn zeta.
    destruct (os_connect os =? 0); [left; reflexivity|].
    destruct (negb (check_error =? os_errno os)); [right; left; reflexivity|].
    right; right; reflexivity.
Qed.

(** ** Shutdown *)

Lemma wf_runAsyncProcs : forall os procs i run w,
  wf w -> wf (snd (fst (runAsyncProcs os i procs run w))).
Proof.
  induction procs as [|[a|] rest IH]; intros i run w Hwf; cbn.
  - assumption.
  - pose proof (wf_processConnect (os i) a w Hwf) as H1.
    destruct (processConnect (os i) a w) as [w1 t1]. cbn in H1.
    specialize (IH (S i) run w1 H1).
    destruct (runAsyncProcs os (S i) rest run w1) as [[run' w2] t2]. exact IH.
  - apply IH. assumption.
Qed.

Lemma runAsyncProcs_flag : forall os procs i run w,
  fst (fst (runAsyncProcs os i procs run w)) = run && negb (has_stop procs).
Proof.
  induction procs as [|[a|] rest IH]; intros i run w; cbn.
  - now rewrite andb_true_r.
  - destruct (processConnect (os i) a w) as [w1 t1].
    specialize (IH (S i) run w1).
    destruct (runAsyncProcs os (S i) rest run w1) as [[run' w2] t2]. exact IH.
  - rewrite IH. cbn. now rewrite andb_false_r.
Qed.

Lemma has_stop_push : forall loop, has_stop (pushAsyncProc ProcStop loop) = true.
Proof.
  unfold pushAsyncProc. induction loop as [|[a|] rest IH]; cbn; auto.
Qed.

Lemma wf_runOnceCheckConnect : forall os wk,
  wf (workerInfo wk) -> wf (workerInfo (fst (runOnceCheckConnect os wk))).
Proof.
  intros os wk Hwf. unfold runOnceCheckConnect.
  pose proof (wf_runAsyncProcs (it_connect os) (eventLoop wk) 0 (isRun wk) _ Hwf) as H1.
  destruct (runAsyncProcs (it_connect os) 0 (eventLoop wk) (isRun wk) (workerInfo wk))
    as [[run w1] t1]. cbn in H1.
  pose proof (wf_checkConnectStatus (it_poll os) w1 H1) as H2.
  destruct (checkConnectStatus (it_poll os) w1) as [w2 t2]. cbn in H2.
  pose proof (wf_checkTimeout (it_now os) w2 H2) as H3.
  destruct (checkTimeout (it_now os) w2) as [w3 t3]. exact H3.
Qed.

Lemma runOnceCheckConnect_flag : forall os wk,
  isRun (fst (runOnceCheckConnect os wk)) = isRun wk && negb (has_stop (eventLoop wk))
  /\ eventLoop (fst (runOnceCheckConnect os wk)) = [].
Proof.
  intros os wk. unfold runOnceCheckConnect.
  pose proof (runAsyncProcs_flag (it_connect os) (eventLoop wk) 0 (isRun wk)
                (workerInfo wk)) as H1.
  destruct (runAsyncProcs (it_connect os) 0 (eventLoop wk) (isRun wk) (workerInfo wk))
    as [[run w1] t1]. cbn in H1.
  destruct (checkConnectStatus (it_poll os) w1) as [w2 t2].
  destruct (checkTimeout (it_now os) w2) as [w3 t3]. cbn. auto.
Qed.

(** Every [processConnect] starts with exactly one [SocketCreate]. *)
Lemma runAsyncProcs_creates : forall os procs i run w,
  List.length (filter is_create (snd (runAsyncProcs os i procs run w)))
  = List.length (requests procs).
Proof.
  induction procs as [|[a|] rest IH]; intros i run w; cbn.
  - reflexivity.
  - destruct (processConnect (os i) a w) as [w1 t1] eqn:E.
    specialize (IH (S i) run w1).
    destruct (runAsyncProcs os (S i) rest run w1) as [[run' w2] t2]. cbn in *.
    rewrite filter_app, length_app, IH. f_equal.
    destruct (processConnect_cases (os i) a w) as [[_ H]|[_ (x & p & [H|[H|H]])]];
      rewrite H in E; inversion E; subst; clear;
      try destruct (getFailedCB a); try destruct (getSuccessCB a); reflexivity.
  - apply IH.
Qed.

Lemma causeAllFailed_entry : forall w fd ci,
  wf w ->
  StdMap.find fd (mConnectingInfos w) = Some ci ->
  exists a b,
    snd (causeAllFailed w)
    = a ++ [EvFdsetDel fd; EvSocketClose fd] ++ call_failed (failedCB ci) ++ b.
Proof.
  intros w fd ci Hwf Hfind. rewrite causeAllFailed_spec by assumption. cbn [snd].
  apply map_find_In, in_split in Hfind. destruct Hfind as (pre & post & ->).
  rewrite flat_map_app. cbn [flat_map]. eexists _, _. reflexivity.
Qed.

Lemma filter_flat_map_nil : forall (A B : Type) (p : B -> bool) (f : A -> list B) l,
  (forall a, In a l -> filter p (f a) = []) -> filter p (flat_map f l) = [].
Proof.
  induction l as [|a l IH]; cbn; intros H; [reflexivity|].
  rewrite filter_app, H, IH; auto.
Qed.

Lemma no_create_call_failed : forall cb, filter is_create (call_failed cb) = [].
Proof. now intros [f|]. Qed.

Lemma no_create_timeout_block : forall e, filter is_create (timeout_block e) = [].
Proof. intros e. unfold timeout_block. cbn. apply no_create_call_failed. Qed.

Lemma no_create_ready_block : forall os e, filter is_create (ready_block os e) = [].
Proof.
  intros os e. unfold ready_block, drop_TcpSocket. cbn.
  destruct (isConnectSuccess os (fst e)).
  - now destruct (successCB (snd e)).
  - rewrite filter_app, no_create_call_failed. reflexivity.
Qed.

Lemma no_create_checkConnectStatus : forall os w,
  wf w -> filter is_create (snd (checkConnectStatus os w)) = [].
Proof.
  intros os w Hwf. destruct (Z_le_gt_dec (poll_ret os) 0) as [H|H].
  - now rewrite checkConnectStatus_idle.
  - rewrite checkConnectStatus_spec by (assumption || lia). cbn [snd].
    apply filter_flat_map_nil. intros e _.
    destruct (ready os e); [apply no_create_ready_block | reflexivity].
Qed.

Lemma no_create_checkTimeout : forall now w,
  wf w -> filter is_create (snd (checkTimeout now w)) = [].
Proof.
  intros now w Hwf. rewrite checkTimeout_spec by assumption. cbn [snd].
  apply filter_flat_map_nil. intros e _.
  destruct (expired now e); [apply no_create_timeout_block | reflexivity].
Qed.

Lemma runOnceCheckConnect_creates : forall os wk,
  wf (workerInfo wk) ->
  List.length (filter is_create (snd (runOnceCheckConnect os wk)))
  = List.length (requests (eventLoop wk)).
Proof.
  intros os wk Hwf. unfold runOnceCheckConnect.
  pose proof (runAsyncProcs_creates (it_connect os) (eventLoop wk) 0 (isRun wk)
                (workerInfo wk)) as Hc.
  pose proof (wf_runAsyncProcs (it_connect os) (eventLoop wk) 0 (isRun wk) _ Hwf) as H1.
  destruct (runAsyncProcs (it_connect os) 0 (eventLoop wk) (isRun wk) (workerInfo wk))
    as [[run w1] t1]. cbn [fst snd] in *.
  pose proof (no_create_checkConnectStatus (it_poll os) w1 H1) as Hn2.
  pose proof (wf_checkConnectStatus (it_poll os) w1 H1) as H2.
  destruct (checkConnectStatus (it_poll os) w1) as [w2 t2]. cbn [fst snd] in *.
  pose proof (no_create_checkTimeout (it_now os) w2 H2) as Hn3.
  destruct (checkTimeout (it_now os) w2) as [w3 t3]. cbn [fst snd] in *.
  rewrite !filter_app, Hn2, Hn3, !app_nil_r. exact Hc.
Qed.

Lemma requests_push_stop : forall loop,
  requests (pushAsyncProc ProcStop loop) = requests loop.
Proof.
  unfold pushAsyncProc. induction loop as [|[a|] rest IH]; cbn; congruence.
Qed.

(** C5. [stopWorkerThread] on a started connector, with [w] the worker's
    pending attempts and [loop] the requests still queued: the stop
    closure is queued behind them, and the worker is joined.  The
    worker's next iteration runs every queued request and then the stop
    closure, the loop exits, and [causeAllFailed] runs on what is still
    pending: each such entry has its descriptor deregistered, its socket
    closed and its [on_failure] called, and nothing is left pending or
    queued.  [stopWorkerThread] returns only after that, with all four
    members reset. *)
Theorem C5_stop_fails_all_pending :
  forall (c : AsyncConnector) (loop : EventLoop) (w : ConnectorWorkInfo)
         (os : IterOS) (rest : list IterOS),
    mThread c = Some Joinable ->
    mIsRun c = Some true ->
    mWorkInfo c = Some w ->
    mEventLoop c = Some loop ->
    wf w ->
    let wk := {| eventLoop := pushAsyncProc ProcStop loop;
                 workerInfo := w; isRun := true |} in
    let last := runOnceCheckConnect os wk in
    let w_exit := workerInfo (fst last) in
    let t := snd last ++ snd (causeAllFailed w_exit) in
    (* the last iteration ran all that was queued and cleared the flag *)
    isRun (fst last) = false
    /\ eventLoop (fst last) = []
    /\ List.length (filter is_create (snd last)) = List.length (requests loop)
    (* the worker thread ends, with nothing pending *)
    /\ workerThread (map (fun o => ([], o)) (os :: rest)) wk
       = Some ({| eventLoop := []; workerInfo := newConnectorWorkInfo;
                  isRun := false |}, t)
    (* every entry still pending when the loop exits is failed *)
    /\ (forall fd ci,
          StdMap.find fd (mConnectingInfos w_exit) = Some ci ->
          exists a b,
            snd (causeAllFailed w_exit)
            = a ++ [EvFdsetDel fd; EvSocketClose fd]
                ++ call_failed (failedCB ci) ++ b)
    (* and only then does stopWorkerThread return *)
    /\ stopWorkerThread (os :: rest) c = Returned (stopped_connector, t).
Proof.
  intros c loop w os rest Hth Hrun Hw Hloop Hwf wk last w_exit t.
  assert (Hwf_exit : wf w_exit) by (apply wf_runOnceCheckConnect; exact Hwf).
  destruct (runOnceCheckConnect_flag os wk) as [Hflag Hqueue].
  fold last in Hflag, Hqueue.
  assert (Hflag' : isRun (fst last) = false).
  { rewrite Hflag. cbn. now rewrite has_stop_push. }
  assert (Hthread : workerThread (map (fun o => ([], o)) (os :: rest)) wk
                    = Some ({| eventLoop := []; workerInfo := newConnectorWorkInfo;
                               isRun := false |}, t)).
  { unfold workerThread. cbn [map workerLoop isRun wk eventLoop workerInfo].
    rewrite app_nil_r. fold wk. fold last.
    destruct last as [wk1 t1] eqn:Elast. cbn [fst snd] in *.
    destruct rest; cbn [map workerLoop]; rewrite Hflag';
      subst t w_exit; cbn [fst snd];
      rewrite (causeAllFailed_spec (workerInfo wk1)) by assumption;
      cbn [fst snd]; rewrite Hqueue, Hflag', app_nil_r; reflexivity. }
  repeat split.
  - exact Hflag'.
  - exact Hqueue.
  - unfold last. rewrite runOnceCheckConnect_creates by exact Hwf.
    cbn. apply f_equal, requests_push_stop.
  - exact Hthread.
  - intros fd ci Hfind. now apply causeAllFailed_entry.
  - unfold stopWorkerThread. rewrite Hth, Hloop, Hrun, Hw.
    fold wk. rewrite Hthread. reflexivity.
Qed.

(** C5 on two connectors: one whose worker holds [sample_request] pending
    on descriptor 5, and one on which the request is still queued when
    [stopWorkerThread] is called.  Either way the request is failed
    before the call returns. *)
Lemma C5_stop_fails_all_pending_witness :
  mWorkInfo connector_with_pending = Some pending_sample
  /\ stopWorkerThread [iter_quiet] connector_with_pending
     = Returned (stopped_connector,
                 [EvFdsetDel 5; EvSocketClose 5; EvCallFailed 2])
  /\ stopWorkerThread [iter_quiet] connector_with_request
     = Returned (stopped_connector,
                 [EvSocketCreate 5; EvSocketNonblock 5;
                  EvConnect 5 2130706433 (htons 8080); EvFdsetAdd 5;
                  EvFdsetDel 5; EvSocketClose 5; EvCallFailed 2]).
Proof.
  assert (Hwf : wf pending_sample) by (apply wf_processConnect, wf_new).
  split; [reflexivity|]. split.
  - destruct (C5_stop_fails_all_pending connector_with_pending
                [] pending_sample iter_quiet []
                eq_refl eq_refl eq_refl eq_refl Hwf)
      as (_ & _ & _ & _ & _ & H).
    exact H.
  - destruct (C5_stop_fails_all_pending connector_with_request
                [ProcConnect sample_request] newConnectorWorkInfo iter_quiet []
                eq_refl eq_refl eq_refl eq_refl wf_new)
      as (_ & _ & _ & _ & _ & H).
    exact H.
Defined.

(** ** Calls and pending entries are conserved *)

Section Conservation.

Variable psi : Event -> bool.
Variable phi : sock * ConnectingInfo -> bool.
Hypothesis psi_callback : forall e, psi e = true -> is_callback e = true.

Lemma psi_not_callback : forall e, is_callback e = false -> psi e = false.
Proof.
  intros e H. destruct (psi e) eqn:E; [|reflexivity].
  apply psi_callback in E. congruence.
Qed.

Lemma count_timeout_block : forall e,
  balanced psi phi e ->
  List.length (filter psi (timeout_block e)) = if phi e then 1%nat else 0%nat.
Proof.
  intros [fd ci] [_ Hf]. unfold timeout_block. cbn [fst snd app] in *.
  cbn [filter]. rewrite !psi_not_callback by reflexivity.
  destruct (failedCB ci) as [cb|]; cbn.
  - rewrite Hf. now destruct (phi (fd, ci)).
  - now rewrite Hf.
Qed.

Lemma count_ready_block : forall os e,
  balanced psi phi e ->
  List.length (filter psi (ready_block os e)) = if phi e then 1%nat else 0%nat.
Proof.
  intros os [fd ci] [Hs Hf]. unfold ready_block, drop_TcpSocket. cbn [fst snd] in *.
  cbn [filter]. rewrite psi_not_callback by reflexivity.
  destruct (isConnectSuccess os fd).
  - destruct (successCB ci) as [cb|]; cbn.
    + rewrite Hs. now destruct (phi (fd, ci)).
    + rewrite psi_not_callback by reflexivity. now rewrite Hs.
  - rewrite filter_app. cbn [filter]. rewrite psi_not_callback by reflexivity.
    rewrite app_nil_r.
    destruct (failedCB ci) as [cb|]; cbn.
    + rewrite Hf. now destruct (phi (fd, ci)).
    + now rewrite Hf.
Qed.

Lemma count_dropped : forall (drop : sock * ConnectingInfo -> bool)
    (block : sock * ConnectingInfo -> trace) m,
  (forall e, In e m ->
     List.length (filter psi (block e)) = if phi e then 1%nat else 0%nat) ->
  (List.length (filter psi (flat_map (fun e => if drop e then block e else []) m))
   + List.length (filter phi (filter (fun e => negb (drop e)) m)))%nat
  = List.length (filter phi m).
Proof.
  induction m as [|e m IH]; intros Hb; [reflexivity|].
  cbn [flat_map filter]. rewrite filter_app, length_app.
  specialize (IH (fun x Hx => Hb x (or_intror Hx))).
  pose proof (Hb e (or_introl eq_refl)) as He.
  destruct (drop e); cbn [negb filter].
  - rewrite He. destruct (phi e); cbn [List.length]; lia.
  - destruct (phi e); cbn [List.length]; lia.
Qed.

End Conservation.

(** ** Descriptors held by the worker *)

Lemma held_app : forall t1 t2 S, held S (t1 ++ t2) = held (held S t1) t2.
Proof. induction t1 as [|e t1 IH]; intros t2 S; cbn; auto. Qed.

Lemma fresh_descriptors_app : forall t1 t2 S,
  fresh_descriptors S (t1 ++ t2)
  = fresh_descriptors S t1 && fresh_descriptors (held S t1) t2.
Proof.
  induction t1 as [|e t1 IH]; intros t2 S; cbn; [reflexivity|].
  rewrite IH. now rewrite andb_assoc.
Qed.

Lemma held_keeps : forall t S k,
  In k S -> (forall e, In e t -> releases k e = false) -> In k (held S t).
Proof.
  induction t as [|e t IH]; intros S k Hk Hrel; [assumption|].
  cbn. apply IH; [|intros x Hx; apply Hrel; now right].
  pose proof (Hrel e (or_introl eq_refl)) as He.
  destruct e; cbn in *; try assumption.
  - destruct (result =? SOCKET_ERROR); [assumption | now right].
  - apply in_in_remove; [|assumption]. apply Z.eqb_neq in He. congruence.
  - apply in_in_remove; [|assumption]. apply Z.eqb_neq in He. congruence.
Qed.

Lemma releases_call_failed : forall k cb e,
  In e (call_failed cb) -> releases k e = false.
Proof. intros k [f|] e H; cbn in H; [destruct H as [<-|[]]; reflexivity | contradiction]. Qed.

Lemma releases_timeout_block : forall k x e,
  In e (timeout_block x) -> releases k e = true -> fst x = k.
Proof.
  intros k [fd ci] e H Hr. unfold timeout_block in H. cbn in H.
  destruct H as [<-|[<-|H]]; cbn in Hr.
  - discriminate.
  - now apply Z.eqb_eq in Hr.
  - rewrite (releases_call_failed k _ _ H) in Hr. discriminate.
Qed.

Lemma releases_ready_block : forall os k x e,
  In e (ready_block os x) -> releases k e = true -> fst x = k.
Proof.
  intros os k [fd ci] e H Hr. unfold ready_block, drop_TcpSocket in H. cbn [fst snd] in H.
  destruct H as [<-|H]; [discriminate|].
  destruct (isConnectSuccess os fd).
  - destruct (successCB ci); destruct H as [<-|[]]; cbn in Hr; now apply Z.eqb_eq in Hr.
  - apply in_app_or in H. destruct H as [H|[<-|[]]].
    + rewrite (releases_call_failed k _ _ H) in Hr. discriminate.
    + cbn in Hr. now apply Z.eqb_eq in Hr.
Qed.

(** Dropping entries releases only the descriptors of the dropped entries,
    so what stays pending stays held. *)
Lemma held_dropped : forall (drop : sock * ConnectingInfo -> bool)
    (block : sock * ConnectingInfo -> trace) m S k,
  NoDup (StdMap.keys m) ->
  (forall x e, In e (block x) -> releases k e = true -> fst x = k) ->
  In k (StdMap.keys (filter (fun e => negb (drop e)) m)) ->
  In k S ->
  In k (held S (flat_map (fun e => if drop e then block e else []) m)).
Proof.
  intros drop block m S k Hnd Hblock Hk HS. apply held_keeps; [assumption|].
  intros e He. destruct (releases k e) eqn:Hr; [exfalso | reflexivity].
  apply in_flat_map in He. destruct He as ([fd ci] & Hx & He).
  destruct (drop (fd, ci)) eqn:Hd; [|contradiction].
  apply (Hblock _ _ He) in Hr. cbn in Hr. subst fd.
  apply in_map_iff in Hk. destruct Hk as ([k' ci'] & Hk' & Hin). cbn in Hk'. subst k'.
  apply filter_In in Hin. destruct Hin as [Hin Hkeep].
  assert (ci' = ci) by (eapply map_entry_unique; eauto). subst.
  rewrite Hd in Hkeep. discriminate.
Qed.

(** ** The invariant of the worker *)

Lemma cb_eqb_eq : forall a b, cb_eqb a b = true <-> a = b.
Proof.
  intros [x|] [y|]; cbn; try (split; congruence).
  rewrite Nat.eqb_eq. split; congruence.
Qed.

Lemma calls_callback : forall r e, calls r e = true -> is_callback e = true.
Proof. intros r e H. destruct e; cbn in *; congruence. Qed.

Lemma fired_app : forall r t1 t2, fired r (t1 ++ t2) = (fired r t1 + fired r t2)%nat.
Proof. intros. unfold fired. now rewrite filter_app, length_app. Qed.

Lemma balanced_of_compat : forall r D e,
  valid r ->
  compat r D ->
  (exists d, In d D
             /\ successCB (snd e) = getSuccessCB d
             /\ failedCB (snd e) = getFailedCB d) ->
  balanced (calls r) (holds r) e.
Proof.
  intros r D [fd ci] [Hvs Hvf] Hcompat (d & Hd & Hs & Hf). cbn [snd] in Hs, Hf.
  assert (Hov : holds r (fd, ci) = overlap r d).
  { unfold holds, overlap. cbn [snd]. now rewrite Hs, Hf. }
  unfold balanced. cbn [fst snd]. rewrite Hov.
  destruct (overlap r d) eqn:Eo.
  - destruct (Hcompat d Hd Eo) as [Hes Hef]. rewrite Hs, Hf, Hes, Hef. split.
    + destruct (getSuccessCB r) as [cb|] eqn:E; [|congruence].
      cbn. rewrite E. cbn. apply Nat.eqb_refl.
    + destruct (getFailedCB r) as [cb|] eqn:E; [|congruence].
      cbn. rewrite E. cbn. apply Nat.eqb_refl.
  - unfold overlap in Eo. apply orb_false_iff in Eo. destruct Eo as [Eo1 Eo2].
    rewrite Hs, Hf. split.
    + destruct (getSuccessCB d); [exact Eo1 | reflexivity].
    + destruct (getFailedCB d); [exact Eo2 | reflexivity].
Qed.

Lemma compat_app : forall r D1 D2,
  compat r (D1 ++ D2) <-> compat r D1 /\ compat r D2.
Proof.
  intros r D1 D2. unfold compat. split.
  - intros H. split; intros d Hd; apply H; apply in_or_app; auto.
  - intros [H1 H2] d Hd. apply in_app_or in Hd. destruct Hd; auto.
Qed.

(** Dropping entries, each with a block of events that releases only its
    own descriptor and calls exactly one of its callbacks, keeps the
    invariant. *)
Lemma Inv_drop : forall D t w (drop : sock * ConnectingInfo -> bool)
    (block : sock * ConnectingInfo -> trace),
  Inv D t w ->
  (forall k x e, In e (block x) -> releases k e = true -> fst x = k) ->
  (forall psi phi e,
      (forall ev, psi ev = true -> is_callback ev = true) ->
      balanced psi phi e ->
      List.length (filter psi (block e)) = if phi e then 1%nat else 0%nat) ->
  Inv D (t ++ flat_map (fun e => if drop e then block e else []) (mConnectingInfos w))
      (with_entries (filter (fun e => negb (drop e)) (mConnectingInfos w))).
Proof.
  intros D t w drop block (Hwf & Hheld & Hfrom & Hcount) Hrel Hblock.
  pose proof Hwf as (Hasc & _ & _).
  unfold Inv. cbn [with_entries mConnectingInfos]. repeat split.
  - apply ascending_keys_filter, Hasc.
  - intros fd Hfd. rewrite held_app. apply held_dropped.
    + now apply ascending_NoDup.
    + apply Hrel.
    + exact Hfd.
    + apply Hheld. eapply map_keys_filter_In; eauto.
  - intros e He. apply filter_In in He. apply Hfrom, He.
  - intros r Hv Hc. rewrite <- (Hcount r Hv Hc), fired_app.
    unfold pending. cbn [with_entries mConnectingInfos].
    rewrite <- (count_dropped (calls r) (holds r) drop block (mConnectingInfos w)).
    + unfold fired. lia.
    + intros e He. apply Hblock; [apply calls_callback|].
      eapply balanced_of_compat; eauto.
Qed.

Lemma Inv_checkTimeout : forall D t w now,
  Inv D t w ->
  Inv D (t ++ snd (checkTimeout now w)) (fst (checkTimeout now w)).
Proof.
  intros D t w now HI. pose proof HI as (Hwf & _).
  rewrite checkTimeout_spec by assumption. cbn [fst snd].
  apply (Inv_drop D t w (expired now) timeout_block HI).
  - intros k x e. apply releases_timeout_block.
  - intros psi phi e Hpsi. now apply count_timeout_block.
Qed.

Lemma Inv_checkConnectStatus : forall D t w os,
  Inv D t w ->
  Inv D (t ++ snd (checkConnectStatus os w)) (fst (checkConnectStatus os w)).
Proof.
  intros D t w os HI. pose proof HI as (Hwf & _).
  destruct (Z_le_gt_dec (poll_ret os) 0) as [H|H].
  - rewrite checkConnectStatus_idle by assumption. cbn. now rewrite app_nil_r.
  - rewrite checkConnectStatus_spec by (assumption || lia). cbn [fst snd].
    apply (Inv_drop D t w (ready os) (ready_block os) HI).
    + intros k x e. apply releases_ready_block.
    + intros psi phi e Hpsi. now apply count_ready_block.
Qed.

Lemma Inv_causeAllFailed : forall D t w,
  Inv D t w ->
  Inv D (t ++ snd (causeAllFailed w)) (fst (causeAllFailed w))
  /\ fst (causeAllFailed w) = newConnectorWorkInfo.
Proof.
  intros D t w HI. pose proof HI as (Hwf & _).
  rewrite causeAllFailed_spec by assumption. cbn [fst snd]. split; [|reflexivity].
  pose proof (Inv_drop D t w (fun _ => true) timeout_block HI) as H.
  cbn [negb] in H.
  replace (filter (fun _ => false) (mConnectingInfos w))
    with (@nil (sock * ConnectingInfo)) in H
    by (clear; induction (mConnectingInfos w); auto).
  apply H.
  - intros k x e. apply releases_timeout_block.
  - intros psi phi e Hpsi. now apply count_timeout_block.
Qed.

Lemma count_insert_fresh : forall (phi : sock * ConnectingInfo -> bool) k v m,
  ~ In k (StdMap.keys m) ->
  List.length (filter phi (StdMap.insert k v m))
  = (List.length (filter phi m) + if phi (k, v) then 1 else 0)%nat.
Proof.
  induction m as [|[k' v'] m IH]; intros Hk.
  - cbn. destruct (phi (k, v)); reflexivity.
  - cbn [StdMap.insert]. cbn in Hk.
    destruct (k <? k').
    + cbn [filter]. destruct (phi (k, v)); cbn [List.length]; lia.
    + destruct (k =? k') eqn:E; [apply Z.eqb_eq in E; intuition congruence|].
      cbn [filter]. destruct (phi (k', v')); cbn [List.length]; rewrite IH; intuition lia.
Qed.

Lemma count_call_success : forall psi phi fd ci,
  balanced psi phi (fd, ci) ->
  List.length (filter psi (call_success (successCB ci) fd))
  = if phi (fd, ci) then 1%nat else 0%nat.
Proof.
  intros psi phi fd ci [Hs _]. cbn [fst snd] in Hs.
  destruct (successCB ci); cbn.
  - rewrite Hs. now destruct (phi (fd, ci)).
  - now rewrite Hs.
Qed.

Lemma count_call_failed : forall psi phi fd ci,
  balanced psi phi (fd, ci) ->
  List.length (filter psi (call_failed (failedCB ci)))
  = if phi (fd, ci) then 1%nat else 0%nat.
Proof.
  intros psi phi fd ci [_ Hf]. cbn [fst snd] in Hf.
  destruct (failedCB ci); cbn.
  - rewrite Hf. now destruct (phi (fd, ci)).
  - now rewrite Hf.
Qed.

Lemma count_overlap_snoc : forall r D d,
  List.length (filter (overlap r) (D ++ [d]))
  = (List.length (filter (overlap r) D) + if overlap r d then 1 else 0)%nat.
Proof.
  intros r D d. rewrite filter_app, length_app. cbn.
  destruct (overlap r d); reflexivity.
Qed.

Lemma fresh_create : forall S fd t,
  fresh_descriptors S (EvSocketCreate fd :: t) = true ->
  fd = SOCKET_ERROR \/ ~ In fd S.
Proof.
  intros S fd t H. cbn in H. apply andb_true_iff in H. destruct H as [H _].
  apply orb_true_iff in H. destruct H as [H|H].
  - left. now apply Z.eqb_eq.
  - right. intros Hin. apply negb_true_iff in H.
    assert (existsb (Z.eqb fd) S = true); [|congruence].
    apply existsb_exists. exists fd. split; [assumption | apply Z.eqb_refl].
Qed.

Lemma releases_call_success : forall k cb fd e,
  k <> fd -> In e (call_success cb fd) -> releases k e = false.
Proof.
  intros k [f|] fd e Hne H; cbn in H; [|contradiction].
  destruct H as [<-|[]]. cbn. apply Z.eqb_neq. congruence.
Qed.

Lemma Inv_processConnect : forall D t w os d,
  Inv D t w ->
  fresh_descriptors (held [] t) (snd (processConnect os d w)) = true ->
  Inv (D ++ [d]) (t ++ snd (processConnect os d w)) (fst (processConnect os d w)).
Proof.
  intros D t w os d HI Hfresh.
  pose proof (wf_processConnect os d w (proj1 HI)) as Hwf'.
  destruct HI as (Hwf & Hheld & Hfrom & Hcount).
  set (ci := {| startConnectTime := os_now os; timeout := getTimeout d;
                successCB := getSuccessCB d; failedCB := getFailedCB d |}).
  (* the calls of the new request, counted against any other request *)
  assert (Hbal : forall r, valid r -> compat r (D ++ [d]) ->
                   balanced (calls r) (holds r) (os_socket os, ci)).
  { intros r Hv Hc. eapply balanced_of_compat; eauto.
    exists d. split; [apply in_or_app; right; now left | split; reflexivity]. }
  assert (Hhold : forall r, holds r (os_socket os, ci) = overlap r d) by reflexivity.
  (* the entries that were pending stay held, unless the new descriptor is one of them *)
  assert (Hkeep : forall t' k,
             In k (StdMap.keys (mConnectingInfos w)) ->
             (forall e, In e t' -> releases k e = false) ->
             In k (held [] (t ++ t'))).
  { intros t' k Hk Hrel. rewrite held_app. apply held_keeps; auto. }
  assert (Hsame : forall t',
             (forall k, In k (StdMap.keys (mConnectingInfos w)) ->
                        forall e, In e t' -> releases k e = false) ->
             (forall r, valid r -> compat r (D ++ [d]) ->
                        fired r t' = if overlap r d then 1%nat else 0%nat) ->
             Inv (D ++ [d]) (t ++ t') w).
  { intros t' Hrel Hfired. unfold Inv. repeat split; try apply Hwf.
    - intros fd Hfd. apply Hkeep; auto.
    - intros e He. destruct (Hfrom e He) as (d0 & Hd0 & H).
      exists d0. split; [apply in_or_app; now left | exact H].
    - intros r Hv Hc. rewrite fired_app, count_overlap_snoc, (Hfired r Hv Hc).
      apply compat_app in Hc. rewrite <- (Hcount r Hv (proj1 Hc)). lia. }
  destruct (processConnect_cases os d w) as [[Hfd H]|[Hfd (a & p & [H|[H|H]])]];
    cbn zeta in H; rewrite H in *; cbn [fst snd] in *.
  - (* no socket *)
    apply Hsame.
    + intros k Hk e [<-|He]; [reflexivity|]. eapply releases_call_failed; eauto.
    + intros r Hv Hc. unfold fired. rewrite filter_app, length_app.
      change (getFailedCB d) with (failedCB ci).
      rewrite (count_call_failed _ _ (os_socket os) ci (Hbal r Hv Hc)), Hhold.
      reflexivity.
  - (* connected at once *)
    destruct (fresh_create _ _ _ Hfresh) as [Hbad|Hnew]; [contradiction|].
    apply Hsame.
    + intros k Hk e He.
      assert (Hne : k <> os_socket os) by (intros ->; apply Hnew, Hheld, Hk).
      destruct He as [<-|[<-|[<-|He]]]; try reflexivity.
      eapply releases_call_success; eauto.
    + intros r Hv Hc. unfold fired. rewrite filter_app, length_app.
      change (getSuccessCB d) with (successCB ci).
      rewrite (count_call_success _ _ (os_socket os) ci (Hbal r Hv Hc)), Hhold.
      reflexivity.
  - (* connect failed *)
    destruct (fresh_create _ _ _ Hfresh) as [Hbad|Hnew]; [contradiction|].
    apply Hsame.
    + intros k Hk e He.
      assert (Hne : k <> os_socket os) by (intros ->; apply Hnew, Hheld, Hk).
      destruct He as [<-|[<-|[<-|[<-|He]]]]; try reflexivity.
      * cbn. apply Z.eqb_neq. congruence.
      * eapply releases_call_failed; eauto.
    + intros r Hv Hc. unfold fired. rewrite !filter_app, !length_app.
      change (getFailedCB d) with (failedCB ci).
      rewrite (count_call_failed _ _ (os_socket os) ci (Hbal r Hv Hc)), Hhold.
      reflexivity.
  - (* in progress *)
    destruct (fresh_create _ _ _ Hfresh) as [Hbad|Hnew]; [contradiction|].
    assert (Hnokey : ~ In (os_socket os) (StdMap.keys (mConnectingInfos w)))
      by (intros Hk; apply Hnew, Hheld, Hk).
    fold ci. fold ci in Hwf'. unfold Inv. cbn [mConnectingInfos]. repeat split;
      try apply Hwf'.
    + intros k Hk. rewrite map_keys_insert in Hk. apply set_insert_In in Hk.
      rewrite held_app. cbn.
      replace (os_socket os =? SOCKET_ERROR) with false
        by (symmetry; now apply Z.eqb_neq).
      destruct Hk as [->|Hk]; [now left | right; auto].
    + intros e He. apply map_insert_In in He. destruct He as [->|He].
      * exists d. split; [apply in_or_app; right; now left | split; reflexivity].
      * destruct (Hfrom e He) as (d0 & Hd0 & H0).
        exists d0. split; [apply in_or_app; now left | exact H0].
    + intros r Hv Hc. rewrite fired_app, count_overlap_snoc.
      unfold pending. cbn [mConnectingInfos].
      rewrite count_insert_fresh by assumption. rewrite Hhold.
      apply compat_app in Hc. rewrite <- (Hcount r Hv (proj1 Hc)).
      unfold pending, fired. cbn. lia.
Qed.

Lemma Inv_runAsyncProcs : forall os procs i run w D t,
  Inv D t w ->
  fresh_descriptors (held [] t) (snd (runAsyncProcs os i procs run w)) = true ->
  Inv (D ++ requests procs) (t ++ snd (runAsyncProcs os i procs run w))
      (snd (fst (runAsyncProcs os i procs run w))).
Proof.
  induction procs as [|[a|] rest IH]; intros i run w D t HI Hfresh.
  - cbn. now rewrite !app_nil_r.
  - cbn [runAsyncProcs requests] in *.
    pose proof (Inv_processConnect D t w (os i) a HI) as H1.
    destruct (processConnect (os i) a w) as [w1 t1]. cbn [fst snd] in H1.
    specialize (IH (S i) run w1 (D ++ [a]) (t ++ t1)).
    destruct (runAsyncProcs os (S i) rest run w1) as [[run' w2] t2].
    cbn [fst snd] in *.
    rewrite fresh_descriptors_app in Hfresh. apply andb_true_iff in Hfresh.
    destruct Hfresh as [Hf1 Hf2]. rewrite <- held_app in Hf2.
    specialize (IH (H1 Hf1) Hf2).
    rewrite <- !app_assoc in IH. exact IH.
  - cbn [runAsyncProcs requests] in *. apply IH; assumption.
Qed.

Lemma Inv_runOnceCheckConnect : forall os wk D t,
  Inv D t (workerInfo wk) ->
  fresh_descriptors (held [] t) (snd (runOnceCheckConnect os wk)) = true ->
  Inv (D ++ requests (eventLoop wk)) (t ++ snd (runOnceCheckConnect os wk))
      (workerInfo (fst (runOnceCheckConnect os wk))).
Proof.
  intros os wk D t HI Hfresh. unfold runOnceCheckConnect in *.
  pose proof (Inv_runAsyncProcs (it_connect os) (eventLoop wk) 0 (isRun wk)
                (workerInfo wk) D t HI) as H1.
  destruct (runAsyncProcs (it_connect os) 0 (eventLoop wk) (isRun wk) (workerInfo wk))
    as [[run w1] t1]. cbn [fst snd] in H1.
  pose proof (fun H => Inv_checkConnectStatus _ _ _ (it_poll os) (H1 H)) as H2.
  destruct (checkConnectStatus (it_poll os) w1) as [w2 t2]. cbn [fst snd] in H2.
  pose proof (fun H => Inv_checkTimeout _ _ _ (it_now os) (H2 H)) as H3.
  destruct (checkTimeout (it_now os) w2) as [w3 t3]. cbn [fst snd] in *.
  rewrite fresh_descriptors_app in Hfresh. apply andb_true_iff in Hfresh.
  destruct Hfresh as [Hf1 _]. specialize (H3 Hf1).
  rewrite <- !app_assoc in H3. exact H3.
Qed.

Lemma Inv_workerLoop : forall iters wk D t wk' t',
  Inv D t (workerInfo wk) ->
  workerLoop iters wk = Some (wk', t') ->
  fresh_descriptors (held [] t) t' = true ->
  Inv (D ++ processed (eventLoop wk) (isRun wk) iters) (t ++ t') (workerInfo wk').
Proof.
  induction iters as [|[pushed os] rest IH]; intros wk D t wk' t' HI Hloop Hfresh.
  - cbn in *. destruct (isRun wk); [discriminate|]. inversion Hloop; subst.
    now rewrite !app_nil_r.
  - cbn [workerLoop processed] in *. destruct (isRun wk) eqn:Erun.
    2:{ inversion Hloop; subst. now rewrite !app_nil_r. }
    set (wk0 := {| eventLoop := eventLoop wk ++ pushed;
                   workerInfo := workerInfo wk; isRun := true |}) in *.
    pose proof (Inv_runOnceCheckConnect os wk0 D t HI) as H1.
    destruct (runOnceCheckConnect_flag os wk0) as [Hflag Hqueue].
    destruct (runOnceCheckConnect os wk0) as [wk1 t1]. cbn [fst snd] in *.
    destruct (workerLoop rest wk1) as [[wk2 t2]|] eqn:Erest; [|discriminate].
    inversion Hloop; subst wk' t'.
    rewrite fresh_descriptors_app in Hfresh. apply andb_true_iff in Hfresh.
    destruct Hfresh as [Hf1 Hf2]. rewrite <- held_app in Hf2.
    specialize (IH wk1 _ _ wk2 t2 (H1 Hf1) Erest Hf2).
    rewrite Hqueue, Hflag in IH.
    rewrite <- !app_assoc in IH. exact IH.
Qed.

Lemma Inv_new : Inv [] [] newConnectorWorkInfo.
Proof.
  unfold Inv. repeat split; try (cbn; constructor); cbn; try contradiction.
Qed.

Lemma NoDup_map_injective : forall (A B : Type) (f : A -> B) l a b,
  NoDup (map f l) -> In a l -> In b l -> f a = f b -> a = b.
Proof.
  induction l as [|x l IH]; intros a b Hnd Ha Hb Hf; [contradiction|].
  cbn in Hnd. inversion Hnd; subst.
  destruct Ha as [->|Ha], Hb as [->|Hb]; auto.
  - exfalso. apply H1. rewrite Hf. now apply in_map.
  - exfalso. apply H1. rewrite <- Hf. now apply in_map.
Qed.

Lemma filter_none : forall (A : Type) (p : A -> bool) l,
  (forall d, In d l -> p d = false) -> filter p l = [].
Proof.
  induction l as [|x l IH]; intros H; [reflexivity|].
  cbn. rewrite (H x (or_introl eq_refl)). apply IH. intros d Hd. apply H. now right.
Qed.

Lemma count_unique : forall (A : Type) (p : A -> bool) l r,
  NoDup l -> In r l -> p r = true -> (forall d, In d l -> p d = true -> d = r) ->
  List.length (filter p l) = 1%nat.
Proof.
  induction l as [|x l IH]; intros r Hnd Hr Hp Huniq; [contradiction|].
  inversion Hnd; subst. cbn.
  destruct Hr as [->|Hr].
  - rewrite Hp. cbn. rewrite filter_none; [reflexivity|].
    intros d Hd. destruct (p d) eqn:E; [|reflexivity].
    exfalso. apply H1. rewrite <- (Huniq d (or_intror Hd) E). exact Hd.
  - destruct (p x) eqn:E.
    + exfalso. apply H1. rewrite (Huniq x (or_introl eq_refl) E). exact Hr.
    + apply (IH r); auto. intros d Hd. apply Huniq. now right.
Qed.

Lemma overlap_refl : forall r, overlap r r = true.
Proof.
  intros r. unfold overlap.
  replace (cb_eqb (getSuccessCB r) (getSuccessCB r)) with true
    by (symmetry; now apply cb_eqb_eq).
  reflexivity.
Qed.

Lemma overlap_same : forall reqs r d,
  NoDup (map getSuccessCB reqs) ->
  NoDup (map getFailedCB reqs) ->
  In r reqs -> In d reqs -> overlap r d = true -> d = r.
Proof.
  intros reqs r d Hs Hf Hr Hd Ho. unfold overlap in Ho.
  apply orb_true_iff in Ho. destruct Ho as [Ho|Ho]; apply cb_eqb_eq in Ho.
  - exact (NoDup_map_injective _ _ getSuccessCB reqs d r Hs Hd Hr Ho).
  - exact (NoDup_map_injective _ _ getFailedCB reqs d r Hf Hd Hr Ho).
Qed.

(** ** Exactly one callback per request *)

(** C1. Take any complete run of the worker thread, from its start to the
    end of [causeAllFailed], in which the operating system never returns
    a descriptor the worker still holds open, and in which the requests
    the worker processed each carry both callbacks and no two of them
    share a callback.  Then for every request the worker processed, the
    trace of the run contains exactly one call of its [on_success] or
    [on_failure], whichever way the request ended; and nothing is left
    pending. *)
Theorem C1_exactly_one_callback :
  forall (iters : list (list AsyncProc * IterOS)) (wk : Worker) (t : trace),
    workerThread iters newWorker = Some (wk, t) ->
    fresh_descriptors [] t = true ->
    (forall r, In r (processed [] true iters) -> valid r) ->
    NoDup (map getSuccessCB (processed [] true iters)) ->
    NoDup (map getFailedCB (processed [] true iters)) ->
    forall r, In r (processed [] true iters) ->
      fired r t = 1%nat /\ mConnectingInfos (workerInfo wk) = [].
Proof.
  intros iters wk t Hrun Hfresh Hvalid Hs Hf r Hr.
  unfold workerThread in Hrun.
  destruct (workerLoop iters newWorker) as [[wk1 t1]|] eqn:Eloop; [|discriminate].
  pose proof (Inv_workerLoop iters newWorker [] [] wk1 t1 Inv_new Eloop) as HI.
  cbn [app eventLoop isRun newWorker held] in HI.
  pose proof (fun H => Inv_causeAllFailed _ _ _ (HI H)) as HF.
  destruct (causeAllFailed (workerInfo wk1)) as [w2 t2]. cbn [fst snd] in HF.
  inversion Hrun; subst wk t. cbn [workerInfo].
  rewrite fresh_descriptors_app in Hfresh. apply andb_true_iff in Hfresh.
  destruct (HF (proj1 Hfresh)) as [(_ & _ & _ & Hcount) Hnew]. subst w2.
  split; [|reflexivity].
  assert (Hcompat : compat r (processed [] true iters)).
  { intros d Hd Ho. rewrite (overlap_same _ r d Hs Hf Hr Hd Ho). auto. }
  specialize (Hcount r (Hvalid r Hr) Hcompat).
  unfold pending in Hcount. cbn in Hcount. rewrite Nat.add_0_r in Hcount.
  rewrite Hcount. apply (count_unique _ (overlap r) _ r).
  - eapply NoDup_map_inv; eauto.
  - assumption.
  - apply overlap_refl.
  - intros d Hd Ho. eapply overlap_same; eauto.
Qed.

(** C1 on [sample_run]: the first request is still pending at shutdown
    and is failed there, the second fails inside [processConnect]; each
    has exactly one call. *)
Lemma C1_exactly_one_callback_witness :
  exists wk t,
    workerThread sample_run newWorker = Some (wk, t)
    /\ t = [EvSocketCreate 5; EvSocketNonblock 5; EvConnect 5 2130706433 (htons 8080);
            EvFdsetAdd 5;
            EvSocketCreate 6; EvSocketNonblock 6; EvConnect 6 167772162 (htons 9);
            EvSocketClose 6; EvCallFailed 4;
            EvFdsetDel 5; EvSocketClose 5; EvCallFailed 2]
    /\ fired sample_request t = 1%nat
    /\ fired other_request t = 1%nat.
Proof.
  eexists _, _. split; [reflexivity|]. split; [reflexivity|].
  assert (Hvalid : forall r, In r (processed [] true sample_run) -> valid r).
  { intros r [<-|[<-|[]]]; split; discriminate. }
  assert (Hs : NoDup (map getSuccessCB (processed [] true sample_run))).
  { cbn. repeat constructor; cbn; intuition discriminate. }
  assert (Hf : NoDup (map getFailedCB (processed [] true sample_run))).
  { cbn. repeat constructor; cbn; intuition discriminate. }
  split.
  - apply (C1_exactly_one_callback sample_run _ _ eq_refl eq_refl Hvalid Hs Hf
             sample_request). cbn. auto.
  - apply (C1_exactly_one_callback sample_run _ _ eq_refl eq_refl Hvalid Hs Hf
             other_request). cbn. auto.
Defined.

(** * Further properties of Connector.cpp *)

Lemma workerLoop_progress : forall iters wk x,
  workerLoop iters wk = Some x -> workerProgress iters wk = x.
Proof.
  induction iters as [|[pushed os] rest IH]; intros wk x H; cbn in *.
  - destruct (isRun wk); [discriminate | now inversion H].
  - destruct (isRun wk); [|now inversion H].
    destruct (runOnceCheckConnect os _) as [wk1 t1].
    destruct (workerLoop rest wk1) as [[wk2 t2]|] eqn:E; [|discriminate].
    rewrite (IH wk1 _ E). now inversion H.
Qed.

Lemma wf_workerProgress : forall iters wk,
  wf (workerInfo wk) -> wf (workerInfo (fst (workerProgress iters wk))).
Proof.
  induction iters as [|[pushed os] rest IH]; intros wk Hwf; cbn.
  - destruct (isRun wk); assumption.
  - destruct (isRun wk); [|assumption].
    pose proof (wf_runOnceCheckConnect os
                  {| eventLoop := eventLoop wk ++ pushed;
                     workerInfo := workerInfo wk; isRun := true |} Hwf) as H1.
    destruct (runOnceCheckConnect os _) as [wk1 t1]. cbn [fst] in H1.
    specialize (IH wk1 H1).
    destruct (workerProgress rest wk1) as [wk2 t2]. exact IH.
Qed.

Lemma keys_find : forall (V : Type) k (m : StdMap.t V),
  In k (StdMap.keys m) <-> exists v, StdMap.find k m = Some v.
Proof.
  intros V k m. split.
  - intros H. destruct (StdMap.find k m) as [v|] eqn:E; [eauto|].
    apply map_find_None in E. contradiction.
  - intros [v H]. apply map_find_In in H.
    change k with (fst (k, v)). now apply in_map.
Qed.

(** X1. Whatever requests arrive and whatever the operating system
    answers, after any number of iterations of a freshly started worker
    the three tables of its [ConnectorWorkInfo] agree: the keys of
    [mConnectingInfos] are strictly ascending, [mConnectingFds] and the
    Write registrations of [mFDSet] are exactly these keys.  So a
    descriptor is in [mConnectingFds] exactly when it has an entry in
    [mConnectingInfos], and the [continue] of [checkConnectStatus] for a
    descriptor without an entry is never taken. *)
Theorem X1_tables_stay_in_sync :
  forall (iters : list (list AsyncProc * IterOS)),
    let w := workerInfo (fst (workerProgress iters newWorker)) in
    ascending (StdMap.keys (mConnectingInfos w))
    /\ mConnectingFds w = StdMap.keys (mConnectingInfos w)
    /\ write_interest (mFDSet w) = StdMap.keys (mConnectingInfos w)
    /\ (forall fd, StdSet.mem fd (mConnectingFds w) = true
                   <-> exists ci, StdMap.find fd (mConnectingInfos w) = Some ci)
    /\ (forall fd, StdSet.mem fd (write_interest (mFDSet w)) = true
                   <-> exists ci, StdMap.find fd (mConnectingInfos w) = Some ci).
Proof.
  intros iters w.
  assert (Hwf : wf w) by (apply wf_workerProgress, wf_new).
  destruct Hwf as (H1 & H2 & H3). repeat split; try assumption.
  - rewrite H2. intros H. now apply keys_find, set_mem_In.
  - rewrite H2. intros H. now apply set_mem_In, keys_find.
  - rewrite H3. intros H. now apply keys_find, set_mem_In.
  - rewrite H3. intros H. now apply set_mem_In, keys_find.
Qed.




Lemma closed_fds_app : forall t1 t2, closed_fds (t1 ++ t2) = closed_fds t1 ++ closed_fds t2.
Proof.
  induction t1 as [|e t1 IH]; intros t2; [reflexivity|].
  destruct e; cbn; now rewrite ?IH.
Qed.

Lemma closed_fds_call_failed : forall cb, closed_fds (call_failed cb) = [].
Proof. now intros [f|]. Qed.

Lemma callbacks_call_failed : forall cb, filter is_callback (call_failed cb) = call_failed cb.
Proof. now intros [f|]. Qed.

Lemma closed_fds_timeout_blocks : forall m,
  closed_fds (flat_map timeout_block m) = StdMap.keys m.
Proof.
  induction m as [|[fd ci] m IH]; [reflexivity|].
  cbn [flat_map]. rewrite closed_fds_app, IH. unfold timeout_block.
  cbn [fst snd app closed_fds]. now rewrite closed_fds_call_failed.
Qed.

Lemma callbacks_timeout_blocks : forall m,
  filter is_callback (flat_map timeout_block m)
  = flat_map (fun e => call_failed (failedCB (snd e))) m.
Proof.
  induction m as [|[fd ci] m IH]; [reflexivity|].
  cbn [flat_map]. rewrite filter_app, IH. unfold timeout_block.
  cbn [fst snd app filter is_callback]. now rewrite callbacks_call_failed.
Qed.

(** X3. [causeAllFailed] empties the worker: afterwards nothing is pending,
    nothing is in [mConnectingFds] and nothing is registered.  It closes
    every pending descriptor exactly once, in ascending order of the
    descriptors, calls the [on_failure] of every entry that has one, in
    the same order, and calls no [on_success].  Run again, it does
    nothing. *)
Theorem X3_causeAllFailed_empties :
  forall w : ConnectorWorkInfo,
    wf w ->
    fst (causeAllFailed w) = newConnectorWorkInfo
    /\ closed_fds (snd (causeAllFailed w)) = StdMap.keys (mConnectingInfos w)
    /\ filter is_callback (snd (causeAllFailed w))
       = flat_map (fun e => call_failed (failedCB (snd e))) (mConnectingInfos w)
    /\ causeAllFailed (fst (causeAllFailed w)) = (newConnectorWorkInfo, []).
Proof.
  intros w Hwf. rewrite causeAllFailed_spec by assumption. cbn [fst snd].
  repeat split.
  - apply closed_fds_timeout_blocks.
  - apply callbacks_timeout_blocks.
Qed.

(** X3 on [pending_sample]: descriptor 5 is closed and the failure
    callback 2 is called. *)
Lemma X3_causeAllFailed_empties_witness :
  closed_fds (snd (causeAllFailed pending_sample)) = [5]
  /\ filter is_callback (snd (causeAllFailed pending_sample)) = [EvCallFailed 2].
Proof.
  assert (Hwf : wf pending_sample) by (apply wf_processConnect, wf_new).
  destruct (X3_causeAllFailed_empties pending_sample Hwf) as (_ & H1 & H2 & _).
  split; [exact H1 | exact H2].
Defined.

(** ** No descriptor is lost *)

Lemma held_no_create : forall t S k,
  filter is_create t = [] ->
  In k (held S t) ->
  In k S /\ (forall e, In e t -> releases k e = false).
Proof.
  induction t as [|e t IH]; intros S k Hnc Hk; [split; [assumption | intros e []]|].
  cbn in Hnc, Hk.
  assert (Hnc' : filter is_create t = [])
    by (destruct (is_create e); [discriminate | assumption]).
  destruct (IH _ _ Hnc' Hk) as [HS Hrel].
  assert (He : In k S /\ releases k e = false).
  { destruct e; cbn in *; try discriminate; try (split; [assumption | reflexivity]).
    - apply in_remove in HS. destruct HS as [HS Hne]. split; [assumption|].
      apply Z.eqb_neq. congruence.
    - apply in_remove in HS. destruct HS as [HS Hne]. split; [assumption|].
      apply Z.eqb_neq. congruence. }
  destruct He as [HS' He]. split; [assumption|].
  intros x [<-|Hx]; auto.
Qed.

Lemma held_call_failed : forall S cb, held S (call_failed cb) = S.
Proof. now intros S [f|]. Qed.

Lemma timeout_block_releases : forall x,
  exists e, In e (timeout_block x) /\ releases (fst x) e = true.
Proof.
  intros [fd ci]. exists (EvSocketClose fd). split.
  - unfold timeout_block. cbn. auto.
  - cbn. apply Z.eqb_refl.
Qed.

Lemma ready_block_releases : forall os x,
  exists e, In e (ready_block os x) /\ releases (fst x) e = true.
Proof.
  intros os [fd ci]. unfold ready_block, drop_TcpSocket. cbn [fst snd].
  destruct (isConnectSuccess os fd).
  - destruct (successCB ci) as [cb|].
    + exists (EvCallSuccess cb fd). split; [cbn; auto | cbn; apply Z.eqb_refl].
    + exists (EvSocketClose fd). split; [cbn; auto | cbn; apply Z.eqb_refl].
  - exists (EvSocketClose fd). split; [|cbn; apply Z.eqb_refl].
    right. apply in_or_app. right. now left.
Qed.

(** Dropping entries hands back the descriptor of every dropped entry. *)
Lemma tight_drop : forall t w (drop : sock * ConnectingInfo -> bool)
    (block : sock * ConnectingInfo -> trace),
  wf w ->
  (forall k, In k (held [] t) -> In k (StdMap.keys (mConnectingInfos w))) ->
  (forall x, exists e, In e (block x) /\ releases (fst x) e = true) ->
  (forall x, filter is_create (block x) = []) ->
  forall k,
    In k (held [] (t ++ flat_map (fun e => if drop e then block e else [])
                          (mConnectingInfos w))) ->
    In k (StdMap.keys (filter (fun e => negb (drop e)) (mConnectingInfos w))).
Proof.
  intros t w drop block Hwf Htight Hrel Hnc k Hk.
  rewrite held_app in Hk. apply held_no_create in Hk.
  - destruct Hk as [HS Hnone]. apply Htight in HS.
    apply in_map_iff in HS. destruct HS as ([k' ci] & Hk' & Hin). cbn in Hk'. subst k'.
    change k with (fst (k, ci)). apply in_map. apply filter_In. split; [assumption|].
    destruct (drop (k, ci)) eqn:Hd; [exfalso | reflexivity].
    destruct (Hrel (k, ci)) as (e & He & Hr). cbn in Hr.
    rewrite Hnone in Hr; [discriminate|].
    apply in_flat_map. exists (k, ci). split; [assumption|]. now rewrite Hd.
  - apply filter_flat_map_nil. intros x _. destruct (drop x); [apply Hnc | reflexivity].
Qed.

Lemma tight_checkTimeout : forall t w now,
  wf w ->
  (forall k, In k (held [] t) -> In k (StdMap.keys (mConnectingInfos w))) ->
  forall k, In k (held [] (t ++ snd (checkTimeout now w))) ->
            In k (StdMap.keys (mConnectingInfos (fst (checkTimeout now w)))).
Proof.
  intros t w now Hwf Ht. rewrite checkTimeout_spec by assumption.
  cbn [fst snd with_entries mConnectingInfos].
  apply (tight_drop t w (expired now) timeout_block Hwf Ht).
  - apply timeout_block_releases.
  - apply no_create_timeout_block.
Qed.

Lemma tight_checkConnectStatus : forall t w os,
  wf w ->
  (forall k, In k (held [] t) -> In k (StdMap.keys (mConnectingInfos w))) ->
  forall k, In k (held [] (t ++ snd (checkConnectStatus os w))) ->
            In k (StdMap.keys (mConnectingInfos (fst (checkConnectStatus os w)))).
Proof.
  intros t w os Hwf Ht. destruct (Z_le_gt_dec (poll_ret os) 0) as [H|H].
  - rewrite checkConnectStatus_idle by assumption. cbn. now rewrite app_nil_r.
  - rewrite checkConnectStatus_spec by (assumption || lia).
    cbn [fst snd with_entries mConnectingInfos].
    apply (tight_drop t w (ready os) (ready_block os) Hwf Ht).
    + apply ready_block_releases.
    + apply no_create_ready_block.
Qed.

Lemma tight_processConnect : forall t w os d,
  (forall k, In k (held [] t) -> In k (StdMap.keys (mConnectingInfos w))) ->
  getSuccessCB d <> None ->
  forall k, In k (held [] (t ++ snd (processConnect os d w))) ->
            In k (StdMap.keys (mConnectingInfos (fst (processConnect os d w)))).
Proof.
  intros t w os d Ht Hs k. rewrite held_app.
  destruct (processConnect_cases os d w) as [[Hfd H]|[Hfd (a & p & [H|[H|H]])]];
    cbn zeta in H; rewrite H; cbn [fst snd mConnectingInfos].
  - rewrite Hfd. cbn. rewrite held_call_failed. apply Ht.
  - destruct (getSuccessCB d) as [cb|]; [|congruence]. cbn.
    replace (os_socket os =? SOCKET_ERROR) with false
      by (symmetry; now apply Z.eqb_neq).
    cbn. destruct (Z.eq_dec (os_socket os) (os_socket os)); [|congruence].
    intros Hk. apply in_remove in Hk. apply Ht, Hk.
  - cbn.
    replace (os_socket os =? SOCKET_ERROR) with false
      by (symmetry; now apply Z.eqb_neq).
    cbn. destruct (Z.eq_dec (os_socket os) (os_socket os)); [|congruence].
    rewrite held_call_failed.
    intros Hk. apply in_remove in Hk. apply Ht, Hk.
  - cbn.
    replace (os_socket os =? SOCKET_ERROR) with false
      by (symmetry; now apply Z.eqb_neq).
    rewrite map_keys_insert. intros [<-|Hk]; apply set_insert_In; auto.
Qed.

Lemma tight_runAsyncProcs : forall os procs i run w t,
  (forall k, In k (held [] t) -> In k (StdMap.keys (mConnectingInfos w))) ->
  (forall r, In r (requests procs) -> getSuccessCB r <> None) ->
  forall k, In k (held [] (t ++ snd (runAsyncProcs os i procs run w))) ->
            In k (StdMap.keys (mConnectingInfos
                                 (snd (fst (runAsyncProcs os i procs run w))))).
Proof.
  induction procs as [|[a|] rest IH]; intros i run w t Ht Hs.
  - cbn. now rewrite app_nil_r.
  - cbn [runAsyncProcs requests] in *.
    pose proof (tight_processConnect t w (os i) a Ht (Hs a (or_introl eq_refl))) as H1.
    destruct (processConnect (os i) a w) as [w1 t1]. cbn [fst snd] in H1.
    specialize (IH (S i) run w1 (t ++ t1) H1 (fun r Hr => Hs r (or_intror Hr))).
    destruct (runAsyncProcs os (S i) rest run w1) as [[run' w2] t2].
    cbn [fst snd] in *. now rewrite <- app_assoc in IH.
  - cbn [runAsyncProcs requests] in *. now apply IH.
Qed.

Lemma tight_runOnceCheckConnect : forall os wk t,
  wf (workerInfo wk) ->
  (forall k, In k (held [] t) -> In k (StdMap.keys (mConnectingInfos (workerInfo wk)))) ->
  (forall r, In r (requests (eventLoop wk)) -> getSuccessCB r <> None) ->
  forall k, In k (held [] (t ++ snd (runOnceCheckConnect os wk))) ->
            In k (StdMap.keys (mConnectingInfos
                                 (workerInfo (fst (runOnceCheckConnect os wk))))).
Proof.
  intros os wk t Hwf Ht Hs. unfold runOnceCheckConnect.
  pose proof (tight_runAsyncProcs (it_connect os) (eventLoop wk) 0 (isRun wk)
                (workerInfo wk) t Ht Hs) as H1.
  pose proof (wf_runAsyncProcs (it_connect os) (eventLoop wk) 0 (isRun wk) _ Hwf) as W1.
  destruct (runAsyncProcs (it_connect os) 0 (eventLoop wk) (isRun wk) (workerInfo wk))
    as [[run w1] t1]. cbn [fst snd] in *.
  pose proof (tight_checkConnectStatus (t ++ t1) w1 (it_poll os) W1 H1) as H2.
  pose proof (wf_checkConnectStatus (it_poll os) w1 W1) as W2.
  destruct (checkConnectStatus (it_poll os) w1) as [w2 t2]. cbn [fst snd] in *.
  pose proof (tight_checkTimeout ((t ++ t1) ++ t2) w2 (it_now os) W2 H2) as H3.
  destruct (checkTimeout (it_now os) w2) as [w3 t3]. cbn [fst snd] in *.
  now rewrite <- !app_assoc in H3.
Qed.

Lemma requests_app : forall p q, requests (p ++ q) = requests p ++ requests q.
Proof.
  induction p as [|[a|] p IH]; intros q; cbn; now rewrite ?IH.
Qed.

Lemma tight_workerProgress : forall iters wk t,
  wf (workerInfo wk) ->
  (forall k, In k (held [] t) -> In k (StdMap.keys (mConnectingInfos (workerInfo wk)))) ->
  (forall r, In r (processed (eventLoop wk) (isRun wk) iters) ->
             getSuccessCB r <> None) ->
  forall k, In k (held [] (t ++ snd (workerProgress iters wk))) ->
            In k (StdMap.keys (mConnectingInfos
                                 (workerInfo (fst (workerProgress iters wk))))).
Proof.
  induction iters as [|[pushed os] rest IH]; intros wk t Hwf Ht Hs.
  - cbn. destruct (isRun wk); cbn; now rewrite app_nil_r.
  - cbn [workerProgress processed] in *. destruct (isRun wk) eqn:Erun.
    2:{ cbn. now rewrite app_nil_r. }
    set (wk0 := {| eventLoop := eventLoop wk ++ pushed;
                   workerInfo := workerInfo wk; isRun := true |}) in *.
    pose proof (tight_runOnceCheckConnect os wk0 t Hwf Ht
                  (fun r Hr => Hs r (in_or_app _ _ _ (or_introl Hr)))) as H1.
    pose proof (wf_runOnceCheckConnect os wk0 Hwf) as W1.
    destruct (runOnceCheckConnect_flag os wk0) as [Hflag Hqueue].
    destruct (runOnceCheckConnect os wk0) as [wk1 t1]. cbn [fst snd] in *.
    assert (Hs1 : forall r, In r (processed (eventLoop wk1) (isRun wk1) rest) ->
                            getSuccessCB r <> None).
    { intros r Hr. apply Hs. apply in_or_app. right.
      now rewrite Hqueue, Hflag in Hr. }
    specialize (IH wk1 (t ++ t1) W1 H1 Hs1).
    destruct (workerProgress rest wk1) as [wk2 t2]. cbn [fst snd] in *.
    now rewrite <- app_assoc in IH.
Qed.

Lemma Inv_workerProgress : forall iters wk D t,
  Inv D t (workerInfo wk) ->
  fresh_descriptors (held [] t) (snd (workerProgress iters wk)) = true ->
  Inv (D ++ processed (eventLoop wk) (isRun wk) iters)
      (t ++ snd (workerProgress iters wk))
      (workerInfo (fst (workerProgress iters wk))).
Proof.
  induction iters as [|[pushed os] rest IH]; intros wk D t HI Hfresh.
  - cbn. destruct (isRun wk); cbn; now rewrite !app_nil_r.
  - cbn [workerProgress processed] in *. destruct (isRun wk) eqn:Erun.
    2:{ cbn. now rewrite !app_nil_r. }
    set (wk0 := {| eventLoop := eventLoop wk ++ pushed;
                   workerInfo := workerInfo wk; isRun := true |}) in *.
    pose proof (Inv_runOnceCheckConnect os wk0 D t HI) as H1.
    destruct (runOnceCheckConnect_flag os wk0) as [Hflag Hqueue].
    destruct (runOnceCheckConnect os wk0) as [wk1 t1]. cbn [fst snd] in *.
    specialize (IH wk1 (D ++ requests (eventLoop wk ++ pushed)) (t ++ t1)).
    destruct (workerProgress rest wk1) as [wk2 t2]. cbn [fst snd] in *.
    rewrite fresh_descriptors_app in Hfresh. apply andb_true_iff in Hfresh.
    destruct Hfresh as [Hf1 Hf2]. rewrite <- held_app in Hf2.
    specialize (IH (H1 Hf1) Hf2).
    rewrite Hqueue, Hflag in IH.
    rewrite <- !app_assoc in IH. exact IH.
Qed.

(** X4. At any moment between two iterations of a freshly started worker,
    the descriptors it holds open (created by it and neither closed nor
    handed to a success callback) are exactly the descriptors of the
    pending attempts, provided the operating system never returns a
    descriptor that is still open and every processed request has a
    success callback.  No descriptor is closed while its attempt is
    pending, and none stays open without being pending. *)
Theorem X4_held_descriptors_are_the_pending_ones :
  forall (iters : list (list AsyncProc * IterOS)),
    let wk := fst (workerProgress iters newWorker) in
    let t := snd (workerProgress iters newWorker) in
    fresh_descriptors [] t = true ->
    (forall r, In r (processed [] true iters) -> getSuccessCB r <> None) ->
    forall k, In k (held [] t)
              <-> In k (StdMap.keys (mConnectingInfos (workerInfo wk))).
Proof.
  intros iters wk t Hfresh Hs k. subst wk t. split.
  - apply (tight_workerProgress iters newWorker [] wf_new).
    + intros x [].
    + exact Hs.
  - pose proof (Inv_workerProgress iters newWorker [] [] Inv_new Hfresh)
      as (_ & Hheld & _).
    apply Hheld.
Qed.

(** X4 on the first iteration of [sample_run]: descriptor 5 is pending and
    held, descriptor 6 was closed. *)
Lemma X4_held_descriptors_are_the_pending_ones_witness :
  In 5 (held [] (snd (workerProgress [([ProcConnect sample_request;
                                        ProcConnect other_request], iter_two)]
                        newWorker)))
  /\ ~ In 6 (held [] (snd (workerProgress [([ProcConnect sample_request;
                                             ProcConnect other_request], iter_two)]
                             newWorker))).
Proof.
  pose proof (X4_held_descriptors_are_the_pending_ones
                [([ProcConnect sample_request; ProcConnect other_request], iter_two)]
                eq_refl) as H.
  cbn zeta in H.
  assert (Hs : forall r,
             In r (processed [] true
                     [([ProcConnect sample_request; ProcConnect other_request],
                       iter_two)]) -> getSuccessCB r <> None).
  { intros r [<-|[<-|[]]]; discriminate. }
  split.
  - apply (H Hs 5). cbn. auto.
  - intros Hin. apply (H Hs 6) in Hin. cbn in Hin.
    destruct Hin as [E|[]]. discriminate.
Defined.

(** X5. When the worker thread has ended (its loop left, [causeAllFailed]
    run), it holds no descriptor any more: every socket it created has
    been closed by it or handed, inside its [TcpSocket], to an
    [on_success], provided every processed request has a success
    callback. *)
Theorem X5_ended_worker_holds_no_descriptor :
  forall (iters : list (list AsyncProc * IterOS)) (wk : Worker) (t : trace),
    workerThread iters newWorker = Some (wk, t) ->
    (forall r, In r (processed [] true iters) -> getSuccessCB r <> None) ->
    held [] t = [].
Proof.
  intros iters wk t Hrun Hs. unfold workerThread in Hrun.
  destruct (workerLoop iters newWorker) as [[wk1 t1]|] eqn:Eloop; [|discriminate].
  apply workerLoop_progress in Eloop.
  pose proof (tight_workerProgress iters newWorker [] wf_new (fun x H => match H with end) Hs)
    as Htight.
  pose proof (wf_workerProgress iters newWorker wf_new) as Hwf.
  rewrite Eloop in Htight, Hwf. cbn [fst snd app] in Htight, Hwf.
  rewrite causeAllFailed_spec in Hrun by assumption.
  inversion Hrun; subst wk t. clear Hrun.
  destruct (held [] (t1 ++ flat_map timeout_block (mConnectingInfos (workerInfo wk1))))
    as [|k rest] eqn:E; [reflexivity | exfalso].
  assert (Hk : In k (held [] (t1 ++ flat_map
                                       (fun e => if (fun _ => true) e
                                                 then timeout_block e else [])
                                       (mConnectingInfos (workerInfo wk1))))).
  { change (In k (held [] (t1 ++ flat_map timeout_block
                                   (mConnectingInfos (workerInfo wk1))))).
    rewrite E. now left. }
  apply (tight_drop t1 (workerInfo wk1) (fun _ => true) timeout_block Hwf Htight
           timeout_block_releases no_create_timeout_block) in Hk.
  cbn [negb] in Hk. rewrite filter_none in Hk by reflexivity. exact Hk.
Qed.

(** X5 on [sample_run]: descriptors 5 and 6 were both closed by the time
    the worker ended. *)
Lemma X5_ended_worker_holds_no_descriptor_witness :
  closed_fds (snd (workerProgress sample_run newWorker)) = [6]
  /\ (exists wk t, workerThread sample_run newWorker = Some (wk, t)
                   /\ closed_fds t = [6; 5] /\ held [] t = []).
Proof.
  split; [reflexivity|].
  eexists _, _. split; [reflexivity|]. split; [reflexivity|].
  apply (X5_ended_worker_holds_no_descriptor sample_run _ _ eq_refl).
  intros r [<-|[<-|[]]]; discriminate.
Defined.

(** ** A request is pending or done, never both *)

(** X6. At any moment between two iterations of a freshly started worker,
    whether it goes on to end or not, every request it has processed is
    in exactly one of two states: one of its callbacks has been called,
    once, and it has no pending entry; or none of its callbacks has been
    called and it has exactly one pending entry.  This is under the
    conditions of C1: both callbacks given, no callback shared between
    requests, descriptors fresh. *)
Theorem X6_called_once_or_pending_once :
  forall (iters : list (list AsyncProc * IterOS)),
    let wk := fst (workerProgress iters newWorker) in
    let t := snd (workerProgress iters newWorker) in
    fresh_descriptors [] t = true ->
    (forall r, In r (processed [] true iters) -> valid r) ->
    NoDup (map getSuccessCB (processed [] true iters)) ->
    NoDup (map getFailedCB (processed [] true iters)) ->
    forall r, In r (processed [] true iters) ->
      (fired r t = 1%nat /\ pending r (workerInfo wk) = 0%nat)
      \/ (fired r t = 0%nat /\ pending r (workerInfo wk) = 1%nat).
Proof.
  intros iters wk t Hfresh Hvalid Hs Hf r Hr. subst wk t.
  pose proof (Inv_workerProgress iters newWorker [] [] Inv_new Hfresh)
    as (_ & _ & _ & Hcount).
  cbn [app eventLoop isRun newWorker] in Hcount.
  assert (Hcompat : compat r (processed [] true iters)).
  { intros d Hd Ho. rewrite (overlap_same _ r d Hs Hf Hr Hd Ho). auto. }
  specialize (Hcount r (Hvalid r Hr) Hcompat).
  rewrite (count_unique _ (overlap r) _ r) in Hcount.
  - lia.
  - eapply NoDup_map_inv; eauto.
  - assumption.
  - apply overlap_refl.
  - intros d Hd Ho. eapply overlap_same; eauto.
Qed.

(** X6 on the first iteration of [sample_run]: the first request is
    pending and not yet called, the second has been failed. *)
Lemma X6_called_once_or_pending_once_witness :
  let run := [([ProcConnect sample_request; ProcConnect other_request], iter_two)] in
  ((fired sample_request (snd (workerProgress run newWorker)) = 1%nat
    /\ pending sample_request (workerInfo (fst (workerProgress run newWorker))) = 0%nat)
   \/ (fired sample_request (snd (workerProgress run newWorker)) = 0%nat
       /\ pending sample_request (workerInfo (fst (workerProgress run newWorker)))
          = 1%nat))
  /\ fired sample_request (snd (workerProgress run newWorker)) = 0%nat
  /\ fired other_request (snd (workerProgress run newWorker)) = 1%nat.
Proof.
  intros run. split; [|split; reflexivity].
  apply (X6_called_once_or_pending_once run eq_refl).
  - intros r [<-|[<-|[]]]; split; discriminate.
  - cbn. repeat constructor; cbn; intuition discriminate.
  - cbn. repeat constructor; cbn; intuition discriminate.
  - cbn. auto.
Defined.

(** ** The worker loop ends only through the stop closure *)

Lemma has_stop_app : forall p q, has_stop (p ++ q) = has_stop p || has_stop q.
Proof. induction p as [|[a|] p IH]; intros q; cbn; auto. Qed.

Lemma workerLoop_stopped : forall iters wk,
  isRun wk = false -> workerLoop iters wk = Some (wk, []).
Proof. intros [|[pushed os] rest] wk H; cbn; now rewrite H. Qed.

Lemma workerLoop_step : forall pushed os rest wk,
  isRun wk = true ->
  workerLoop ((pushed, os) :: rest) wk
  = match workerLoop rest
            (fst (runOnceCheckConnect os
                    {| eventLoop := eventLoop wk ++ pushed;
                       workerInfo := workerInfo wk; isRun := true |})) with
    | Some (wk2, t2) =>
        Some (wk2, snd (runOnceCheckConnect os
                          {| eventLoop := eventLoop wk ++ pushed;
                             workerInfo := workerInfo wk; isRun := true |}) ++ t2)
    | None => None
    end.
Proof.
  intros pushed os rest wk H. cbn [workerLoop]. rewrite H.
  destruct (runOnceCheckConnect os _) as [wk1 t1]. reflexivity.
Qed.

(** X7. The loop of the worker thread ends only through the stop closure.
    Started with its flag set, it is still running after the described
    iterations exactly when none of the closures queued for them is the
    stop closure (or no iteration was made at all); when it has ended,
    the flag is cleared and the queue is empty; and it ends with the
    first iteration that ran a stop closure: iterations described beyond
    that one are never made. *)
Theorem X7_loop_ends_only_by_stop :
  forall (iters : list (list AsyncProc * IterOS)) (wk : Worker),
  isRun wk = true ->
  (workerLoop iters wk = None
   <-> iters = [] \/ has_stop (queued (eventLoop wk) iters) = false)
  /\ (forall wk' t, workerLoop iters wk = Some (wk', t) ->
                    isRun wk' = false /\ eventLoop wk' = [])
  /\ (forall x more, workerLoop iters wk = Some x ->
                     workerLoop (iters ++ more) wk = Some x).
Proof.
  induction iters as [|[pushed os] rest IH]; intros wk Hrun.
  - cbn. rewrite Hrun. repeat split; auto; discriminate.
  - cbn [app]. rewrite workerLoop_step by assumption.
    set (wk0 := {| eventLoop := eventLoop wk ++ pushed;
                   workerInfo := workerInfo wk; isRun := true |}).
    destruct (runOnceCheckConnect_flag os wk0) as [Hflag Hqueue].
    cbn [isRun eventLoop wk0 andb] in Hflag.
    unfold queued. cbn [map fst List.concat].
    rewrite app_assoc, has_stop_app.
    destruct (has_stop (eventLoop wk ++ pushed)) eqn:Estop; cbn [negb orb] in *.
    + (* the stop closure ran in this iteration *)
      rewrite (workerLoop_stopped rest _ Hflag).
      repeat split.
      * discriminate.
      * intros [H|H]; discriminate.
      * inversion H; subst. exact Hflag.
      * inversion H; subst. exact Hqueue.
      * intros x more H. rewrite workerLoop_step by assumption. fold wk0.
        rewrite (workerLoop_stopped (rest ++ more) _ Hflag). exact H.
    + destruct (IH _ Hflag) as (Hnone & Hsome & Hmore).
      unfold queued in Hnone. rewrite Hqueue in Hnone. cbn [app] in Hnone.
      repeat split.
      * intros H. right.
        destruct (workerLoop rest (fst (runOnceCheckConnect os wk0)))
          as [[wk2 t2]|] eqn:E; [discriminate|].
        destruct (proj1 Hnone eq_refl) as [->|Hs]; [reflexivity | exact Hs].
      * intros [H|H]; [discriminate|].
        rewrite (proj2 Hnone (or_intror H)). reflexivity.
      * destruct (workerLoop rest (fst (runOnceCheckConnect os wk0)))
          as [[wk2 t2]|] eqn:E; [|discriminate].
        inversion H; subst. apply (Hsome _ _ eq_refl).
      * destruct (workerLoop rest (fst (runOnceCheckConnect os wk0)))
          as [[wk2 t2]|] eqn:E; [|discriminate].
        inversion H; subst. apply (Hsome _ _ eq_refl).
      * intros x more H. rewrite workerLoop_step by assumption. fold wk0.
        destruct (workerLoop rest (fst (runOnceCheckConnect os wk0)))
          as [[wk2 t2]|] eqn:E; [|discriminate].
        rewrite (Hmore _ more eq_refl). exact H.
Qed.

(** X7 on [sample_run]: its first iteration alone leaves the worker
    running; with the second, which carries the stop closure, it ends. *)
Lemma X7_loop_ends_only_by_stop_witness :
  workerLoop [([ProcConnect sample_request; ProcConnect other_request], iter_two)]
    newWorker = None
  /\ workerLoop sample_run newWorker <> None.
Proof.
  destruct (X7_loop_ends_only_by_stop
              [([ProcConnect sample_request; ProcConnect other_request], iter_two)]
              newWorker eq_refl) as (H1 & _).
  destruct (X7_loop_ends_only_by_stop sample_run newWorker eq_refl) as (H2 & _).
  split.
  - apply H1. right. reflexivity.
  - intros H. apply H2 in H. destruct H as [H|H]; discriminate.
Defined.

(** ** asyncConnect, stop and restart *)

Lemma asyncConnect_running : forall r c q,
  valid r ->
  mIsRun c = Some true ->
  mEventLoop c = Some q ->
  asyncConnect (getIP r) (getPort r) (getTimeout r) (getSuccessCB r) (getFailedCB r) c
  = Returned {| mIsRun := mIsRun c; mWorkInfo := mWorkInfo c;
                mEventLoop := Some (q ++ [ProcConnect r]);
                mThread := mThread c |}.
Proof.
  intros [ip port tmo s f] c q [Hs Hf] Hrun Hq. cbn in *. unfold asyncConnect.
  destruct s; [|congruence]. destruct f; [|congruence]. cbn.
  rewrite Hrun, Hq. reflexivity.
Qed.

(** X8. On a running connector, a series of [asyncConnect] calls whose
    requests all carry both callbacks returns normally, changes nothing
    but the queue of the event loop, and leaves the requests queued
    behind what was queued before, in the order of the calls; so the
    worker will process them in that order. *)
Theorem X8_asyncConnect_keeps_call_order :
  forall (reqs : list AsyncConnectAddr) (c : AsyncConnector) (q : EventLoop),
    mIsRun c = Some true ->
    mEventLoop c = Some q ->
    (forall r, In r reqs -> valid r) ->
    asyncConnectAll reqs c
    = Returned {| mIsRun := mIsRun c; mWorkInfo := mWorkInfo c;
                  mEventLoop := Some (q ++ map ProcConnect reqs);
                  mThread := mThread c |}
    /\ requests (q ++ map ProcConnect reqs) = requests q ++ reqs.
Proof.
  intros reqs c q Hrun Hq Hvalid. split.
  - revert c q Hrun Hq. induction reqs as [|r rest IH]; intros c q Hrun Hq.
    + cbn. rewrite app_nil_r. destruct c; cbn in *. subst. reflexivity.
    + cbn [asyncConnectAll map].
      rewrite (asyncConnect_running r c q) by (auto; apply Hvalid; now left).
      rewrite (IH (fun x Hx => Hvalid x (or_intror Hx)) _ (q ++ [ProcConnect r]))
        by (cbn; auto).
      cbn. now rewrite <- app_assoc.
  - rewrite requests_app. f_equal. clear. induction reqs; cbn; congruence.
Qed.

(** X8 on the started connector: two requests end up queued in call
    order. *)
Lemma X8_asyncConnect_keeps_call_order_witness :
  asyncConnectAll [sample_request; other_request] started_connector
  = Returned {| mIsRun := Some true; mWorkInfo := Some newConnectorWorkInfo;
                mEventLoop := Some [ProcConnect sample_request;
                                    ProcConnect other_request];
                mThread := Some Joinable |}.
Proof.
  refine (proj1 (X8_asyncConnect_keeps_call_order [sample_request; other_request]
                   started_connector [] eq_refl eq_refl _)).
  intros r [<-|[<-|[]]]; split; discriminate.
Defined.

(** X9. [stopWorkerThread] is idempotent.  Once a call of it has returned
    (on a started connector, or on one that was never started, where it
    returns at once), [mThread] is null, and a further
    [stopWorkerThread], or the destructor, returns at once: nothing is
    pushed, nothing is joined, no callback is called and the connector
    is unchanged. *)
Theorem X9_stop_twice_is_stop_once :
  forall (iters iters' : list IterOS) (c c' : AsyncConnector) (t : trace),
    stopWorkerThread iters c = Returned (c', t) ->
    mThread c' = None
    /\ stopWorkerThread iters' c' = Returned (c', [])
    /\ destroyAsyncConnector iters' c' = Returned (c', []).
Proof.
  intros iters iters' c c' t H.
  assert (Hnull : mThread c' = None).
  { unfold stopWorkerThread in H. destruct (mThread c) as [[]|] eqn:Eth.
    - destruct (mEventLoop c), (mIsRun c), (mWorkInfo c); try discriminate.
      destruct (workerThread _ _) as [[wk tr]|]; [|discriminate].
      now inversion H.
    - inversion H; subst. exact Eth. }
  unfold destroyAsyncConnector, stopWorkerThread. rewrite Hnull. auto.
Qed.

(** X9 after the stop of [connector_with_pending]. *)
Lemma X9_stop_twice_is_stop_once_witness :
  stopWorkerThread [iter_5_connected] stopped_connector
  = Returned (stopped_connector, []).
Proof.
  refine (proj1 (proj2 (X9_stop_twice_is_stop_once [iter_quiet] [iter_5_connected]
                          connector_with_pending stopped_connector
                          [EvFdsetDel 5; EvSocketClose 5; EvCallFailed 2] _))).
  reflexivity.
Defined.

(** X10. A stopped connector can be started again.  After any
    [stopWorkerThread] that has returned, [startWorkerThread] gives a
    running connector with a new, empty worker state and an empty queue
    (nothing pending or queued before the stop is carried over), and
    [asyncConnect] with both callbacks then returns normally with the
    request queued. *)
Theorem X10_restart_after_stop :
  forall (iters : list IterOS) (c c' : AsyncConnector) (t : trace),
    stopWorkerThread iters c = Returned (c', t) ->
    startWorkerThread c' = Returned started_connector
    /\ forall ip port tmo s f,
         asyncConnect ip port tmo (Some s) (Some f) started_connector
         = Returned {| mIsRun := Some true;
                       mWorkInfo := Some newConnectorWorkInfo;
                       mEventLoop :=
                         Some [ProcConnect
                                 (mkAsyncConnectAddr ip port tmo (Some s) (Some f))];
                       mThread := Some Joinable |}.
Proof.
  intros iters c c' t H. split; [|reflexivity].
  assert (Hnull : mThread c' = None).
  { unfold stopWorkerThread in H. destruct (mThread c) as [[]|] eqn:Eth.
    - destruct (mEventLoop c), (mIsRun c), (mWorkInfo c); try discriminate.
      destruct (workerThread _ _) as [[wk tr]|]; [|discriminate].
      now inversion H.
    - inversion H; subst. exact Eth. }
  unfold startWorkerThread. now rewrite Hnull.
Qed.

(** X10 after the stop of [connector_with_pending]. *)
Lemma X10_restart_after_stop_witness :
  startWorkerThread stopped_connector = Returned started_connector.
Proof.
  refine (proj1 (X10_restart_after_stop [iter_quiet] connector_with_pending
                   stopped_connector
                   [EvFdsetDel 5; EvSocketClose 5; EvCallFailed 2] _)).
  reflexivity.
Defined.

(** ** More on the timeout scan and on processConnect *)

Lemma filter_filter_implied : forall (A : Type) (p q : A -> bool) l,
  (forall a, In a l -> p a = true -> q a = true) ->
  filter q (filter p l) = filter p l.
Proof.
  induction l as [|a l IH]; intros H; [reflexivity|].
  cbn. destruct (p a) eqn:Ep.
  - cbn. rewrite (H a (or_introl eq_refl) Ep). f_equal.
    apply IH. intros x Hx. apply H. now right.
  - apply IH. intros x Hx. apply H. now right.
Qed.

(** X11. A timeout scan spares what an equal or later scan has spared:
    after a scan with clock readings [now], a second scan whose readings
    are nowhere later (in particular the same readings again) fails
    nothing, produces no event and leaves the worker as it is.  An
    attempt is therefore never failed twice by the scan, and never
    before a reading has reached its deadline. *)
Theorem X11_scan_spares_what_a_later_scan_spared :
  forall (now now' : sock -> time_point) (w : ConnectorWorkInfo),
    wf w ->
    (forall fd, now' fd <= now fd) ->
    checkTimeout now' (fst (checkTimeout now w)) = (fst (checkTimeout now w), []).
Proof.
  intros now now' w Hwf Hle.
  rewrite (checkTimeout_spec now w Hwf). cbn [fst].
  rewrite checkTimeout_spec by (apply wf_filter, Hwf).
  cbn [with_entries mConnectingInfos].
  assert (Himp : forall e, live now e = true -> live now' e = true).
  { intros [fd ci]. unfold live, expired. cbn. rewrite !negb_involutive.
    rewrite !Z.ltb_lt. specialize (Hle fd). lia. }
  rewrite filter_filter_implied by (intros; now apply Himp).
  f_equal.
  induction (mConnectingInfos w) as [|e m IH]; [reflexivity|].
  cbn [filter]. destruct (live now e) eqn:El; [|exact IH].
  cbn [flat_map]. rewrite IH.
  apply Himp in El. unfold live in El. apply negb_true_iff in El. now rewrite El.
Qed.

(** X11 on [pending_sample]: scanned at time 200 and again at time 150,
    descriptor 5 stays pending and the second scan is silent. *)
Lemma X11_scan_spares_what_a_later_scan_spared_witness :
  checkTimeout (fun _ => 150) (fst (checkTimeout (fun _ => 200) pending_sample))
  = (pending_sample, []).
Proof.
  assert (Hwf : wf pending_sample) by (apply wf_processConnect, wf_new).
  rewrite (X11_scan_spares_what_a_later_scan_spared
             (fun _ => 200) (fun _ => 150) pending_sample Hwf).
  - reflexivity.
  - intros fd. cbn. lia.
Defined.

Lemma map_find_insert_other : forall (V : Type) k k' (v : V) m,
  k' <> k ->
  StdMap.find k' (StdMap.insert k v m) = StdMap.find k' m.
Proof.
  intros V k k' v m Hne.
  assert (Hk : (k' =? k) = false) by now apply Z.eqb_neq.
  induction m as [|[x v'] m IH]; cbn.
  - now rewrite Hk.
  - destruct (k <? x); [cbn; now rewrite Hk|].
    destruct (k =? x) eqn:E.
    + apply Z.eqb_eq in E. subst x. cbn. now rewrite Hk.
    + cbn. now rewrite IH.
Qed.

(** X12. [processConnect] touches no attempt but its own: the entry of
    every other descriptor is as before.  It calls at most one callback,
    and only one of the request it was given; and for a request with
    both callbacks it calls none exactly when it has registered the
    attempt for Write interest.  Every event of it is about the socket
    it created, or is its failure callback. *)
Theorem X12_processConnect_minds_its_own_request :
  forall (os : ConnectOS) (addr : AsyncConnectAddr) (w : ConnectorWorkInfo),
    let w' := fst (processConnect os addr w) in
    let t := snd (processConnect os addr w) in
    (forall fd, fd <> os_socket os ->
                StdMap.find fd (mConnectingInfos w') = StdMap.find fd (mConnectingInfos w))
    /\ (filter is_callback t = []
        \/ (exists s, getSuccessCB addr = Some s
                      /\ filter is_callback t = [EvCallSuccess s (os_socket os)])
        \/ (exists f, getFailedCB addr = Some f
                      /\ filter is_callback t = [EvCallFailed f]))
    /\ (valid addr ->
        (filter is_callback t = [] <-> In (EvFdsetAdd (os_socket os)) t))
    /\ (forall e, In e t ->
                  about (os_socket os) e = true
                  \/ exists f, getFailedCB addr = Some f /\ e = EvCallFailed f).
Proof.
  intros os addr w w' t. subst w' t.
  destruct (processConnect_cases os addr w) as [[Hfd H]|[Hfd (a & p & [H|[H|H]])]];
    cbn zeta in H; rewrite H; cbn [fst snd mConnectingInfos]; clear H.
  - repeat split.
    + destruct (getFailedCB addr) as [f|]; cbn; eauto.
    + intros Hnil. destruct H as [_ Hf].
      destruct (getFailedCB addr); [discriminate | congruence].
    + intros [E|Hin]; [discriminate|].
      apply In_call_failed in Hin. discriminate.
    + intros e [<-|He]; [left; cbn; apply Z.eqb_refl|].
      destruct (getFailedCB addr) as [f|]; [|contradiction].
      destruct He as [<-|[]]. right. eauto.
  - repeat split.
    + destruct (getSuccessCB addr) as [s|]; cbn; eauto.
    + intros Hnil. destruct H as [Hs _].
      destruct (getSuccessCB addr); [discriminate | congruence].
    + intros [E|[E|[E|Hin]]]; try discriminate.
      destruct (getSuccessCB addr); [|contradiction].
      destruct Hin as [E|[]]. discriminate.
    + intros e [<-|[<-|[<-|He]]]; try (left; cbn; apply Z.eqb_refl).
      destruct (getSuccessCB addr) as [s|]; [|contradiction].
      destruct He as [<-|[]]. left. cbn. apply Z.eqb_refl.
  - repeat split.
    + destruct (getFailedCB addr) as [f|]; cbn; eauto.
    + intros Hnil. destruct H as [_ Hf].
      destruct (getFailedCB addr); [discriminate | congruence].
    + intros [E|[E|[E|[E|Hin]]]]; try discriminate.
      apply In_call_failed in Hin. discriminate.
    + intros e [<-|[<-|[<-|[<-|He]]]]; try (left; cbn; apply Z.eqb_refl).
      destruct (getFailedCB addr) as [f|]; [|contradiction].
      destruct He as [<-|[]]. right. eauto.
  - repeat split.
    + intros fd Hne. now apply map_find_insert_other.
    + left. reflexivity.
    + intros _. cbn. auto.
    + intros e [<-|[<-|[<-|[<-|[]]]]]; left; cbn; apply Z.eqb_refl.
Qed.

(** * Further properties of SSLHelper.cpp *)

Lemma made_app : forall t1 t2, SSLLife.made (t1 ++ t2) = SSLLife.made t1 ++ SSLLife.made t2.
Proof.
  induction t1 as [|e t1 IH]; intros t2; [reflexivity|].
  destruct e; cbn; now rewrite ?IH.
Qed.

Lemma freed_app : forall t1 t2,
  SSLLife.freed (t1 ++ t2) = SSLLife.freed t1 ++ SSLLife.freed t2.
Proof.
  induction t1 as [|e t1 IH]; intros t2; [reflexivity|].
  destruct e; cbn; now rewrite ?IH.
Qed.

Lemma setups_app : forall t1 t2,
  SSLLife.setups (t1 ++ t2) = (SSLLife.setups t1 + SSLLife.setups t2)%nat.
Proof.
  induction t1 as [|e t1 IH]; intros t2; [reflexivity|].
  destruct e; cbn; now rewrite ?IH.
Qed.

(** What one [initSSL] that returns makes, frees, holds and sets up. *)
Lemma initSSL_accounts : forall os certificate privatekey flag h r,
  SSL.initSSL os certificate privatekey flag h = Returned r ->
  SSLLife.holding h ++ SSLLife.made (SSL.effects r)
  = SSLLife.freed (SSL.effects r) ++ SSLLife.holding (SSL.helper r)
  /\ SSL.onceFlag r = true
  /\ SSLLife.setups (SSL.effects r) = (if flag then 0 else 1)%nat.
Proof.
  intros os certificate privatekey flag h r H. unfold SSL.initSSL in H.
  assert (Honce : SSL.call_once flag
                  = (true, if flag then [] else [SSL.EvInitCryptoThreadSafeSupport]))
    by (now destruct flag).
  rewrite Honce in H.
  set (t0 := if flag then [] else [SSL.EvInitCryptoThreadSafeSupport]) in *.
  assert (Ht0 : SSLLife.made t0 = [] /\ SSLLife.freed t0 = []
                /\ SSLLife.setups t0 = (if flag then 0 else 1)%nat)
    by (subst t0; destruct flag; repeat split).
  destruct Ht0 as (Hm & Hf & Hs).
  destruct h as [[old|]]; cbn [SSL.mOpenSSLCTX] in H.
  - inversion H; subst r. cbn. rewrite Hm, Hf, Hs. auto.
  - destruct (SSL.empty certificate || SSL.empty privatekey).
    { inversion H; subst r. cbn. rewrite Hm, Hf, Hs. auto. }
    destruct (SSL.SSL_CTX_new os) as [ctx|]; [|discriminate].
    destruct (SSL.SSL_CTX_use_certificate_chain_file os <=? 0);
      [|destruct (SSL.SSL_CTX_use_PrivateKey_file os <=? 0);
        [|destruct (SSL.SSL_CTX_check_private_key os =? 0)]];
      inversion H; subst r; cbn [SSL.effects SSL.helper SSL.onceFlag];
      unfold SSLLife.holding; cbn [SSL.mOpenSSLCTX];
      rewrite ?made_app, ?freed_app, ?setups_app, Hm, Hf, Hs; cbn;
      repeat split; lia.
Qed.

Lemma destroySSL_accounts : forall h,
  SSLLife.holding h ++ SSLLife.made (snd (SSL.destroySSL h))
  = SSLLife.freed (snd (SSL.destroySSL h)) ++ SSLLife.holding (fst (SSL.destroySSL h))
  /\ SSLLife.setups (snd (SSL.destroySSL h)) = 0%nat
  /\ fst (SSL.destroySSL h) = SSL.newSSLHelper.
Proof. intros [[ctx|]]; cbn; auto. Qed.

(** X13. Over any series of [initSSL] and [destroySSL] calls on a helper
    that all return, every OpenSSL context is accounted for: the
    contexts freed are, in order and each once, the context held at the
    start followed by the contexts made, except for the one the helper
    holds at the end.  So no context is freed twice, none is freed
    before the next one is made out of turn, and at most one is alive.
    When the series ends with [destroySSL], as every helper's life does
    through its destructor, nothing is held: all contexts made were
    freed. *)
Theorem X13_every_context_freed_once :
  forall (ops : list SSLLife.Op) (flag flag' : bool) (h h' : SSL.SSLHelper)
         (t : list SSL.SSLEvent),
    SSLLife.run ops flag h = Returned (flag', h', t) ->
    SSLLife.holding h ++ SSLLife.made t = SSLLife.freed t ++ SSLLife.holding h'
    /\ (forall t1, SSLLife.destroyHelper h' = (SSL.newSSLHelper, t1) ->
                   SSLLife.holding h ++ SSLLife.made (t ++ t1)
                   = SSLLife.freed (t ++ t1)).
Proof.
  intros ops flag flag' h h' t H.
  assert (Hbal : SSLLife.holding h ++ SSLLife.made t
                 = SSLLife.freed t ++ SSLLife.holding h').
  { revert flag flag' h h' t H.
    induction ops as [|[os certificate privatekey|] rest IH];
      intros flag flag' h h' t H; cbn [SSLLife.run] in H.
    - inversion H; subst. cbn. now rewrite app_nil_r.
    - destruct (SSL.initSSL os certificate privatekey flag h) as [r| | |] eqn:E;
        try discriminate.
      destruct (SSLLife.run rest (SSL.onceFlag r) (SSL.helper r))
        as [[[f1 h1] t1]| | |] eqn:E1; try discriminate.
      inversion H; subst. apply IH in E1.
      destruct (initSSL_accounts _ _ _ _ _ _ E) as (Hr & _).
      rewrite made_app, freed_app, app_assoc, Hr, <- !app_assoc. now rewrite E1.
    - pose proof (destroySSL_accounts h) as (Hd & _).
      destruct (SSL.destroySSL h) as [h1 t1]. cbn [fst snd] in Hd.
      destruct (SSLLife.run rest flag h1) as [[[f2 h2] t2]| | |] eqn:E1;
        try discriminate.
      inversion H; subst. apply IH in E1.
      rewrite made_app, freed_app, app_assoc, Hd, <- !app_assoc. now rewrite E1. }
  split; [exact Hbal|].
  intros t1 Hd. unfold SSLLife.destroyHelper in Hd.
  pose proof (destroySSL_accounts h') as (Hacc & _). rewrite Hd in Hacc.
  cbn [fst snd] in Hacc.
  rewrite made_app, freed_app, app_assoc, Hbal, <- app_assoc, Hacc.
  change (SSLLife.holding SSL.newSSLHelper) with (@nil SSL.SSL_CTX).
  now rewrite app_nil_r.
Qed.

(** X13 on a helper that is initialised with a key that does not match,
    then successfully, then once more, and destroyed: contexts 8 and 7
    are made and freed, in that order. *)
Lemma X13_every_context_freed_once_witness :
  exists t,
    SSLLife.run [SSLLife.OpInit SSLLife.openssl_bad_key "cert.pem" "key.pem";
                 SSLLife.OpInit SSLLife.openssl_ok "cert.pem" "key.pem";
                 SSLLife.OpInit SSLLife.openssl_bad_key "cert.pem" "key.pem";
                 SSLLife.OpDestroy] false SSLLife.Create
    = Returned (true, SSL.newSSLHelper, t)
    /\ SSLLife.made t = [8%nat; 7%nat]
    /\ SSLLife.freed t = [8%nat; 7%nat].
Proof.
  eexists. split; [reflexivity|].
  split; [reflexivity|].
  pose proof (X13_every_context_freed_once _ _ _ _ _ _
                (eq_refl : SSLLife.run
                             [SSLLife.OpInit SSLLife.openssl_bad_key "cert.pem" "key.pem";
                              SSLLife.OpInit SSLLife.openssl_ok "cert.pem" "key.pem";
                              SSLLife.OpInit SSLLife.openssl_bad_key "cert.pem" "key.pem";
                              SSLLife.OpDestroy] false SSLLife.Create = Returned _))
    as [H _].
  cbn in H. symmetry. exact H.
Defined.

(** X14. [InitCryptoThreadSafeSupport] runs once per process.  Over any
    series of [initSSL] and [destroySSL] calls that all return, it is
    run exactly once when the once flag was clear at the start and at
    least one call is an [initSSL] (in the first such call, successful
    or not) and never otherwise; and the flag is set afterwards exactly
    in that case or when it was set before. *)
Theorem X14_thread_safety_set_up_once :
  forall (ops : list SSLLife.Op) (flag flag' : bool) (h h' : SSL.SSLHelper)
         (t : list SSL.SSLEvent),
    SSLLife.run ops flag h = Returned (flag', h', t) ->
    SSLLife.setups t
    = (if negb flag && existsb SSLLife.is_init ops then 1 else 0)%nat
    /\ flag' = flag || existsb SSLLife.is_init ops.
Proof.
  induction ops as [|[os certificate privatekey|] rest IH];
    intros flag flag' h h' t H; cbn [SSLLife.run] in H.
  - inversion H; subst. cbn. now rewrite andb_false_r, orb_false_r.
  - destruct (SSL.initSSL os certificate privatekey flag h) as [r| | |] eqn:E;
      try discriminate.
    destruct (SSLLife.run rest (SSL.onceFlag r) (SSL.helper r))
      as [[[f1 h1] t1]| | |] eqn:E1; try discriminate.
    inversion H; subst. apply IH in E1. destruct E1 as [Hs Hf].
    destruct (initSSL_accounts _ _ _ _ _ _ E) as (_ & Hflag & Hset).
    rewrite Hflag in Hs, Hf. cbn in Hs, Hf.
    rewrite setups_app, Hs, Hset. cbn.
    rewrite andb_true_r, orb_true_r. split; [destruct flag; reflexivity | exact Hf].
  - destruct (SSL.destroySSL h) as [h1 t1] eqn:Ed.
    pose proof (destroySSL_accounts h) as (_ & Hd & _). rewrite Ed in Hd.
    cbn [snd] in Hd.
    destruct (SSLLife.run rest flag h1) as [[[f2 h2] t2]| | |] eqn:E1;
      try discriminate.
    inversion H; subst. apply IH in E1. destruct E1 as [Hs Hf].
    rewrite setups_app, Hd, Hs. cbn. auto.
Qed.

(** X14 on two helpers' worth of calls in one process: one set-up. *)
Lemma X14_thread_safety_set_up_once_witness :
  exists t,
    SSLLife.run [SSLLife.OpInit SSLLife.openssl_bad_key "cert.pem" "key.pem";
                 SSLLife.OpInit SSLLife.openssl_ok "cert.pem" "key.pem";
                 SSLLife.OpDestroy;
                 SSLLife.OpInit SSLLife.openssl_ok "cert.pem" "key.pem"]
      false SSLLife.Create
    = Returned (true, {| SSL.mOpenSSLCTX := Some 7%nat |}, t)
    /\ SSLLife.setups t = 1%nat.
Proof.
  eexists. split; [reflexivity|].
  refine (proj1 (X14_thread_safety_set_up_once
                   [SSLLife.OpInit SSLLife.openssl_bad_key "cert.pem" "key.pem";
                    SSLLife.OpInit SSLLife.openssl_ok "cert.pem" "key.pem";
                    SSLLife.OpDestroy;
                    SSLLife.OpInit SSLLife.openssl_ok "cert.pem" "key.pem"]
                   false true SSLLife.Create _ _ eq_refl)).
Defined.

(** X15. A helper is initialised at most once at a time.  After an
    [initSSL] that returned true, a further [initSSL] returns false
    whatever paths it is given and whatever OpenSSL would answer: it
    makes no context, frees nothing, has no effect at all and keeps the
    context.  [destroySSL] frees the held context and puts the helper,
    whatever it held, back into the state of a new one, so that
    [initSSL] then behaves as on a new helper. *)
Theorem X15_second_init_refused_until_destroyed :
  forall (os1 os2 : SSL.OpenSSL) (c1 k1 c2 k2 : string) (flag : bool)
         (h : SSL.SSLHelper) (r : SSL.InitResult),
    SSL.initSSL os1 c1 k1 flag h = Returned r ->
    SSL.ret r = true ->
    SSL.initSSL os2 c2 k2 (SSL.onceFlag r) (SSL.helper r)
    = Returned (SSL.mkInitResult false (SSL.helper r) true [])
    /\ snd (SSL.destroySSL (SSL.helper r)) = map SSL.EvFree (SSLLife.holding (SSL.helper r))
    /\ SSLLife.holding (SSL.helper r) <> []
    /\ SSL.initSSL os2 c2 k2 (SSL.onceFlag r) (fst (SSL.destroySSL (SSL.helper r)))
       = SSL.initSSL os2 c2 k2 true SSL.newSSLHelper.
Proof.
  intros os1 os2 c1 k1 c2 k2 flag h r H Hret.
  destruct (initSSL_accounts _ _ _ _ _ _ H) as (_ & Hflag & _).
  assert (Hheld : exists ctx, SSL.mOpenSSLCTX (SSL.helper r) = Some ctx).
  { unfold SSL.initSSL in H. destruct (SSL.call_once flag) as [f t0].
    destruct (SSL.mOpenSSLCTX h).
    { inversion H; subst. discriminate. }
    destruct (SSL.empty c1 || SSL.empty k1).
    { inversion H; subst. discriminate. }
    destruct (SSL.SSL_CTX_new os1) as [ctx|]; [|discriminate].
    destruct (SSL.SSL_CTX_use_certificate_chain_file os1 <=? 0);
      [|destruct (SSL.SSL_CTX_use_PrivateKey_file os1 <=? 0);
        [|destruct (SSL.SSL_CTX_check_private_key os1 =? 0)]];
      inversion H; subst; try discriminate. cbn. eauto. }
  destruct Hheld as [ctx Hctx]. rewrite Hflag.
  repeat split.
  - unfold SSL.initSSL. rewrite Hctx. reflexivity.
  - unfold SSL.destroySSL, SSLLife.holding. now rewrite Hctx.
  - unfold SSLLife.holding. rewrite Hctx. discriminate.
  - now destruct (destroySSL_accounts (SSL.helper r)) as (_ & _ & ->).
Qed.

(** X15 on a new helper initialised with [openssl_ok]. *)
Lemma X15_second_init_refused_until_destroyed_witness :
  SSL.initSSL SSLLife.openssl_bad_key "other.pem" "other.key" true
    {| SSL.mOpenSSLCTX := Some 7%nat |}
  = Returned (SSL.mkInitResult false {| SSL.mOpenSSLCTX := Some 7%nat |} true []).
Proof.
  refine (proj1 (X15_second_init_refused_until_destroyed
                   SSLLife.openssl_ok SSLLife.openssl_bad_key
                   "cert.pem" "key.pem" "other.pem" "other.key" false
                   SSL.newSSLHelper
                   (SSL.mkInitResult true {| SSL.mOpenSSLCTX := Some 7%nat |} true
                      [SSL.EvInitCryptoThreadSafeSupport;
                       SSL.EvSetClientCAList 7%nat "cert.pem";
                       SSL.EvSetVerifyDepth 7%nat 10;
                       SSL.EvUseCertificateChainFile 7%nat "cert.pem";
                       SSL.EvUsePrivateKeyFile 7%nat "key.pem";
                       SSL.EvCheckPrivateKey 7%nat])
                   eq_refl eq_refl)).
Defined.

(** ** The locking callbacks *)

Lemma find_init_loop : forall count i (locks : CryptoLocks.table) k,
  StdMap.find k (CryptoLocks.init_loop count i locks)
  = if (i <=? k) && (k <? i + Z.of_nat count) then Some (Some false)
    else StdMap.find k locks.
Proof.
  induction count as [|count IH]; intros i locks k.
  - cbn [CryptoLocks.init_loop].
    replace ((i <=? k) && (k <? i + Z.of_nat 0)) with false; [reflexivity|].
    symmetry. apply andb_false_iff.
    destruct (Z.leb_spec i k); [right; apply Z.ltb_ge; lia | now left].
  - cbn [CryptoLocks.init_loop]. rewrite IH.
    destruct (Z.eq_dec k i) as [Heq|Hne].
    + subst k. rewrite map_find_insert_same.
      replace (i + 1 <=? i) with false by (symmetry; apply Z.leb_gt; lia).
      replace (i <=? i) with true by (symmetry; apply Z.leb_le; lia).
      replace (i <? i + Z.of_nat (S count)) with true
        by (symmetry; apply Z.ltb_lt; lia).
      reflexivity.
    + rewrite (map_find_insert_other _ i k) by exact Hne.
      destruct (Z.leb_spec (i + 1) k), (Z.ltb_spec k (i + 1 + Z.of_nat count)),
        (Z.leb_spec i k), (Z.ltb_spec k (i + Z.of_nat (S count)));
        cbn [andb]; try lia; reflexivity.
Qed.

Lemma index_init : forall n locks type,
  0 <= type < n ->
  CryptoLocks.index type (CryptoLocks.InitCryptoThreadSafeSupport n locks) = Some false.
Proof.
  intros n locks type H. unfold CryptoLocks.index, CryptoLocks.InitCryptoThreadSafeSupport.
  rewrite find_init_loop.
  replace ((0 <=? type) && (type <? 0 + Z.of_nat (Z.to_nat n))) with true; [reflexivity|].
  symmetry. apply andb_true_iff. split; [apply Z.leb_le | apply Z.ltb_lt]; lia.
Qed.

(** X16. After [InitCryptoThreadSafeSupport] there is an unlocked mutex
    for every lock number from 0 up to [CRYPTO_num_locks() - 1],
    whatever the table held before.  For such a number, the locking
    callback with the [CRYPTO_LOCK] bit set locks that mutex and leaves
    every other entry alone; a second such call would block; and a call
    with [CRYPTO_UNLOCK] set and [CRYPTO_LOCK] clear unlocks it again,
    so that every lock number is back to what it was. *)
Theorem X16_lock_then_unlock :
  forall (n : Z) (locks : CryptoLocks.table) (type lock_mode unlock_mode : Z),
    0 <= type < n ->
    Z.land lock_mode CryptoLocks.CRYPTO_LOCK <> 0 ->
    Z.land unlock_mode CryptoLocks.CRYPTO_LOCK = 0 ->
    Z.land unlock_mode CryptoLocks.CRYPTO_UNLOCK <> 0 ->
    let L := CryptoLocks.InitCryptoThreadSafeSupport n locks in
    CryptoLocks.index type L = Some false
    /\ exists L1,
         CryptoLocks.cryptoLockingCallback lock_mode type L = CryptoLocks.Done L1
         /\ CryptoLocks.index type L1 = Some true
         /\ (forall k, k <> type -> StdMap.find k L1 = StdMap.find k L)
         /\ CryptoLocks.cryptoLockingCallback lock_mode type L1 = CryptoLocks.Blocked
         /\ exists L2,
              CryptoLocks.cryptoLockingCallback unlock_mode type L1 = CryptoLocks.Done L2
              /\ forall k, StdMap.find k L2 = StdMap.find k L.
Proof.
  intros n locks type lock_mode unlock_mode Hrange Hl Hu1 Hu2 L.
  pose proof (index_init n locks type Hrange) as Hidx. fold L in Hidx.
  split; [exact Hidx|].
  assert (Hlb : negb (Z.land lock_mode CryptoLocks.CRYPTO_LOCK =? 0) = true)
    by (apply negb_true_iff, Z.eqb_neq; exact Hl).
  assert (Hub1 : negb (Z.land unlock_mode CryptoLocks.CRYPTO_LOCK =? 0) = false)
    by (apply negb_false_iff, Z.eqb_eq; exact Hu1).
  assert (Hub2 : negb (Z.land unlock_mode CryptoLocks.CRYPTO_UNLOCK =? 0) = true)
    by (apply negb_true_iff, Z.eqb_neq; exact Hu2).
  assert (Hidx1 : CryptoLocks.index type (StdMap.insert type (Some true) L) = Some true).
  { unfold CryptoLocks.index. now rewrite map_find_insert_same. }
  exists (StdMap.insert type (Some true) L). repeat split.
  - unfold CryptoLocks.cryptoLockingCallback. now rewrite Hlb, Hidx.
  - exact Hidx1.
  - intros k Hk. now apply map_find_insert_other.
  - unfold CryptoLocks.cryptoLockingCallback. now rewrite Hlb, Hidx1.
  - exists (StdMap.insert type (Some false) (StdMap.insert type (Some true) L)).
    split.
    + unfold CryptoLocks.cryptoLockingCallback. now rewrite Hub1, Hub2, Hidx1.
    + intros k. destruct (Z.eq_dec k type) as [->|Hne].
      * rewrite map_find_insert_same. unfold CryptoLocks.index in Hidx.
        destruct (StdMap.find type L) as [p|]; [now rewrite Hidx | discriminate].
      * now rewrite !map_find_insert_other.
Qed.

(** X16 with 41 locks, on lock 3, locked for writing (mode 9) and
    unlocked (mode 10). *)
Lemma X16_lock_then_unlock_witness :
  CryptoLocks.index 3 (CryptoLocks.InitCryptoThreadSafeSupport 41 []) = Some false.
Proof.
  refine (proj1 (X16_lock_then_unlock 41 [] 3 9 10 _ _ _ _)); cbn; lia.
Defined.

(** X17. The locking callback does nothing when neither [CRYPTO_LOCK]
    nor [CRYPTO_UNLOCK] is set in the mode; when both are set it locks.
    For a lock number that has no mutex, which is every number before
    [InitCryptoThreadSafeSupport] has run and every number outside 0 to
    [CRYPTO_num_locks() - 1] after it has run on the empty table, a call
    with either bit set creates a null entry and calls through it. *)
Theorem X17_callback_without_a_mutex :
  forall (n mode type : Z) (locks : CryptoLocks.table),
    (Z.land mode CryptoLocks.CRYPTO_LOCK = 0 ->
     Z.land mode CryptoLocks.CRYPTO_UNLOCK = 0 ->
     CryptoLocks.cryptoLockingCallback mode type locks = CryptoLocks.Done locks)
    /\ (Z.land mode CryptoLocks.CRYPTO_LOCK <> 0 ->
        CryptoLocks.cryptoLockingCallback mode type locks
        = CryptoLocks.cryptoLockingCallback CryptoLocks.CRYPTO_LOCK type locks)
    /\ (Z.land mode CryptoLocks.CRYPTO_LOCK <> 0
        \/ Z.land mode CryptoLocks.CRYPTO_UNLOCK <> 0 ->
        CryptoLocks.cryptoLockingCallback mode type [] = CryptoLocks.NullPointer
        /\ (type < 0 \/ n <= type ->
            CryptoLocks.cryptoLockingCallback mode type
              (CryptoLocks.InitCryptoThreadSafeSupport n [])
            = CryptoLocks.NullPointer)).
Proof.
  intros n mode type locks. unfold CryptoLocks.cryptoLockingCallback. repeat split.
  - intros H1 H2. now rewrite H1, H2.
  - intros H. apply Z.eqb_neq in H. now rewrite H.
  - destruct H as [H|H]; apply Z.eqb_neq in H; rewrite H; cbn;
      destruct (Z.land mode CryptoLocks.CRYPTO_LOCK =? 0); reflexivity.
  - intros Hout.
    assert (Hidx : CryptoLocks.index type (CryptoLocks.InitCryptoThreadSafeSupport n [])
                   = None).
    { unfold CryptoLocks.index, CryptoLocks.InitCryptoThreadSafeSupport.
      rewrite find_init_loop.
      replace ((0 <=? type) && (type <? 0 + Z.of_nat (Z.to_nat n))) with false;
        [reflexivity|].
      symmetry. apply andb_false_iff.
      destruct (Z.leb_spec 0 type); [right; apply Z.ltb_ge; lia | now left]. }
    rewrite Hidx.
    destruct H as [H|H]; apply Z.eqb_neq in H; rewrite H; cbn;
      destruct (Z.land mode CryptoLocks.CRYPTO_LOCK =? 0); reflexivity.
Qed.

(** ** The proxied session over any run of its callbacks *)

Lemma runCallbacks_app : forall a b s,
  ProxyRun.runCallbacks (a ++ b) s
  = (fst (ProxyRun.runCallbacks b (fst (ProxyRun.runCallbacks a s))),
     snd (ProxyRun.runCallbacks a s)
       ++ snd (ProxyRun.runCallbacks b (fst (ProxyRun.runCallbacks a s)))).
Proof.
  induction a as [|cb a IH]; intros b s.
  - cbn. now destruct (ProxyRun.runCallbacks b s).
  - cbn [app ProxyRun.runCallbacks].
    destruct (ProxyRun.dispatch cb s) as [s1 t1]. rewrite IH.
    destruct (ProxyRun.runCallbacks a s1) as [s2 t2]. cbn [fst snd].
    now rewrite app_assoc.
Qed.

Lemma sentPast_app : forall c t1 t2,
  ProxyRun.sentPast c (t1 ++ t2) = ProxyRun.sentPast c t1 ++ ProxyRun.sentPast c t2.
Proof.
  induction t1 as [|e t1 IH]; intros t2; [reflexivity|].
  destruct e; cbn; rewrite ?IH; try reflexivity.
  destruct (Nat.eqb to c); cbn; now rewrite ?IH.
Qed.

Lemma sentPast_sends : forall c b packets,
  Nat.eqb b c = false ->
  ProxyRun.sentPast c (map (WebBinaryProxy.EvSend b) packets) = packets.
Proof.
  intros c b packets Hb. induction packets as [|p rest IH]; [reflexivity|].
  cbn. now rewrite Hb, IH.
Qed.

Lemma sentTo_other : forall c b packets,
  Nat.eqb b c = false ->
  WebBinaryProxy.sentTo c (map (WebBinaryProxy.EvSend b) packets) = [].
Proof.
  intros c b packets Hb. induction packets as [|p rest IH]; [reflexivity|].
  cbn. now rewrite Hb.
Qed.

Lemma disconnected_app : forall t1 t2,
  ProxyRun.disconnected (t1 ++ t2)
  = ProxyRun.disconnected t1 ++ ProxyRun.disconnected t2.
Proof.
  induction t1 as [|e t1 IH]; intros t2; [reflexivity|].
  destruct e; cbn; now rewrite ?IH.
Qed.

Lemma relay_accounts : forall conn cbs s,
  forallb (ProxyRun.backends_differ conn) cbs = true ->
  proxy_inv conn s ->
  ProxyRun.sentPast conn (snd (ProxyRun.runCallbacks cbs s))
    ++ WebBinaryProxy.cachePacket (fst (ProxyRun.runCallbacks cbs s))
  = WebBinaryProxy.cachePacket s ++ ProxyRun.frontPackets cbs
  /\ WebBinaryProxy.sentTo conn (snd (ProxyRun.runCallbacks cbs s))
     = ProxyRun.backPackets cbs
  /\ proxy_inv conn (fst (ProxyRun.runCallbacks cbs s)).
Proof.
  intros conn. induction cbs as [|cb rest IH]; intros s Hdiff Hinv.
  - cbn. rewrite app_nil_r. auto.
  - cbn [forallb] in Hdiff. apply andb_true_iff in Hdiff as [Hcb Hrest].
    pose proof Hinv as [Hsess Hpub].
    cbn [ProxyRun.runCallbacks].
    destruct cb as [buffer| |b|buffer|]; cbn [ProxyRun.dispatch].
    + (* front-end data *)
      unfold WebBinaryProxy.frontendData.
      destruct (WebBinaryProxy.shareBackendSession s) as [b|] eqn:Hshare.
      * destruct (Hpub b eq_refl) as [Hcache Hb].
        destruct (IH s Hrest Hinv) as (H1 & H2 & H3).
        destruct (ProxyRun.runCallbacks rest s) as [s2 t2]. cbn [fst snd] in *.
        cbn [app ProxyRun.sentPast WebBinaryProxy.sentTo ProxyRun.frontPackets
             ProxyRun.backPackets].
        rewrite Hb. cbn [app]. rewrite H1, Hcache. cbn [app]. auto.
      * set (s1 := WebBinaryProxy.mkSession _ _ _ _).
        assert (Hinv1 : proxy_inv conn s1).
        { split; [exact Hsess|]. intros b Hb. cbn in Hb. discriminate. }
        destruct (IH s1 Hrest Hinv1) as (H1 & H2 & H3).
        destruct (ProxyRun.runCallbacks rest s1) as [s2 t2]. cbn [fst snd] in *.
        cbn [app ProxyRun.frontPackets ProxyRun.backPackets].
        rewrite H1. subst s1. cbn [WebBinaryProxy.cachePacket].
        rewrite <- app_assoc. auto.
    + (* front-end disconnect *)
      unfold WebBinaryProxy.frontendDisConnect.
      set (s1 := WebBinaryProxy.mkSession _ _ _ _).
      assert (Hinv1 : proxy_inv conn s1) by exact Hinv.
      destruct (IH s1 Hrest Hinv1) as (H1 & H2 & H3).
      destruct (ProxyRun.runCallbacks rest s1) as [s2 t2]. cbn [fst snd] in *.
      cbn [ProxyRun.frontPackets ProxyRun.backPackets].
      destruct (WebBinaryProxy.shareBackendSession s);
        cbn [app ProxyRun.sentPast WebBinaryProxy.sentTo]; auto.
    + (* back-end connect completion *)
      cbn [ProxyRun.backends_differ] in Hcb. apply negb_true_iff in Hcb.
      unfold WebBinaryProxy.backendEnter.
      destruct (WebBinaryProxy.ud s =? -1).
      * destruct (IH s Hrest Hinv) as (H1 & H2 & H3).
        destruct (ProxyRun.runCallbacks rest s) as [s2 t2]. cbn [fst snd] in *.
        cbn [app ProxyRun.sentPast WebBinaryProxy.sentTo ProxyRun.frontPackets
             ProxyRun.backPackets]. auto.
      * set (s1 := WebBinaryProxy.mkSession _ _ _ _).
        assert (Hinv1 : proxy_inv conn s1).
        { split; [exact Hsess|]. intros b' Hb'. cbn in Hb'.
          injection Hb' as <-. split; [reflexivity | exact Hcb]. }
        destruct (IH s1 Hrest Hinv1) as (H1 & H2 & H3).
        destruct (ProxyRun.runCallbacks rest s1) as [s2 t2]. cbn [fst snd] in *.
        cbn [ProxyRun.frontPackets ProxyRun.backPackets].
        rewrite <- !app_assoc, sentPast_app, sentTo_app.
        rewrite (sentPast_sends conn b _ Hcb), (sentTo_other conn b _ Hcb).
        cbn [app ProxyRun.sentPast WebBinaryProxy.sentTo].
        rewrite <- app_assoc, H1. subst s1. cbn [WebBinaryProxy.cachePacket app].
        auto.
    + (* back-end data *)
      unfold WebBinaryProxy.backendData.
      destruct (IH s Hrest Hinv) as (H1 & H2 & H3).
      destruct (ProxyRun.runCallbacks rest s) as [s2 t2]. cbn [fst snd] in *.
      cbn [app ProxyRun.sentPast WebBinaryProxy.sentTo ProxyRun.frontPackets
           ProxyRun.backPackets].
      rewrite Hsess, Nat.eqb_refl, H2. auto.
    + (* back-end disconnect *)
      unfold WebBinaryProxy.backendDisConnect.
      set (s1 := WebBinaryProxy.mkSession _ _ _ _).
      assert (Hinv1 : proxy_inv conn s1).
      { split; [exact Hsess|]. intros b Hb. discriminate. }
      destruct (IH s1 Hrest Hinv1) as (H1 & H2 & H3).
      destruct (ProxyRun.runCallbacks rest s1) as [s2 t2]. cbn [fst snd] in *.
      cbn [ProxyRun.frontPackets ProxyRun.backPackets].
      rewrite Hsess.
      destruct (negb (WebBinaryProxy.ud s =? -1));
        cbn [app ProxyRun.sentPast WebBinaryProxy.sentTo]; auto.
Qed.

(** X18. A front-end session followed from its enter callback through
    any calls of its five callbacks, in any order, where the back-end
    connections are other connections than the front end's: the
    packets sent on to a back end, followed by the packets still in
    the cache, are the packets the front end delivered, in arrival
    order and each once; the packets sent to the front end are the
    packets the back end delivered, in arrival order and each once;
    and nothing is in the cache while a back end is published. *)
Theorem X18_proxy_relays_in_order :
  forall (conn : WebBinaryProxy.TcpConnection) (cbs : list ProxyRun.Callback),
    forallb (ProxyRun.backends_differ conn) cbs = true ->
    let r := ProxyRun.runCallbacks cbs (fst (WebBinaryProxy.frontendEnter conn)) in
    ProxyRun.sentPast conn (snd r) ++ WebBinaryProxy.cachePacket (fst r)
    = ProxyRun.frontPackets cbs
    /\ WebBinaryProxy.sentTo conn (snd r) = ProxyRun.backPackets cbs
    /\ (WebBinaryProxy.shareBackendSession (fst r) <> None ->
        WebBinaryProxy.cachePacket (fst r) = []).
Proof.
  intros conn cbs Hdiff r.
  assert (Hinv : proxy_inv conn (fst (WebBinaryProxy.frontendEnter conn))).
  { split; [reflexivity|]. intros b Hb. discriminate. }
  destruct (relay_accounts conn cbs _ Hdiff Hinv) as (H1 & H2 & H3).
  fold r in H1, H2, H3. repeat split.
  - exact H1.
  - exact H2.
  - intros Hsome. destruct H3 as [_ H3].
    destruct (WebBinaryProxy.shareBackendSession (fst r)) as [b|]; [|congruence].
    exact (proj1 (H3 b eq_refl)).
Qed.

(** X18 on a session that caches one packet, gets its back end, forwards
    a second packet, relays an answer and closes. *)
Lemma X18_proxy_relays_in_order_witness :
  WebBinaryProxy.sentTo 1%nat
    (snd (ProxyRun.runCallbacks
            [ProxyRun.FrontData "GET"%string; ProxyRun.BackEnter 2%nat;
             ProxyRun.FrontData "/"%string; ProxyRun.BackData "200"%string;
             ProxyRun.FrontDisConnect]
            (fst (WebBinaryProxy.frontendEnter 1%nat))))
  = ["200"%string].
Proof.
  exact (proj1 (proj2
    (X18_proxy_relays_in_order 1%nat
       [ProxyRun.FrontData "GET"%string; ProxyRun.BackEnter 2%nat;
        ProxyRun.FrontData "/"%string; ProxyRun.BackData "200"%string;
        ProxyRun.FrontDisConnect] eq_refl))).
Defined.

Lemma front_gone : forall cbs s,
  WebBinaryProxy.ud s = -1 ->
  WebBinaryProxy.ud (fst (ProxyRun.runCallbacks cbs s)) = -1
  /\ filter ProxyRun.registers (snd (ProxyRun.runCallbacks cbs s)) = []
  /\ (WebBinaryProxy.shareBackendSession s = None ->
      WebBinaryProxy.shareBackendSession (fst (ProxyRun.runCallbacks cbs s)) = None)
  /\ (existsb ProxyRun.is_FrontDisConnect cbs = false ->
      ProxyRun.disconnected (snd (ProxyRun.runCallbacks cbs s)) = ProxyRun.entered cbs).
Proof.
  induction cbs as [|cb rest IH]; intros s Hud.
  - cbn. auto.
  - cbn [ProxyRun.runCallbacks].
    assert (Hstep : WebBinaryProxy.ud (fst (ProxyRun.dispatch cb s)) = -1
                    /\ filter ProxyRun.registers (snd (ProxyRun.dispatch cb s)) = []
                    /\ (WebBinaryProxy.shareBackendSession s = None ->
                        WebBinaryProxy.shareBackendSession (fst (ProxyRun.dispatch cb s))
                        = None)
                    /\ (ProxyRun.is_FrontDisConnect cb = false ->
                        ProxyRun.disconnected (snd (ProxyRun.dispatch cb s))
                        = ProxyRun.entered [cb])).
    { destruct cb as [buffer| |b|buffer|]; cbn [ProxyRun.dispatch];
        unfold WebBinaryProxy.frontendData, WebBinaryProxy.frontendDisConnect,
          WebBinaryProxy.backendEnter, WebBinaryProxy.backendDisConnect,
          WebBinaryProxy.backendData;
        rewrite ?Hud;
        destruct (WebBinaryProxy.shareBackendSession s) eqn:Hshare; cbn;
        repeat split; intros; auto; discriminate. }
    destruct Hstep as (Hu1 & Hr1 & Hs1 & Hd1).
    destruct (ProxyRun.dispatch cb s) as [s1 t1]. cbn [fst snd] in *.
    destruct (IH s1 Hu1) as (Hu2 & Hr2 & Hs2 & Hd2).
    destruct (ProxyRun.runCallbacks rest s1) as [s2 t2]. cbn [fst snd] in *.
    repeat split.
    + exact Hu2.
    + now rewrite filter_app, Hr1, Hr2.
    + auto.
    + intros Hex. cbn [existsb] in Hex. apply orb_false_iff in Hex as [Hex1 Hex2].
      rewrite disconnected_app, (Hd1 Hex1), (Hd2 Hex2).
      destruct cb; reflexivity.
Qed.

(** X19. Once the front-end disconnect callback has run, whatever ran
    before it, and as long as it does not run again: the user-data slot
    stays at -1 through any calls of the other callbacks; no callback is
    registered any more; a back end that was not published then is
    never published; and [postDisConnect] is called on exactly the
    back-end connections whose connect completes afterwards, once each,
    in the order of completion, and on no other connection. *)
Theorem X19_front_end_gone :
  forall (conn : WebBinaryProxy.TcpConnection) (before after : list ProxyRun.Callback),
    existsb ProxyRun.is_FrontDisConnect after = false ->
    let s1 := fst (ProxyRun.runCallbacks (before ++ [ProxyRun.FrontDisConnect])
                     (fst (WebBinaryProxy.frontendEnter conn))) in
    let r := ProxyRun.runCallbacks after s1 in
    WebBinaryProxy.ud s1 = -1
    /\ WebBinaryProxy.ud (fst r) = -1
    /\ filter ProxyRun.registers (snd r) = []
    /\ (WebBinaryProxy.shareBackendSession s1 = None ->
        WebBinaryProxy.shareBackendSession (fst r) = None)
    /\ ProxyRun.disconnected (snd r) = ProxyRun.entered after.
Proof.
  intros conn before after Hex s1 r.
  assert (Hud : WebBinaryProxy.ud s1 = -1).
  { subst s1. rewrite runCallbacks_app. cbn [fst].
    cbn [ProxyRun.runCallbacks ProxyRun.dispatch]. reflexivity. }
  destruct (front_gone after s1 Hud) as (H1 & H2 & H3 & H4).
  fold r in H1, H2, H3, H4.
  exact (conj Hud (conj H1 (conj H2 (conj H3 (H4 Hex))))).
Qed.

(** X19 on a session whose front end closes while the connect is still
    under way. *)
Lemma X19_front_end_gone_witness :
  ProxyRun.disconnected
    (snd (ProxyRun.runCallbacks [ProxyRun.FrontData "late"%string; ProxyRun.BackEnter 2%nat]
            (fst (ProxyRun.runCallbacks
                    ([ProxyRun.FrontData "GET"%string] ++ [ProxyRun.FrontDisConnect])
                    (fst (WebBinaryProxy.frontendEnter 1%nat))))))
  = [2%nat].
Proof.
  exact (proj2 (proj2 (proj2 (proj2
    (X19_front_end_gone 1%nat [ProxyRun.FrontData "GET"%string]
       [ProxyRun.FrontData "late"%string; ProxyRun.BackEnter 2%nat] eq_refl))))).
Defined.

(** X20. With a back end published and the front end not yet
    disconnected, the two disconnect callbacks in either order end in
    the same state, user data -1 and no back end published, and call
    [postDisConnect] exactly once: on the back end when the front end
    closes first, on the front-end session when the back end closes
    first.  The callback that runs second calls nothing. *)
Theorem X20_either_close_ends_both :
  forall (s : WebBinaryProxy.Session) (b : WebBinaryProxy.TcpConnection),
    WebBinaryProxy.shareBackendSession s = Some b ->
    WebBinaryProxy.ud s <> -1 ->
    let closed := WebBinaryProxy.mkSession (WebBinaryProxy.session s) (-1) None
                    (WebBinaryProxy.cachePacket s) in
    ProxyRun.runCallbacks [ProxyRun.FrontDisConnect; ProxyRun.BackDisConnect] s
    = (closed, [WebBinaryProxy.EvPostDisConnect b])
    /\ ProxyRun.runCallbacks [ProxyRun.BackDisConnect; ProxyRun.FrontDisConnect] s
       = (closed, [WebBinaryProxy.EvPostDisConnect (WebBinaryProxy.session s)])
    /\ snd (ProxyRun.dispatch ProxyRun.BackDisConnect
              (fst (ProxyRun.dispatch ProxyRun.FrontDisConnect s))) = []
    /\ snd (ProxyRun.dispatch ProxyRun.FrontDisConnect
              (fst (ProxyRun.dispatch ProxyRun.BackDisConnect s))) = [].
Proof.
  intros s b Hshare Hud closed. apply Z.eqb_neq in Hud.
  cbn [ProxyRun.runCallbacks ProxyRun.dispatch].
  unfold WebBinaryProxy.frontendDisConnect, WebBinaryProxy.backendDisConnect.
  cbn [WebBinaryProxy.session WebBinaryProxy.ud WebBinaryProxy.shareBackendSession
       WebBinaryProxy.cachePacket fst snd].
  rewrite Hshare, Hud. cbn. auto.
Qed.

(** X20 on a session with back end 2 published. *)
Lemma X20_either_close_ends_both_witness :
  ProxyRun.runCallbacks [ProxyRun.FrontDisConnect; ProxyRun.BackDisConnect]
    (WebBinaryProxy.mkSession 1%nat 1 (Some 2%nat) [])
  = (WebBinaryProxy.mkSession 1%nat (-1) None [], [WebBinaryProxy.EvPostDisConnect 2%nat]).
Proof.
  refine (proj1 (X20_either_close_ends_both (WebBinaryProxy.mkSession 1%nat 1 (Some 2%nat) [])
                   2%nat eq_refl _)).
  cbn. lia.
Defined.
